(** * ai-trading-agents: indicator scoring, order sizing, paper trades, backtest

    A shallow embedding of the numeric core of the repository
    (technical_agent.py, order_agent.py, paper_trading.py, backtest.py,
    ensemble_manager.py) together with the properties its specification
    states about it.

    Conventions of the embedding.
    - A Python [float] is an extended rational: a finite value carries an
      exact rational in lowest terms, and the three IEEE specials NaN, +inf
      and -inf are constructors of their own.  Rounding and the sign of zero
      are not modelled, so the statements about floats are those rounding
      preserves: the expression the source computes, the outcome of its
      guards, orderings and signs; none relies on cancellation or on
      re-association.  NaN propagation and comparisons with NaN follow IEEE
      754; division by zero follows numpy on Series ([fdiv]) and raises on
      builtin floats ([truediv]).
    - A Python [int] is a [Z], a calendar date is the [Z] of its ordinal
      day, a [str] is a [string] of ASCII characters: [upper] and [lower]
      change the letters a-z and A-Z only.
    - A pandas Series is the list of its values in index order; a DataFrame
      is the list of its rows.
    - A Python exception is the [Raise] case of [result]. *)

From Stdlib Require Import String Ascii.
From Stdlib Require Import ZArith QArith Qabs Qreduction Lqa Lia.
From Stdlib Require Import List Bool Permutation Sorted.
Import ListNotations.

Set Implicit Arguments.

(* ================================================================== *)
(** * Python values *)
(* ================================================================== *)

Module Py.

(** Python [float]. *)
Inductive float : Type :=
| NaN
| PInf
| NInf
| Fin (q : Q).

(** [float(z)] for an int [z]. *)
Definition of_int (z : Z) : float := Fin (inject_Z z).

(** A decimal literal of the source, in lowest terms. *)
Definition lit (q : Q) : float := Fin (Qred q).

Definition is_nan (x : float) : bool :=
  match x with NaN => true | _ => false end.

(** The infinity carrying the sign a comparison with zero reports;
    [Eq] is the indeterminate form. *)
Definition inf_of (c : comparison) : float :=
  match c with Gt => PInf | Lt => NInf | Eq => NaN end.

Definition fneg (x : float) : float :=
  match x with
  | NaN => NaN
  | PInf => NInf
  | NInf => PInf
  | Fin a => Fin (Qred (- a))
  end.

Definition fadd (x y : float) : float :=
  match x, y with
  | NaN, _ | _, NaN => NaN
  | PInf, NInf | NInf, PInf => NaN
  | PInf, _ | _, PInf => PInf
  | NInf, _ | _, NInf => NInf
  | Fin a, Fin b => Fin (Qred (a + b))
  end.

Definition fsub (x y : float) : float :=
  match x, y with
  | NaN, _ | _, NaN => NaN
  | PInf, PInf | NInf, NInf => NaN
  | PInf, _ | _, NInf => PInf
  | NInf, _ | _, PInf => NInf
  | Fin a, Fin b => Fin (Qred (a - b))
  end.

Definition fmul (x y : float) : float :=
  match x, y with
  | NaN, _ | _, NaN => NaN
  | PInf, PInf | NInf, NInf => PInf
  | PInf, NInf | NInf, PInf => NInf
  | PInf, Fin a | Fin a, PInf => inf_of (a ?= 0)
  | NInf, Fin a | Fin a, NInf => inf_of (0 ?= a)
  | Fin a, Fin b => Fin (Qred (a * b))
  end.

(** numpy division: [x/0] is an infinity with the sign of [x], [0/0] and
    [inf/inf] are NaN; nothing is raised. *)
Definition fdiv (x y : float) : float :=
  match x, y with
  | NaN, _ | _, NaN => NaN
  | PInf, PInf | PInf, NInf | NInf, PInf | NInf, NInf => NaN
  | Fin _, PInf | Fin _, NInf => Fin 0
  | PInf, Fin b => match b ?= 0 with Lt => NInf | _ => PInf end
  | NInf, Fin b => match b ?= 0 with Lt => PInf | _ => NInf end
  | Fin a, Fin b =>
      match b ?= 0 with
      | Eq => inf_of (a ?= 0)
      | _ => Fin (Qred (a / b))
      end
  end.

Definition fabs (x : float) : float :=
  match x with
  | NaN => NaN
  | PInf | NInf => PInf
  | Fin a => Fin (Qred (Qabs a))
  end.

(** Ordering; [None] when an operand is NaN (unordered). *)
Definition fcmp (x y : float) : option comparison :=
  match x, y with
  | NaN, _ | _, NaN => None
  | PInf, PInf | NInf, NInf => Some Eq
  | NInf, _ | _, PInf => Some Lt
  | PInf, _ | _, NInf => Some Gt
  | Fin a, Fin b => Some (a ?= b)
  end.

(** [x < y], [x <= y], [x > y], [x >= y], [x == y]: all false on NaN. *)
Definition flt (x y : float) : bool :=
  match fcmp x y with Some Lt => true | _ => false end.
Definition fle (x y : float) : bool :=
  match fcmp x y with Some Lt | Some Eq => true | _ => false end.
Definition fgt (x y : float) : bool := flt y x.
Definition fge (x y : float) : bool := fle y x.
Definition feq (x y : float) : bool :=
  match fcmp x y with Some Eq => true | _ => false end.

(** The builtins [max(a, b)] and [min(a, b)]: the first argument is kept
    unless the second compares strictly beyond it. *)
Definition max (a b : float) : float := if fgt b a then b else a.
Definition min (a b : float) : float := if flt b a then b else a.

(** [abs(x)] on floats. *)
Definition abs := fabs.

(** [s.upper()] on ASCII text. *)
Definition upper_ascii (c : ascii) : ascii :=
  let n := nat_of_ascii c in
  if ((97 <=? n) && (n <=? 122))%nat then ascii_of_nat (n - 32) else c.

Fixpoint upper (s : string) : string :=
  match s with
  | EmptyString => EmptyString
  | String c s' => String (upper_ascii c) (upper s')
  end.

(** [s.lower()] on ASCII text. *)
Definition lower_ascii (c : ascii) : ascii :=
  let n := nat_of_ascii c in
  if ((65 <=? n) && (n <=? 90))%nat then ascii_of_nat (n + 32) else c.

Fixpoint lower (s : string) : string :=
  match s with
  | EmptyString => EmptyString
  | String c s' => String (lower_ascii c) (lower s')
  end.

(** [s.startswith(p)]. *)
Definition startswith (s p : string) : bool := String.prefix p s.

(** Exceptions the modelled code can raise. *)
Inductive exn : Type :=
| IndexError
| TypeError
| ValueError (msg : string)
| ZeroDivisionError
| OtherError (msg : string).

(** Outcome of a call that may raise. *)
Inductive result (A : Type) : Type :=
| Ok (a : A)
| Raise (e : exn).

Arguments Ok {A} a.
Arguments Raise {A} e.

Definition bind {A B : Type} (m : result A) (k : A -> result B) : result B :=
  match m with
  | Ok a => k a
  | Raise e => Raise e
  end.

(** [x / y] on builtin floats: a zero divisor raises, where numpy gives an
    infinity or NaN. *)
Definition truediv (x y : float) : result float :=
  if feq y (Fin 0) then Raise ZeroDivisionError else Ok (fdiv x y).

End Py.

Notation "x <- m ;; k" := (Py.bind m (fun x => k))
  (at level 61, m at next level, right associativity).

Declare Scope float_scope.
Delimit Scope float_scope with fl.
Bind Scope float_scope with Py.float.
Infix "+" := Py.fadd : float_scope.
Infix "-" := Py.fsub : float_scope.
Infix "*" := Py.fmul : float_scope.
Infix "/" := Py.fdiv : float_scope.
Notation "- x" := (Py.fneg x) : float_scope.
Infix "<?" := Py.flt (at level 70, no associativity) : float_scope.
Infix "<=?" := Py.fle (at level 70, no associativity) : float_scope.
Infix ">?" := Py.fgt (at level 70, no associativity) : float_scope.
Infix ">=?" := Py.fge (at level 70, no associativity) : float_scope.

(* ================================================================== *)
(** * The pandas operations the agents use *)
(* ================================================================== *)

Module Pandas.
Import Py.
Local Open Scope float_scope.

(** A Series: its values in index order. *)
Definition Series : Type := list float.

(** [s.iloc[i]]; reading past the end of an aligned column gives NaN. *)
Definition at_ (s : Series) (i : nat) : float := nth i s NaN.

(** Element-wise binary operation on two columns of one frame. *)
Fixpoint map2 {A B C : Type} (f : A -> B -> C) (l1 : list A) (l2 : list B)
  : list C :=
  match l1, l2 with
  | a :: l1', b :: l2' => f a b :: map2 f l1' l2'
  | _, _ => []
  end.

(** [s.shift(n)] for [n >= 0]: values move [n] places towards the end. *)
Definition shift (n : nat) (s : Series) : Series :=
  firstn (length s) (repeat NaN n ++ s).

(** [s.shift(-n)]: values move [n] places towards the start. *)
Definition shift_back (n : nat) (s : Series) : Series :=
  skipn n s ++ repeat NaN (Nat.min n (length s)).

(** [s.diff()]. *)
Definition diff (s : Series) : Series := map2 fsub s (shift 1 s).

(** [s.clip(lower=lo)] and [s.clip(upper=hi)]; NaN stays NaN. *)
Definition clip_lower (lo : float) (s : Series) : Series :=
  map (fun x => if x <? lo then lo else x) s.
Definition clip_upper (hi : float) (s : Series) : Series :=
  map (fun x => if x >? hi then hi else x) s.

(** [s.replace(a, b)]. *)
Definition replace (a b : float) (s : Series) : Series :=
  map (fun x => if feq x a then b else x) s.

(** [s.abs()] and unary minus. *)
Definition sabs (s : Series) : Series := map fabs s.
Definition sneg (s : Series) : Series := map fneg s.

(** The [n] values ending at position [i]. *)
Definition window (n i : nat) (s : Series) : list float :=
  firstn n (skipn (i + 1 - n) s).

(** [s.rolling(n).agg()] with the default [min_periods = n]: NaN until the
    window is full and whenever the window holds a NaN. *)
Definition rolling (n : nat) (agg : list float -> float) (s : Series)
  : Series :=
  map (fun i =>
         if (i + 1 <? n)%nat then NaN
         else let w := window n i s in
              if existsb is_nan w then NaN else agg w)
      (seq 0 (length s)).

Definition sum (w : list float) : float := fold_left fadd w (Fin 0).
Definition count (w : list float) : float := of_int (Z.of_nat (length w)).
Definition mean (w : list float) : float := sum w / count w.
Definition wmax (w : list float) : float :=
  match w with
  | [] => NaN
  | x :: t => fold_left (fun m y => if y >? m then y else m) t x
  end.
Definition wmin (w : list float) : float :=
  match w with
  | [] => NaN
  | x :: t => fold_left (fun m y => if y <? m then y else m) t x
  end.

(** Sample variance ([ddof = 1]) of a window; [std] is its square root. *)
Definition var (w : list float) : float :=
  let m := mean w in
  sum (map (fun x => (x - m) * (x - m)) w) / (count w - Fin 1).

(** Maximum of two values skipping NaN, as [DataFrame.max(axis=1)] does. *)
Definition nanmax2 (a b : float) : float :=
  if is_nan a then b else if is_nan b then a else if b >? a then b else a.

End Pandas.

(* ================================================================== *)
(** * technical_agent.py *)
(* ================================================================== *)

Module TechnicalAgent.
Import Py Pandas.
Local Open Scope float_scope.

(** One OHLCV candle of the downloaded frame. *)
Record bar : Type := mkBar {
  Open : float;
  High : float;
  Low : float;
  Close : float;
  Volume : float
}.

(** One row of the indicator frame built by [compute_indicators]. *)
Record row : Type := mkRow {
  close : float;
  ema20 : float;
  ema50 : float;
  ema200 : float;
  sma200 : float;
  rsi14 : float;
  macd : float;
  macd_signal : float;
  atr14 : float;
  adx14 : float;
  bb_lower : float;
  bb_upper : float;
  ichimoku_tenkan : float;
  ichimoku_kijun : float;
  ichimoku_span_a : float;
  ichimoku_span_b : float
}.

Definition row_fields (r : row) : list float :=
  [close r; ema20 r; ema50 r; ema200 r; sma200 r; rsi14 r; macd r;
   macd_signal r; atr14 r; adx14 r; bb_lower r; bb_upper r;
   ichimoku_tenkan r; ichimoku_kijun r; ichimoku_span_a r;
   ichimoku_span_b r].

(** [DataFrame.dropna()]: rows holding a NaN are removed. *)
Definition dropna (df : list row) : list row :=
  filter (fun r => negb (existsb is_nan (row_fields r))) df.

Definition col (f : bar -> float) (df : list bar) : Series := map f df.

(** The two rolling averages whose quotient is the relative strength. *)
Definition rsi_avg_gain (series : Series) (period : nat) : Series :=
  rolling period mean (clip_lower (Fin 0) (diff series)).
Definition rsi_avg_loss (series : Series) (period : nat) : Series :=
  rolling period mean (sneg (clip_upper (Fin 0) (diff series))).

(** The relative strength [rs] of [_rsi]. *)
Definition rsi_rs (series : Series) (period : nat) : Series :=
  map2 fdiv (rsi_avg_gain series period)
            (replace (Fin 0) NaN (rsi_avg_loss series period)).

Definition _rsi (series : Series) (period : nat) : Series :=
  map (fun rs => Fin 100 - (Fin 100 / (Fin 1 + rs)))
      (rsi_rs series period).

Definition _sma (series : Series) (window : nat) : Series :=
  rolling window mean series.

(** The true range [tr] of [_atr]. *)
Definition true_range (df : list bar) : Series :=
  let high := col High df in
  let low := col Low df in
  let close := col Close df in
  let prev_close := shift 1 close in
  let tr1 := map2 fsub high low in
  let tr2 := sabs (map2 fsub high prev_close) in
  let tr3 := sabs (map2 fsub low prev_close) in
  map2 nanmax2 (map2 nanmax2 tr1 tr2) tr3.

Definition _atr (df : list bar) (period : nat) : Series :=
  rolling period mean (true_range df).

(** The directional movements [plus_dm] and [minus_dm] of [_adx]. *)
Definition plus_dm (df : list bar) : Series :=
  let up_move := diff (col High df) in
  let down_move := sneg (diff (col Low df)) in
  map2 (fun up down => if (up >? down) && (up >? Fin 0) then up else Fin 0)
       up_move down_move.
Definition minus_dm (df : list bar) : Series :=
  let up_move := diff (col High df) in
  let down_move := sneg (diff (col Low df)) in
  map2 (fun up down => if (down >? up) && (down >? Fin 0) then down else Fin 0)
       up_move down_move.

(** The directional indicators [plus_di], [minus_di] and the index [dx]. *)
Definition plus_di (df : list bar) (period : nat) : Series :=
  let tr := _atr df 1 in
  map2 fdiv (map (fmul (Fin 100)) (rolling period sum (plus_dm df)))
            (rolling period sum tr).
Definition minus_di (df : list bar) (period : nat) : Series :=
  let tr := _atr df 1 in
  map2 fdiv (map (fmul (Fin 100)) (rolling period sum (minus_dm df)))
            (rolling period sum tr).
Definition dx (df : list bar) (period : nat) : Series :=
  let pdi := plus_di df period in
  let mdi := minus_di df period in
  map (fun q => q * Fin 100)
      (map2 fdiv (sabs (map2 fsub pdi mdi)) (sabs (map2 fadd pdi mdi))).

Definition _adx (df : list bar) (period : nat) : Series :=
  rolling period mean (dx df period).

(** Midpoint of the rolling high and the rolling low over [n] candles. *)
Definition midpoint (n : nat) (df : list bar) : Series :=
  map (fun s => s / Fin 2)
      (map2 fadd (rolling n wmax (col High df)) (rolling n wmin (col Low df))).

(** [_ichimoku]: tenkan, kijun, senkou A, senkou B, chikou. *)
Definition _ichimoku (df : list bar)
  : Series * Series * Series * Series * Series :=
  let tenkan := midpoint 9 df in
  let kijun := midpoint 26 df in
  let senkou_a := shift 26 (map (fun s => s / Fin 2) (map2 fadd tenkan kijun)) in
  let senkou_b := shift 26 (midpoint 52 df) in
  let chikou := shift_back 26 (col Close df) in
  (tenkan, kijun, senkou_a, senkou_b, chikou).

Section Indicators.

(** pandas' [Series.ewm(span=span, adjust=False).mean()] and the square root
    behind [rolling(n).std()] are library code outside the repository; the
    development holds for any implementation of them. *)
Variable ewm_mean : nat -> Series -> Series.
Variable sqrt : float -> float.

Definition _ema (series : Series) (span : nat) : Series :=
  ewm_mean span series.

Definition rolling_std (n : nat) (s : Series) : Series :=
  rolling n (fun w => sqrt (var w)) s.

Definition compute_indicators (df : list bar) : list row :=
  let close := col Close df in
  let rsi14 := _rsi close 14 in
  let ema20 := _ema close 20 in
  let ema50 := _ema close 50 in
  let ema200 := _ema close 200 in
  let sma200 := _sma close 200 in
  let ema12 := _ema close 12 in
  let ema26 := _ema close 26 in
  let macd := map2 fsub ema12 ema26 in
  let macd_signal := _ema macd 9 in
  let atr14 := _atr df 14 in
  let adx14 := _adx df 14 in
  let bb_mid := rolling 20 mean close in
  let bb_std := rolling_std 20 close in
  let bb_upper := map2 fadd bb_mid (map (fmul (Fin 2)) bb_std) in
  let bb_lower := map2 fsub bb_mid (map (fmul (Fin 2)) bb_std) in
  let '(tenkan, kijun, span_a, span_b, _) := _ichimoku df in
  dropna
    (map (fun i =>
            mkRow (at_ close i) (at_ ema20 i) (at_ ema50 i) (at_ ema200 i)
                  (at_ sma200 i) (at_ rsi14 i) (at_ macd i)
                  (at_ macd_signal i) (at_ atr14 i) (at_ adx14 i)
                  (at_ bb_lower i) (at_ bb_upper i) (at_ tenkan i)
                  (at_ kijun i) (at_ span_a i) (at_ span_b i))
         (seq 0 (length df))).

End Indicators.

(** An entry of the [reasons] list: a fixed text, or an f-string that
    renders one float with one decimal between two fixed texts. *)
Inductive reason : Type :=
| Text (s : string)
| Fmt1 (before : string) (value : float) (after : string).

(** The running pair [(score, reasons)] of [score_technical_indicators]. *)
Definition scoring : Type := (Z * list reason)%type.

Local Open Scope Z_scope.

(** The blocks of [score_technical_indicators], in source order; each reads
    the last row and updates the running pair. *)
Definition block_rsi (last : row) (st : scoring) : scoring :=
  let '(score, reasons) := st in
  if (rsi14 last >? Fin 70)%fl then
    (score - 1, reasons ++ [Fmt1 "RSI " (rsi14 last) " (ipercomprato)."])
  else if (rsi14 last <? Fin 30)%fl then
    (score + 1,
     reasons ++ [Fmt1 "RSI " (rsi14 last) " (ipervenduto, possibile rimbalzo)."])
  else
    (score, reasons ++ [Fmt1 "RSI " (rsi14 last) " (zona neutra)."]).

Definition block_short_trend (last : row) (st : scoring) : scoring :=
  let '(score, reasons) := st in
  if (close last >? ema20 last)%fl && (close last >? ema50 last)%fl then
    (score + 1,
     reasons ++ [Text "Prezzo sopra EMA20 e EMA50 (trend breve positivo)."])
  else if (close last <? ema20 last)%fl && (close last <? ema50 last)%fl then
    (score - 1,
     reasons ++ [Text "Prezzo sotto EMA20 e EMA50 (trend breve debole)."])
  else
    (score,
     reasons ++ [Text "Prezzo misto rispetto a EMA20/EMA50 (trend incerto)."]).

Definition block_long_trend (last : row) (st : scoring) : scoring :=
  let '(score, reasons) := st in
  if (close last >? ema200 last)%fl && (close last >? sma200 last)%fl then
    (score + 2,
     reasons ++ [Text "Prezzo sopra EMA200 e SMA200 (trend lungo positivo)."])
  else if (close last <? ema200 last)%fl && (close last <? sma200 last)%fl then
    (score - 2,
     reasons ++ [Text "Prezzo sotto EMA200 e SMA200 (trend lungo debole)."])
  else
    (score,
     reasons ++
     [Text "Prezzo vicino a EMA200/SMA200 (zona di equilibrio di lungo periodo)."]).

Definition block_macd (last : row) (st : scoring) : scoring :=
  let '(score, reasons) := st in
  if (macd last >? macd_signal last)%fl then
    (score + 1, reasons ++ [Text "MACD sopra il segnale (momentum rialzista)."])
  else
    (score - 1, reasons ++ [Text "MACD sotto il segnale (momentum ribassista)."]).

Definition block_bollinger (last : row) (st : scoring) : scoring :=
  let '(score, reasons) := st in
  if (close last <? bb_lower last)%fl then
    (score + 1,
     reasons ++
     [Text "Prezzo vicino/sotto banda bassa di Bollinger (possibile rimbalzo)."])
  else if (close last >? bb_upper last)%fl then
    (score - 1,
     reasons ++
     [Text "Prezzo vicino/sopra banda alta di Bollinger (possibile correzione)."])
  else (score, reasons).

Definition block_adx (last : row) (st : scoring) : scoring :=
  let '(score, reasons) := st in
  if (adx14 last <? Fin 20)%fl then
    (score, reasons ++ [Fmt1 "ADX " (adx14 last) " (trend debole/laterale)."])
  else if (adx14 last <? Fin 30)%fl then
    (score, reasons ++ [Fmt1 "ADX " (adx14 last) " (trend moderato)."])
  else
    (score, reasons ++ [Fmt1 "ADX " (adx14 last) " (trend forte)."]).

Definition block_ichimoku (last : row) (st : scoring) : scoring :=
  let '(score, reasons) := st in
  let cloud_top := max (ichimoku_span_a last) (ichimoku_span_b last) in
  let cloud_bottom := min (ichimoku_span_a last) (ichimoku_span_b last) in
  if (close last >? cloud_top)%fl then
    (score + 1,
     reasons ++ [Text "Prezzo sopra la nuvola Ichimoku (scenario rialzista)."])
  else if (close last <? cloud_bottom)%fl then
    (score - 1,
     reasons ++ [Text "Prezzo sotto la nuvola Ichimoku (scenario ribassista)."])
  else
    (score,
     reasons ++ [Text "Prezzo dentro la nuvola Ichimoku (zona di indecisione)."]).

Definition block_kijun (last : row) (st : scoring) : scoring :=
  let '(score, reasons) := st in
  if (close last >? ichimoku_kijun last)%fl then
    (score, reasons ++ [Text "Prezzo sopra la Kijun-sen (supporto dinamico)."])
  else
    (score, reasons ++ [Text "Prezzo sotto la Kijun-sen (resistenza dinamica)."]).

(** The blocks in the order the source runs them. *)
Definition blocks : list (row -> scoring -> scoring) :=
  [block_rsi; block_short_trend; block_long_trend; block_macd;
   block_bollinger; block_adx; block_ichimoku; block_kijun].

Definition run_blocks (bs : list (row -> scoring -> scoring)) (last : row)
  : scoring :=
  fold_left (fun st b => b last st) bs (0, []).

(** [ind_df.iloc[-1]]: IndexError on an empty frame. *)
Definition iloc_last (ind_df : list row) : result row :=
  match rev ind_df with
  | [] => Raise IndexError
  | r :: _ => Ok r
  end.

Definition score_technical_indicators (ind_df : list row) (style : string)
  : result (Z * list reason) :=
  last <- iloc_last ind_df ;;
  Ok (run_blocks blocks last).

Definition decision_from_score (score : Z) : string :=
  if score >=? 6 then "STRONG BUY"
  else if score >=? 3 then "BUY"
  else if score <=? -6 then "STRONG SELL"
  else if score <=? -3 then "SELL"
  else "HOLD / WAIT".

(** The dict returned by [run_technical_agent]. *)
Record analysis : Type := mkAnalysis {
  a_df : list row;
  a_score : Z;
  a_decision : string;
  a_reasons : list reason;
  a_last_close : float;
  a_atr14 : float
}.

Section Agent.

Variable ewm_mean : nat -> Series -> Series.
Variable sqrt : float -> float.

(** [download_data] wraps the market-data provider; what it returns for a
    symbol, a number of days and an interval is an input of the model. *)
Variable download_data : string -> Z -> string -> result (list bar).

Definition run_technical_agent (symbol style : string) (period : Z)
    (interval : string) (period_days : option Z) : result analysis :=
  let period := match period_days with Some p => p | None => period end in
  df_raw <- download_data symbol period interval ;;
  match df_raw with
  | [] => Raise (ValueError "Nessun dato scaricato")
  | _ =>
      let ind_df := compute_indicators ewm_mean sqrt df_raw in
      match ind_df with
      | [] => Raise (ValueError "Dati insufficienti dopo il calcolo degli indicatori. Aumenta il periodo.")
      | _ =>
          sr <- score_technical_indicators ind_df style ;;
          let '(score, reasons) := sr in
          let decision := decision_from_score score in
          last <- iloc_last ind_df ;;
          Ok (mkAnalysis ind_df score decision reasons (close last) (atr14 last))
      end
  end.

End Agent.

End TechnicalAgent.

(* ================================================================== *)
(** * config.py *)
(* ================================================================== *)

Module Config.
Import Py.

(** The attributes of the [config] module, read when a function runs. *)
Record t : Type := mk {
  ACCOUNT_SIZE : float;
  RISK_PER_TRADE_PCT : float;
  TECHNICAL_WEIGHT : float;
  NEWS_WEIGHT : float;
  COMPOSITE_STRONG_SIGNAL : float;
  COMPOSITE_VERY_STRONG_SIGNAL : float
}.

(** The values config.py ships. *)
Definition shipped : t :=
  mk (lit 10000.0) (lit 1.0) (lit 0.7) (lit 0.3) (lit 4.0) (lit 7.0).

End Config.

(* ================================================================== *)
(** * order_agent.py *)
(* ================================================================== *)

Module OrderAgent.
Import Py.
Local Open Scope float_scope.

(** [tech_analysis["indicators"]], as far as the function reads it. *)
Record indicators : Type := mkIndicators {
  last_price : float;
  ind_atr14 : float
}.

(** The [tech_analysis] dict. *)
Record tech_analysis : Type := mkTech {
  score : Z;
  decision : string;
  ind : indicators;
  reasons : list TechnicalAgent.reason
}.

(** The order dict. *)
Record order : Type := mkOrder {
  timestamp : string;
  symbol : string;
  name : string;
  category : string;
  side : string;
  entry : float;
  stop_loss : float;
  take_profit : float;
  reward_risk : float;
  technical_score : Z;
  technical_decision : string;
  composite_score : float;
  atr14 : float;
  position_size : float;
  notional : float;
  risk_amount : float;
  reason_short : TechnicalAgent.reason
}.

(** [_log_order]: one row appended to the order log. *)
Definition _log_order (o : order) (log : list order) : list order :=
  log ++ [o].

(** The ATR factor chosen by category. *)
Definition atr_mult_sl (category : string) : float :=
  if String.eqb category "CRYPTO" then lit 2.5
  else if String.eqb category "STOCK" then lit 1.8
  else lit 1.5.

(** [(stop_loss, take_profit)] for a side, an entry, a stop distance and a
    reward:risk factor. *)
Definition levels (side : string) (entry sl_distance reward_risk : float)
  : float * float :=
  if String.eqb side "LONG"
  then (entry - sl_distance, entry + sl_distance * reward_risk)
  else (entry + sl_distance, entry - sl_distance * reward_risk).

(** The side chosen from the two scores; [None] when the signal is not
    strong enough. *)
Definition choose_side (score : Z) (composite_score : float)
  : option string :=
  if (score >=? 4)%Z && (composite_score >=? Fin 4) then Some "LONG"%string
  else if (score <=? -4)%Z && (composite_score <=? fneg (Fin 4))
  then Some "SHORT"%string
  else None.

(** [build_order_from_analysis]; [cfg] is the [config] module, [now] the
    text of [datetime.utcnow().isoformat()], [log] the rows of
    orders_log.csv.  The result pairs the returned value ([None] or the
    order) with the log afterwards. *)
Definition build_order_from_analysis (cfg : Config.t) (now : string)
    (symbol name category : string) (ta : tech_analysis)
    (composite_score : float) (log : list order)
  : option order * list order :=
  let score := score ta in
  let decision := decision ta in
  let reasons := reasons ta in
  let last_price := last_price (ind ta) in
  let atr := ind_atr14 (ind ta) in
  if (atr <=? Fin 0) || (last_price <=? Fin 0) then (None, log)
  else
    match choose_side score composite_score with
    | None => (None, log)
    | Some side =>
        let sl_distance := atr * atr_mult_sl category in
        let reward_risk := lit 2.0 in
        let entry := last_price in
        let '(stop_loss, take_profit) :=
          levels side entry sl_distance reward_risk in
        if (stop_loss <=? Fin 0) || (take_profit <=? Fin 0) then (None, log)
        else
          let risk_amount :=
            Config.ACCOUNT_SIZE cfg
            * (Config.RISK_PER_TRADE_PCT cfg / lit 100.0) in
          let distance_to_sl := abs (entry - stop_loss) in
          if distance_to_sl <=? Fin 0 then (None, log)
          else
            let position_size := risk_amount / distance_to_sl in
            let notional := position_size * entry in
            let reason_short :=
              match reasons with
              | r :: _ => r
              | [] => TechnicalAgent.Text ("Decisione tecnica: " ++ decision)
              end in
            let order :=
              mkOrder now symbol name category side entry stop_loss
                      take_profit reward_risk score decision composite_score
                      atr position_size notional risk_amount reason_short in
            (Some order, _log_order order log)
    end.

End OrderAgent.

(* ================================================================== *)
(** * paper_trading.py *)
(* ================================================================== *)

Module PaperTrading.
Import Py.
Local Open Scope float_scope.

(** One row of paper_trades.csv (the columns of [COLUMNS]). *)
Record trade : Type := mkTrade {
  id : Z;
  symbol : string;
  side : string;
  style : string;
  lot : float;
  entry : float;
  stop_loss : float;
  take_profit : float;
  open_time : string;
  close_time : string;
  status : string;
  last_price : float;
  pnl : float;
  pnl_pct : float;
  risk_amount : float;
  gain_amount : float
}.

(** The trades file: absent, or its rows. *)
Definition file : Type := option (list trade).

(** [_ensure_file]: an absent file is created with the header only. *)
Definition _ensure_file (f : file) : file :=
  match f with
  | None => Some []
  | Some rows => Some rows
  end.

(** [load_trades]: the frame read and the file afterwards. *)
Definition load_trades (f : file) : list trade * file :=
  let f := _ensure_file f in
  (match f with Some rows => rows | None => [] end, f).

Definition save_trades (df : list trade) (f : file) : file := Some df.

(** [df["id"].max()]. *)
Definition max_id (df : list trade) : Z :=
  match df with
  | [] => 0
  | t :: rest => fold_left Z.max (map id rest) (id t)
  end.

(** [open_trade]; [now_iso] is [datetime.utcnow().isoformat()]. *)
Definition open_trade (now_iso : string) (symbol side style : string)
    (lot entry stop_loss take_profit capital : float) (f : file)
  : trade * file :=
  let '(df, f) := load_trades (_ensure_file f) in
  let new_id := match df with [] => 1%Z | _ => (max_id df + 1)%Z end in
  let side_u := upper side in
  let risk_per_unit := abs (entry - stop_loss) in
  let gain_per_unit :=
    if String.eqb side_u "LONG" then max (take_profit - entry) (Fin 0)
    else max (entry - take_profit) (Fin 0) in
  let risk_amount := risk_per_unit * lot in
  let gain_amount := gain_per_unit * lot in
  let row :=
    mkTrade new_id symbol side_u style lot entry stop_loss take_profit
            now_iso "" "OPEN" entry (Fin 0) (Fin 0) risk_amount gain_amount in
  let df := df ++ [row] in
  (row, save_trades df f).

(** Whether the loop of [update_trades_with_price] processes a row: it is
    selected by symbol and not skipped by the status test. *)
Definition processed (symbol : string) (row : trade) : bool :=
  String.eqb (PaperTrading.symbol row) symbol
  && String.eqb (upper (status row)) "OPEN".

(** The body of the loop for one processed row; [now] is the clock read
    when the row closes. *)
Definition update_row (last_price capital : float) (now : string)
    (row : trade) : trade :=
  let side := upper (PaperTrading.side row) in
  let entry := PaperTrading.entry row in
  let sl := PaperTrading.stop_loss row in
  let tp := PaperTrading.take_profit row in
  let lot := PaperTrading.lot row in
  let '(hit_tp, hit_sl, pnl) :=
    if String.eqb side "LONG"
    then (last_price >=? tp, last_price <=? sl, (last_price - entry) * lot)
    else (last_price <=? tp, last_price >=? sl, (entry - last_price) * lot) in
  let pnl_pct :=
    if capital >? Fin 0 then pnl / capital * lit 100.0 else Fin 0 in
  let closing := hit_tp || hit_sl in
  mkTrade (id row) (PaperTrading.symbol row) (PaperTrading.side row)
          (PaperTrading.style row) (PaperTrading.lot row)
          (PaperTrading.entry row) (PaperTrading.stop_loss row)
          (PaperTrading.take_profit row) (open_time row)
          (if closing then now else close_time row)
          (if closing then "CLOSED"%string else status row)
          last_price pnl pnl_pct (PaperTrading.risk_amount row)
          (PaperTrading.gain_amount row).

(** The loop over the frame, row [idx] first. *)
Fixpoint update_rows (symbol : string) (last_price capital : float)
    (utcnow : nat -> string) (idx : nat) (df : list trade) : list trade :=
  match df with
  | [] => []
  | row :: rest =>
      (if processed symbol row
       then update_row last_price capital (utcnow idx) row
       else row)
      :: update_rows symbol last_price capital utcnow (S idx) rest
  end.

(** [update_trades_with_price]; [utcnow idx] is the clock read while row
    [idx] is handled.  The result is the returned frame and the file
    afterwards. *)
Definition update_trades_with_price (utcnow : nat -> string)
    (symbol : string) (last_price capital : float) (f : file)
  : list trade * file :=
  let '(df, f) := load_trades (_ensure_file f) in
  match df with
  | [] => (df, f)
  | _ =>
      let changed := existsb (processed symbol) df in
      let df := update_rows symbol last_price capital utcnow 0 df in
      if changed then (df, save_trades df f) else (df, f)
  end.

End PaperTrading.

(* ================================================================== *)
(** * Sorting as the builtin [sorted] does: stable, by a comparison *)
(* ================================================================== *)

Module PySort.

Fixpoint insert {A : Type} (le : A -> A -> bool) (x : A) (l : list A)
  : list A :=
  match l with
  | [] => [x]
  | y :: t => if le x y then x :: y :: t else y :: insert le x t
  end.

(** Equal elements keep the order they had in [l]. *)
Definition sort {A : Type} (le : A -> A -> bool) (l : list A) : list A :=
  fold_right (insert le) [] l.

End PySort.

(* ================================================================== *)
(** * backtest.py *)
(* ================================================================== *)

Module Backtest.
Import Py.
Local Open Scope float_scope.

(** A calendar date, as its ordinal day. *)
Definition date : Type := Z.

(** A price frame: the index (dates) with the [Close] column. *)
Definition prices_df : Type := list (date * float).

(** One row of the signals frame; [returns] holds the columns
    [return_<h>d], keyed by [h]. *)
Record signal : Type := mkSignal {
  signal_date : date;
  symbol : string;
  category : string;
  macro_category : string;
  tech_decision : string;
  returns : list (Z * float)
}.

Definition HORIZONS : list Z := [1; 3; 5]%Z.

(** [float(df.loc[d, "Close"])]: one row labelled [d] gives its close;
    several rows give a Series, which [float] refuses. *)
Definition loc_close (df : prices_df) (d : date) : result float :=
  match filter (fun r => Z.eqb (fst r) d) df with
  | [r] => Ok (snd r)
  | [] => Raise (OtherError "KeyError")
  | _ => Raise TypeError
  end.

Definition get_future_price (df : prices_df) (signal_date : date)
    (horizon_days : Z) : result (float * float) :=
  match df with
  | [] => Ok (NaN, NaN)
  | _ =>
      let dates_sorted := PySort.sort Z.leb (map fst df) in
      let possible_entry_dates :=
        filter (fun d => (d >=? signal_date)%Z) dates_sorted in
      match possible_entry_dates with
      | [] => Ok (NaN, NaN)
      | entry_date :: _ =>
          price_entry <- loc_close df entry_date ;;
          let target := (signal_date + horizon_days)%Z in
          let possible_future_dates :=
            filter (fun d => (d >=? target)%Z) dates_sorted in
          match possible_future_dates with
          | [] => Ok (price_entry, NaN)
          | future_date :: _ =>
              price_future <- loc_close df future_date ;;
              Ok (price_entry, price_future)
          end
      end
  end.

(** [signals[col] = v] on every row and [signals.at[idx, col] = v]. *)
Fixpoint set_col (h : Z) (v : float) (cols : list (Z * float))
  : list (Z * float) :=
  match cols with
  | [] => [(h, v)]
  | (k, w) :: rest =>
      if Z.eqb k h then (k, v) :: rest else (k, w) :: set_col h v rest
  end.

Definition set_return (h : Z) (v : float) (s : signal) : signal :=
  mkSignal (signal_date s) (symbol s) (category s) (macro_category s)
           (tech_decision s) (set_col h v (returns s)).

(** [row[col]]; the columns exist once they are initialised. *)
Definition get_return (h : Z) (s : signal) : float :=
  match find (fun c => Z.eqb (fst c) h) (returns s) with
  | Some c => snd c
  | None => NaN
  end.

(** [sym in prices] and [prices[sym]]. *)
Definition lookup_prices (prices : list (string * prices_df)) (sym : string)
  : option prices_df :=
  option_map snd (find (fun p => String.eqb (fst p) sym) prices).

(** The inner loop over the horizons for one signal; the two prices are
    builtin floats, so an entry price of zero raises. *)
Fixpoint fill_returns (df_price : prices_df) (horizons : list Z) (s : signal)
  : result signal :=
  match horizons with
  | [] => Ok s
  | h :: rest =>
      pp <- get_future_price df_price (signal_date s) h ;;
      let '(price_entry, price_future) := pp in
      if is_nan price_entry || is_nan price_future
      then fill_returns df_price rest s
      else
        q <- truediv (price_future - price_entry) price_entry ;;
        let ret := q * lit 100.0 in
        fill_returns df_price rest (set_return h ret s)
  end.

(** The outer loop over the signals. *)
Fixpoint forward_rows (prices : list (string * prices_df)) (horizons : list Z)
    (signals : list signal) : result (list signal) :=
  match signals with
  | [] => Ok []
  | row :: rest =>
      row' <- match lookup_prices prices (symbol row) with
              | None => Ok row
              | Some df_price => fill_returns df_price horizons row
              end ;;
      rest' <- forward_rows prices horizons rest ;;
      Ok (row' :: rest')
  end.

Definition compute_forward_returns (signals : list signal)
    (prices : list (string * prices_df)) (horizons : list Z)
  : result (list signal) :=
  let signals :=
    fold_left (fun sigs h => map (set_return h NaN) sigs) horizons signals in
  forward_rows prices horizons signals.

(** [df_dec[col].dropna()] inside [summarize_by_decision]: the defined
    returns at horizon [h] of the signals whose decision is [dec]. *)
Definition valid (signals : list signal) (dec : string) (h : Z)
  : list float :=
  filter (fun x => negb (is_nan x))
         (map (get_return h)
              (filter (fun s => String.eqb (tech_decision s) dec) signals)).

(** [Series.median()] of NaN-free values. *)
Definition median (v : list float) : float :=
  let s := PySort.sort fle v in
  let n := length v in
  if Nat.even n
  then (nth (n / 2 - 1) s NaN + nth (n / 2) s NaN) / Fin 2
  else nth (n / 2) s NaN.

(** What one line of the summary reports. *)
Record stats : Type := mkStats {
  mean_ret : float;
  median_ret : float;
  winrate : float;
  n_valid : nat
}.

(** The statistics [summarize_by_decision] reports for a decision and a
    horizon.  The source loops over the decisions that occur among the
    signals: for such a decision [None] is the line "nessun dato valido";
    for a decision no signal has, no line is printed at all. *)
Definition summary_line (signals : list signal) (dec : string) (h : Z)
  : option stats :=
  let v := valid signals dec h in
  match v with
  | [] => None
  | _ =>
      Some (mkStats (Pandas.mean v) (median v)
                    (Pandas.mean
                       (map (fun x => if x >? Fin 0 then Fin 1 else Fin 0) v)
                     * lit 100.0)
                    (length v))
  end.

(** [to_macro_category] (also in advisor_agent.py) for a [str] argument. *)
Definition to_macro_category (cat : string) : string :=
  let cu := upper cat in
  if startswith cu "CRYPTO" then "CRYPTO"
  else if startswith cu "STOCK" then "STOCK"
  else if startswith cu "ETF" then "ETF"
  else "OTHER".

End Backtest.

(* ================================================================== *)
(** * ensemble_manager.py *)
(* ================================================================== *)

Module EnsembleManager.
Import Py.
Local Open Scope float_scope.

Definition TECH_WEIGHT : float := lit 1.0.
Definition NEWS_WEIGHT : float := lit 0.0.

(** An entry of [ALL_ASSETS]; [name] and [category] may be missing. *)
Record asset : Type := mkAsset {
  asset_symbol : string;
  asset_name : option string;
  asset_category : option string
}.

(** The dict returned by [analyze_one]. *)
Record entry : Type := mkEntry {
  symbol : string;
  name : string;
  category : string;
  tech_score : Z;
  tech_decision : string;
  tech_reasons : list TechnicalAgent.reason;
  news_score : float;
  news_titles : list string;
  ensemble_score : float
}.

Section Ensemble.

Variable ewm_mean : nat -> Pandas.Series -> Pandas.Series.
Variable sqrt : float -> float.
Variable download_data : string -> Z -> string -> result (list TechnicalAgent.bar).

Definition analyze_one (a : asset) : entry :=
  let symbol := asset_symbol a in
  let name := match asset_name a with Some n => n | None => symbol end in
  let category :=
    match asset_category a with Some c => c | None => "UNKNOWN"%string end in
  let news_score := lit 0.0 in
  let news_titles := [] in
  let '(tech_score, tech_decision, tech_reasons) :=
    match TechnicalAgent.run_technical_agent ewm_mean sqrt download_data
            symbol "Position" 365 "1d" None with
    | Ok result =>
        (TechnicalAgent.a_score result, TechnicalAgent.a_decision result,
         TechnicalAgent.a_reasons result)
    | Raise _ => (0%Z, "N/A"%string, [])
    end in
  let ensemble_score :=
    TECH_WEIGHT * of_int tech_score + NEWS_WEIGHT * news_score in
  mkEntry symbol name category tech_score tech_decision tech_reasons
          news_score news_titles ensemble_score.

End Ensemble.

(** The two lists [print_rankings] prints. *)
Definition buy_like (results : list entry) : list entry :=
  firstn 15
    (PySort.sort (fun r1 r2 => ensemble_score r1 >=? ensemble_score r2)
       (filter (fun r => String.eqb (tech_decision r) "BUY"
                         || String.eqb (tech_decision r) "STRONG BUY")
               results)).

Definition sell_like (results : list entry) : list entry :=
  firstn 15
    (PySort.sort (fun r1 r2 => ensemble_score r1 <=? ensemble_score r2)
       (filter (fun r => String.eqb (tech_decision r) "SELL"
                         || String.eqb (tech_decision r) "STRONG SELL")
               results)).

End EnsembleManager.

(* ================================================================== *)
(** * app.py: the risk helpers of the dashboard *)
(* ================================================================== *)

Module App.
Import Py.
Local Open Scope float_scope.

Definition compute_sl_tp (last_close atr : float) (direction style : string)
  : float * float * float :=
  let direction := upper direction in
  let style := lower style in
  let '(m_sl, m_tp) :=
    if String.eqb style "scalping" then (lit 1.0, lit 1.5)
    else if String.eqb style "position" then (lit 2.0, lit 4.0)
    else (lit 1.5, lit 3.0) in
  let entry := last_close in
  let '(stop, take_profit) :=
    if String.eqb direction "LONG"
    then (last_close - m_sl * atr, last_close + m_tp * atr)
    else (last_close + m_sl * atr, last_close - m_tp * atr) in
  (entry, stop, take_profit).

(** The dict returned by [compute_position_size]. *)
Record sizing : Type := mkSizing {
  size : float;
  risk_amount : float;
  risk_pct : float;
  gain_amount : float;
  gain_pct : float;
  margin_required : float
}.

Definition compute_position_size
    (capital risk_pct entry stop take_profit leverage : float)
    (direction : string) : sizing :=
  let direction := upper direction in
  let risk_amount := capital * (risk_pct / lit 100.0) in
  let '(per_unit_loss, per_unit_gain) :=
    if String.eqb direction "LONG"
    then (entry - stop, take_profit - entry)
    else (stop - entry, entry - take_profit) in
  let per_unit_loss := abs per_unit_loss in
  let per_unit_gain := max per_unit_gain (Fin 0) in
  if per_unit_loss <=? Fin 0 then
    mkSizing (Fin 0) risk_amount risk_pct (Fin 0) (Fin 0) (Fin 0)
  else
    let size := risk_amount / per_unit_loss in
    let margin_required :=
      if leverage >? Fin 0 then entry * size / leverage else Fin 0 in
    let gain_amount := per_unit_gain * size in
    let gain_pct :=
      if capital >? Fin 0 then gain_amount / capital * lit 100.0 else Fin 0 in
    mkSizing size risk_amount risk_pct gain_amount gain_pct margin_required.

End App.

(* ================================================================== *)
(** * Vocabulary of the specification *)
(* ================================================================== *)

Module Spec.
Import Py TechnicalAgent.
Local Open Scope Z_scope.

(** The five decisions in increasing order of bullishness. *)
Definition decision_rank (d : string) : Z :=
  if String.eqb d "STRONG SELL" then -2
  else if String.eqb d "SELL" then -1
  else if String.eqb d "BUY" then 1
  else if String.eqb d "STRONG BUY" then 2
  else 0.

(** The coarse order: sell side below hold below buy side. *)
Definition decision_side (d : string) : Z := Z.sgn (decision_rank d).

(** The six rule deltas, as the specification words them. *)
Definition delta_rsi (r : row) : Z :=
  if (rsi14 r >? Fin 70)%fl then -1
  else if (rsi14 r <? Fin 30)%fl then 1 else 0.

Definition above_both (c a b : float) : bool := ((c >? a) && (c >? b))%fl.
Definition below_both (c a b : float) : bool := ((c <? a) && (c <? b))%fl.

Definition delta_short_trend (r : row) : Z :=
  if above_both (close r) (ema20 r) (ema50 r) then 1
  else if below_both (close r) (ema20 r) (ema50 r) then -1 else 0.

Definition delta_long_trend (r : row) : Z :=
  if above_both (close r) (ema200 r) (sma200 r) then 2
  else if below_both (close r) (ema200 r) (sma200 r) then -2 else 0.

Definition delta_macd (r : row) : Z :=
  if (macd r >? macd_signal r)%fl then 1 else -1.

Definition delta_bollinger (r : row) : Z :=
  if (close r <? bb_lower r)%fl then 1
  else if (close r >? bb_upper r)%fl then -1 else 0.

Definition delta_ichimoku (r : row) : Z :=
  if (close r >? max (ichimoku_span_a r) (ichimoku_span_b r))%fl then 1
  else if (close r <? min (ichimoku_span_a r) (ichimoku_span_b r))%fl then -1
  else 0.

Definition total_delta (r : row) : Z :=
  delta_rsi r + delta_short_trend r + delta_long_trend r + delta_macd r
  + delta_bollinger r + delta_ichimoku r.

(** What one block adds to the score and to the reasons, read off a run
    from the empty pair. *)
Definition block_delta (b : row -> scoring -> scoring) (last : row) : Z :=
  fst (b last (0, [])).
Definition block_reasons (b : row -> scoring -> scoring) (last : row)
  : list reason :=
  snd (b last (0, [])).

(** A block is additive when it adds a fixed delta and appends fixed
    reasons, whatever the running pair. *)
Definition additive (last : row) (b : row -> scoring -> scoring) : Prop :=
  forall (s : Z) (rs : list reason),
    b last (s, rs) = (s + block_delta b last, rs ++ block_reasons b last).

(** The close trigger on one price observation: for LONG the price is at or
    above the target or at or below the stop, for SHORT the reverse. *)
Definition reaches_stop_or_target (row : PaperTrading.trade) (price : float)
  : bool :=
  if String.eqb (upper (PaperTrading.side row)) "LONG"
  then ((price >=? PaperTrading.take_profit row)
        || (price <=? PaperTrading.stop_loss row))%fl
  else ((price <=? PaperTrading.take_profit row)
        || (price >=? PaperTrading.stop_loss row))%fl.

(** One call of [update_trades_with_price], as a price observation. *)
Record observation : Type := mkObservation {
  obs_clock : nat -> string;
  obs_symbol : string;
  obs_price : float;
  obs_capital : float
}.

(** A sequence of calls, each reading the file the previous one left. *)
Definition observe (f : PaperTrading.file) (o : observation)
  : PaperTrading.file :=
  snd (PaperTrading.update_trades_with_price
         (obs_clock o) (obs_symbol o) (obs_price o) (obs_capital o) f).
Definition observe_all (os : list observation) (f : PaperTrading.file)
  : PaperTrading.file :=
  fold_left observe os f.

(** The rows of a trades file. *)
Definition rows_of (f : PaperTrading.file) : list PaperTrading.trade :=
  match f with Some rows => rows | None => [] end.

(** Ranges of intermediate RSI values: NaN is the undefined value. *)
Definition nonneg_or_nan (x : float) : Prop :=
  match x with NaN | PInf => True | NInf => False | Fin q => (0 <= q)%Q end.
Definition positive_or_nan (x : float) : Prop :=
  match x with NaN | PInf => True | NInf => False | Fin q => (0 < q)%Q end.
Definition in_0_100_or_nan (x : float) : Prop :=
  match x with NaN => True | Fin q => (0 <= q <= 100)%Q | _ => False end.

(** The first bar of a price frame on or after a date: its date [d] and
    close [c]; and the absence of any such bar. *)
Definition first_bar_on_or_after (df : Backtest.prices_df)
    (t d : Backtest.date) (c : float) : Prop :=
  In (d, c) df /\ t <= d
  /\ forall d', In d' (map fst df) -> t <= d' -> d <= d'.
Definition no_bar_on_or_after (df : Backtest.prices_df) (t : Backtest.date)
  : Prop :=
  forall d', In d' (map fst df) -> d' < t.

(** Two rows of the signals frame that differ at most in their returns. *)
Definition same_signal (s s' : Backtest.signal) : Prop :=
  Backtest.signal_date s' = Backtest.signal_date s
  /\ Backtest.symbol s' = Backtest.symbol s
  /\ Backtest.category s' = Backtest.category s
  /\ Backtest.macro_category s' = Backtest.macro_category s
  /\ Backtest.tech_decision s' = Backtest.tech_decision s.

(** A signal lacks a bar for a horizon: its symbol has no price frame, or
    the frame has no bar on or after the signal date, or none on or after
    the signal date plus the horizon. *)
Definition bar_missing (prices : list (string * Backtest.prices_df))
    (s : Backtest.signal) (h : Z) : Prop :=
  match Backtest.lookup_prices prices (Backtest.symbol s) with
  | None => True
  | Some df =>
      no_bar_on_or_after df (Backtest.signal_date s)
      \/ no_bar_on_or_after df (Backtest.signal_date s + h)
  end.

(** The two rankings of [print_rankings], ordered by the technical score
    instead of the ensemble score. *)
Definition buy_like_by_tech (results : list EnsembleManager.entry)
  : list EnsembleManager.entry :=
  firstn 15
    (PySort.sort
       (fun r1 r2 => (of_int (EnsembleManager.tech_score r1)
                      >=? of_int (EnsembleManager.tech_score r2))%fl)
       (filter (fun r => String.eqb (EnsembleManager.tech_decision r) "BUY"
                         || String.eqb (EnsembleManager.tech_decision r)
                                       "STRONG BUY")
               results)).
Definition sell_like_by_tech (results : list EnsembleManager.entry)
  : list EnsembleManager.entry :=
  firstn 15
    (PySort.sort
       (fun r1 r2 => (of_int (EnsembleManager.tech_score r1)
                      <=? of_int (EnsembleManager.tech_score r2))%fl)
       (filter (fun r => String.eqb (EnsembleManager.tech_decision r) "SELL"
                         || String.eqb (EnsembleManager.tech_decision r)
                                       "STRONG SELL")
               results)).

(** A candle whose low does not exceed its high. *)
Definition well_formed (b : bar) : Prop := (Low b <=? High b)%fl = true.

(** Text made of ASCII characters, on which [upper] and [lower] are
    [str.upper] and [str.lower]. *)
Definition is_ascii (s : string) : Prop :=
  Forall (fun c => (nat_of_ascii c < 128)%nat) (list_ascii_of_string s).

(** The number of strictly positive values. *)
Definition wins (v : list float) : nat :=
  length (filter (fun x => (x >? Fin 0)%fl) v).

(** The two selections of [print_rankings]. *)
Definition is_buy (r : EnsembleManager.entry) : bool :=
  String.eqb (EnsembleManager.tech_decision r) "BUY"
  || String.eqb (EnsembleManager.tech_decision r) "STRONG BUY".
Definition is_sell (r : EnsembleManager.entry) : bool :=
  String.eqb (EnsembleManager.tech_decision r) "SELL"
  || String.eqb (EnsembleManager.tech_decision r) "STRONG SELL".

End Spec.

(* ================================================================== *)
(** * Properties of the scoring and decision engine *)
(* ================================================================== *)

Section Decision.
Import Py TechnicalAgent Spec.
Local Open Scope Z_scope.

Lemma decision_from_score_cases (score : Z) :
  (6 <= score /\ decision_from_score score = "STRONG BUY"%string)
  \/ (3 <= score <= 5 /\ decision_from_score score = "BUY"%string)
  \/ (score <= -6 /\ decision_from_score score = "STRONG SELL"%string)
  \/ (-6 < score <= -3 /\ decision_from_score score = "SELL"%string)
  \/ (-3 < score < 3 /\ decision_from_score score = "HOLD / WAIT"%string).
Proof.
  unfold decision_from_score.
  destruct (Z.geb_spec score 6) as [H6 | H6]; [left; split; [lia | reflexivity] |].
  destruct (Z.geb_spec score 3) as [H3 | H3];
    [right; left; split; [lia | reflexivity] |].
  destruct (Z.leb_spec score (-6)) as [L6 | L6];
    [right; right; left; split; [lia | reflexivity] |].
  destruct (Z.leb_spec score (-3)) as [L3 | L3];
    [right; right; right; left; split; [lia | reflexivity] |].
  right; right; right; right; split; [lia | reflexivity].
Qed.

Lemma decision_rank_monotone (s1 s2 : Z) :
  s1 <= s2 ->
  decision_rank (decision_from_score s1) <= decision_rank (decision_from_score s2).
Proof.
  intro Hle.
  destruct (decision_from_score_cases s1) as [[H1 E1] | [[H1 E1] | [[H1 E1] | [[H1 E1] | [H1 E1]]]]];
  destruct (decision_from_score_cases s2) as [[H2 E2] | [[H2 E2] | [[H2 E2] | [[H2 E2] | [H2 E2]]]]];
  rewrite E1, E2; cbn; lia.
Qed.

(** C1. [decision_from_score] is a total function of the score alone, with
    the five bands STRONG BUY (score >= 6), BUY (3..5), STRONG SELL
    (score <= -6), SELL (-5..-3) and HOLD / WAIT (-2..2); it is monotone in
    the score, for the five-level order and for the coarse order sell side <
    hold < buy side; and the five sample scores map as stated. *)
Theorem decision_from_score_bands : forall score : Z,
  (6 <= score -> decision_from_score score = "STRONG BUY"%string)
  /\ (3 <= score <= 5 -> decision_from_score score = "BUY"%string)
  /\ (score <= -6 -> decision_from_score score = "STRONG SELL"%string)
  /\ (-6 < score <= -3 -> decision_from_score score = "SELL"%string)
  /\ (-3 < score < 3 -> decision_from_score score = "HOLD / WAIT"%string)
  /\ (forall score' : Z, score <= score' ->
        decision_rank (decision_from_score score)
        <= decision_rank (decision_from_score score')
        /\ decision_side (decision_from_score score)
           <= decision_side (decision_from_score score'))
  /\ decision_from_score 6 = "STRONG BUY"%string
  /\ decision_from_score 5 = "BUY"%string
  /\ decision_from_score 0 = "HOLD / WAIT"%string
  /\ decision_from_score (-3) = "SELL"%string
  /\ decision_from_score (-7) = "STRONG SELL"%string.
Proof.
  intro score.
  pose proof (decision_from_score_cases score) as Hc.
  repeat split; try reflexivity.
  - intro H; destruct Hc as [[? E] | [[? E] | [[? E] | [[? E] | [? E]]]]];
      (exact E || lia).
  - intro H; destruct Hc as [[? E] | [[? E] | [[? E] | [[? E] | [? E]]]]];
      (exact E || lia).
  - intro H; destruct Hc as [[? E] | [[? E] | [[? E] | [[? E] | [? E]]]]];
      (exact E || lia).
  - intro H; destruct Hc as [[? E] | [[? E] | [[? E] | [[? E] | [? E]]]]];
      (exact E || lia).
  - intro H; destruct Hc as [[? E] | [[? E] | [[? E] | [[? E] | [? E]]]]];
      (exact E || lia).
  - now apply decision_rank_monotone.
  - unfold decision_side.
    pose proof (decision_rank_monotone H) as Hm.
    destruct (decision_rank (decision_from_score score)),
             (decision_rank (decision_from_score score')); cbn; lia.
Qed.

End Decision.

Section Scoring.
Import Py TechnicalAgent Spec.
Local Open Scope Z_scope.

Ltac additive_block :=
  intros s rs; unfold block_delta, block_reasons;
  repeat match goal with
         | |- context [if ?c then _ else _] => destruct c
         end;
  cbn; f_equal; lia.

Lemma block_rsi_additive last : additive last block_rsi.
Proof. unfold additive, block_rsi. additive_block. Qed.

Lemma block_short_trend_additive last : additive last block_short_trend.
Proof. unfold additive, block_short_trend. additive_block. Qed.

Lemma block_long_trend_additive last : additive last block_long_trend.
Proof. unfold additive, block_long_trend. additive_block. Qed.

Lemma block_macd_additive last : additive last block_macd.
Proof. unfold additive, block_macd. additive_block. Qed.

Lemma block_bollinger_additive last : additive last block_bollinger.
Proof.
  unfold additive, block_bollinger. intros s rs.
  unfold block_delta, block_reasons.
  destruct (close last <? bb_lower last)%fl;
    [| destruct (close last >? bb_upper last)%fl];
    cbn; rewrite ?app_nil_r; f_equal; lia.
Qed.

Lemma block_adx_additive last : additive last block_adx.
Proof. unfold additive, block_adx. additive_block. Qed.

Lemma block_ichimoku_additive last : additive last block_ichimoku.
Proof. unfold additive, block_ichimoku. additive_block. Qed.

Lemma block_kijun_additive last : additive last block_kijun.
Proof. unfold additive, block_kijun. additive_block. Qed.

Lemma blocks_additive last : Forall (additive last) blocks.
Proof.
  unfold blocks.
  repeat constructor;
    auto using block_rsi_additive, block_short_trend_additive,
      block_long_trend_additive, block_macd_additive,
      block_bollinger_additive, block_adx_additive,
      block_ichimoku_additive, block_kijun_additive.
Qed.

(** Running additive blocks adds up their deltas and concatenates their
    reasons in running order. *)
Lemma fold_additive last bs :
  Forall (additive last) bs ->
  forall s rs,
    fold_left (fun st b => b last st) bs (s, rs)
    = (s + fold_right Z.add 0 (map (fun b => block_delta b last) bs),
       rs ++ flat_map (fun b => block_reasons b last) bs).
Proof.
  induction 1 as [| b bs Hb _ IH]; intros s rs; cbn.
  - now rewrite Z.add_0_r, app_nil_r.
  - rewrite Hb, IH, <- app_assoc. f_equal. lia.
Qed.

Lemma sum_deltas_permutation (l1 l2 : list Z) :
  Permutation l1 l2 -> fold_right Z.add 0 l1 = fold_right Z.add 0 l2.
Proof. induction 1; cbn; lia. Qed.

Lemma iloc_last_snoc (rows : list row) (last : row) :
  iloc_last (rows ++ [last]) = Ok last.
Proof. unfold iloc_last. now rewrite rev_app_distr. Qed.

Lemma block_delta_rsi last : block_delta block_rsi last = delta_rsi last.
Proof.
  unfold block_delta, block_rsi, delta_rsi.
  destruct (rsi14 last >? Fin 70)%fl; [reflexivity |].
  destruct (rsi14 last <? Fin 30)%fl; reflexivity.
Qed.

Lemma block_delta_short_trend last :
  block_delta block_short_trend last = delta_short_trend last.
Proof.
  unfold block_delta, block_short_trend, delta_short_trend, above_both,
    below_both.
  destruct ((close last >? ema20 last)%fl && (close last >? ema50 last)%fl);
    [reflexivity |].
  destruct ((close last <? ema20 last)%fl && (close last <? ema50 last)%fl);
    reflexivity.
Qed.

Lemma block_delta_long_trend last :
  block_delta block_long_trend last = delta_long_trend last.
Proof.
  unfold block_delta, block_long_trend, delta_long_trend, above_both,
    below_both.
  destruct ((close last >? ema200 last)%fl && (close last >? sma200 last)%fl);
    [reflexivity |].
  destruct ((close last <? ema200 last)%fl && (close last <? sma200 last)%fl);
    reflexivity.
Qed.

Lemma block_delta_macd last : block_delta block_macd last = delta_macd last.
Proof.
  unfold block_delta, block_macd, delta_macd.
  destruct (macd last >? macd_signal last)%fl; reflexivity.
Qed.

Lemma block_delta_bollinger last :
  block_delta block_bollinger last = delta_bollinger last.
Proof.
  unfold block_delta, block_bollinger, delta_bollinger.
  destruct (close last <? bb_lower last)%fl; [reflexivity |].
  destruct (close last >? bb_upper last)%fl; reflexivity.
Qed.

Lemma block_delta_ichimoku last :
  block_delta block_ichimoku last = delta_ichimoku last.
Proof.
  unfold block_delta, block_ichimoku, delta_ichimoku.
  destruct (close last >? max (ichimoku_span_a last) (ichimoku_span_b last))%fl;
    [reflexivity |].
  destruct (close last <? min (ichimoku_span_a last) (ichimoku_span_b last))%fl;
    reflexivity.
Qed.

Lemma block_adx_keeps_score last st : fst (block_adx last st) = fst st.
Proof.
  destruct st as [s rs]. unfold block_adx.
  destruct (adx14 last <? Fin 20)%fl; [reflexivity |].
  destruct (adx14 last <? Fin 30)%fl; reflexivity.
Qed.

Lemma block_kijun_keeps_score last st : fst (block_kijun last st) = fst st.
Proof.
  destruct st as [s rs]. unfold block_kijun.
  destruct (close last >? ichimoku_kijun last)%fl; reflexivity.
Qed.

Lemma block_adx_appends last st :
  exists txt,
    block_adx last st = (fst st, snd st ++ [Fmt1 "ADX " (adx14 last) txt]).
Proof.
  destruct st as [s rs]. unfold block_adx. cbn [fst snd].
  destruct (adx14 last <? Fin 20)%fl; [eexists; reflexivity |].
  destruct (adx14 last <? Fin 30)%fl; eexists; reflexivity.
Qed.

Lemma block_kijun_appends last st :
  exists txt, block_kijun last st = (fst st, snd st ++ [Text txt]).
Proof.
  destruct st as [s rs]. unfold block_kijun. cbn [fst snd].
  destruct (close last >? ichimoku_kijun last)%fl; eexists; reflexivity.
Qed.

Lemma block_deltas_total last :
  fold_right Z.add 0 (map (fun b => block_delta b last) blocks)
  = total_delta last.
Proof.
  unfold blocks. cbn [map fold_right].
  rewrite block_delta_rsi, block_delta_short_trend, block_delta_long_trend,
    block_delta_macd, block_delta_bollinger, block_delta_ichimoku.
  unfold block_delta at 1 2.
  rewrite block_adx_keeps_score, block_kijun_keeps_score. cbn [fst].
  unfold total_delta. lia.
Qed.

(** C2. The score returned for a frame whose last row is [last] is the sum
    of the six rule deltas of that row; the RSI, short-trend, long-trend,
    MACD, Bollinger and Ichimoku blocks contribute exactly those deltas; the
    ADX and kijun blocks leave the score as it is and each appends exactly
    one reason to the reasons it is given, the ADX block one that renders
    the ADX value and the kijun block a fixed text; the reasons returned are
    those of the eight blocks in source order; and running the eight blocks
    in any other order gives the same score and the same reasons up to
    their order.  An empty frame has no last row to score. *)
Theorem score_is_sum_of_rule_deltas :
  forall (rows : list row) (last : row) (style : string),
    score_technical_indicators (rows ++ [last]) style
    = Ok (total_delta last, snd (run_blocks blocks last))
    /\ block_delta block_rsi last = delta_rsi last
    /\ block_delta block_short_trend last = delta_short_trend last
    /\ block_delta block_long_trend last = delta_long_trend last
    /\ block_delta block_macd last = delta_macd last
    /\ block_delta block_bollinger last = delta_bollinger last
    /\ block_delta block_ichimoku last = delta_ichimoku last
    /\ (delta_macd last = 1 \/ delta_macd last = -1)
    /\ (forall st, fst (block_adx last st) = fst st)
    /\ (forall st, fst (block_kijun last st) = fst st)
    /\ (forall st, exists txt,
           block_adx last st
           = (fst st, snd st ++ [Fmt1 "ADX " (adx14 last) txt]))
    /\ (forall st, exists txt,
           block_kijun last st = (fst st, snd st ++ [Text txt]))
    /\ snd (run_blocks blocks last)
       = block_reasons block_rsi last ++ block_reasons block_short_trend last
         ++ block_reasons block_long_trend last ++ block_reasons block_macd last
         ++ block_reasons block_bollinger last ++ block_reasons block_adx last
         ++ block_reasons block_ichimoku last ++ block_reasons block_kijun last
    /\ (forall bs, Permutation bs blocks ->
          fst (run_blocks bs last) = total_delta last
          /\ Permutation (snd (run_blocks bs last))
                         (snd (run_blocks blocks last)))
    /\ score_technical_indicators [] style = Raise IndexError.
Proof.
  intros rows last style.
  assert (Hrun : forall bs, Permutation bs blocks ->
            run_blocks bs last
            = (fold_right Z.add 0 (map (fun b => block_delta b last) bs),
               flat_map (fun b => block_reasons b last) bs)).
  { intros bs Hp. unfold run_blocks. rewrite fold_additive.
    - reflexivity.
    - apply Forall_forall. intros b Hb.
      pose proof (blocks_additive last) as Ha.
      rewrite Forall_forall in Ha. apply Ha.
      eapply Permutation_in; eassumption. }
  repeat split.
  - unfold score_technical_indicators. rewrite iloc_last_snoc. cbn [bind].
    rewrite (surjective_pairing (run_blocks blocks last)).
    rewrite (Hrun blocks (Permutation_refl _)) at 1. cbn [fst].
    now rewrite block_deltas_total.
  - apply block_delta_rsi.
  - apply block_delta_short_trend.
  - apply block_delta_long_trend.
  - apply block_delta_macd.
  - apply block_delta_bollinger.
  - apply block_delta_ichimoku.
  - unfold delta_macd. destruct (macd last >? macd_signal last)%fl; auto.
  - apply block_adx_keeps_score.
  - apply block_kijun_keeps_score.
  - apply block_adx_appends.
  - apply block_kijun_appends.
  - rewrite (Hrun blocks (Permutation_refl _)). cbn [snd].
    unfold blocks. cbn [flat_map]. now rewrite app_nil_r.
  - rewrite (Hrun bs H). cbn [fst].
    rewrite <- block_deltas_total.
    apply sum_deltas_permutation. now apply Permutation_map.
  - rewrite (Hrun bs H), (Hrun blocks (Permutation_refl _)). cbn [snd].
    now apply Permutation_flat_map.
Qed.

End Scoring.

(* ================================================================== *)
(** * Facts about the float model *)
(* ================================================================== *)

Section FloatFacts.
Import Py.
Local Open Scope Q_scope.

Lemma flt_Fin (a b : Q) : flt (Fin a) (Fin b) = true <-> a < b.
Proof.
  unfold flt, fcmp. destruct (Qcompare_spec a b) as [H | H | H];
    split; intro H'; try discriminate; try reflexivity; try assumption.
  - rewrite H in H'. now apply Qlt_irrefl in H'.
  - exfalso. apply (Qlt_irrefl a). now apply Qlt_trans with b.
Qed.

Lemma fle_Fin (a b : Q) : fle (Fin a) (Fin b) = true <-> a <= b.
Proof.
  unfold fle, fcmp. destruct (Qcompare_spec a b) as [H | H | H];
    split; intro H'; try discriminate; try reflexivity.
  - rewrite H. apply Qle_refl.
  - now apply Qlt_le_weak.
  - exfalso. apply (Qlt_irrefl a). now apply Qle_lt_trans with b.
Qed.

Lemma feq_Fin (a b : Q) : feq (Fin a) (Fin b) = true <-> a == b.
Proof.
  unfold feq, fcmp. destruct (Qcompare_spec a b) as [H | H | H];
    split; intro H'; try discriminate; try reflexivity; try assumption.
  - rewrite H' in H. now apply Qlt_irrefl in H.
  - rewrite H' in H. now apply Qlt_irrefl in H.
Qed.

Lemma fle_Fin_false (a b : Q) : fle (Fin a) (Fin b) = false -> b < a.
Proof.
  intro H. apply Qnot_le_lt. intro Hle. apply fle_Fin in Hle. congruence.
Qed.

Lemma fgt_Fin (a b : Q) : fgt (Fin a) (Fin b) = true <-> b < a.
Proof. unfold fgt. apply flt_Fin. Qed.

Lemma fge_Fin (a b : Q) : fge (Fin a) (Fin b) = true <-> b <= a.
Proof. unfold fge. apply fle_Fin. Qed.

(** Equal rationals give the same float once reduced. *)
Lemma Fin_Qred_eq (a b : Q) : a == b -> Fin (Qred a) = Fin (Qred b).
Proof. intro H. f_equal. now apply Qred_complete. Qed.

Lemma Qred_inject_Z (z : Z) : Qred (inject_Z z) = inject_Z z.
Proof.
  unfold inject_Z, Qred.
  pose proof (Z.ggcd_gcd z 1) as Hg.
  pose proof (Z.ggcd_correct_divisors z 1) as Hd.
  destruct (Z.ggcd z 1) as [g [n d]]. cbn in *.
  rewrite Z.gcd_1_r in Hg. subst g.
  destruct Hd as [Hn Hd'].
  assert (Hz : z = n) by lia. assert (H1 : d = 1%Z) by lia.
  rewrite Hz, H1. reflexivity.
Qed.

(** Comparisons involving NaN are false. *)
Lemma fle_NaN_l (x : float) : fle NaN x = false.
Proof. reflexivity. Qed.

Lemma fle_NaN_r (x : float) : fle x NaN = false.
Proof. now destruct x. Qed.

Lemma flt_NaN_r (x : float) : flt x NaN = false.
Proof. now destruct x. Qed.

End FloatFacts.

(* ================================================================== *)
(** * Properties of the order constructor *)
(* ================================================================== *)

Section Orders.
Import Py OrderAgent.
Local Open Scope float_scope.

Lemma choose_side_cases (score : Z) (composite_score : float) :
  (choose_side score composite_score = Some "LONG"%string
   /\ (4 <= score)%Z /\ (composite_score >=? Fin 4) = true)
  \/ (choose_side score composite_score = Some "SHORT"%string
      /\ (score <= -4)%Z /\ (composite_score <=? fneg (Fin 4)) = true)
  \/ (choose_side score composite_score = None
      /\ ~ ((4 <= score)%Z /\ (composite_score >=? Fin 4) = true)
      /\ ~ ((score <= -4)%Z /\ (composite_score <=? fneg (Fin 4)) = true)).
Proof.
  unfold choose_side.
  destruct (Z.geb_spec score 4) as [H4 | H4];
    destruct (composite_score >=? Fin 4) eqn:Hc; cbn [andb].
  - left. repeat split; auto.
  - destruct (Z.leb_spec score (-4)); [lia |]. cbn [andb].
    right; right. repeat split; intros [? ?]; (discriminate || lia).
  - destruct (Z.leb_spec score (-4)) as [L4 | L4];
      destruct (composite_score <=? fneg (Fin 4)) eqn:Hs; cbn [andb].
    + right; left. repeat split; auto.
    + right; right. repeat split; intros [? ?]; (discriminate || lia).
    + right; right. repeat split; intros [? ?]; (discriminate || lia).
    + right; right. repeat split; intros [? ?]; (discriminate || lia).
  - destruct (Z.leb_spec score (-4)) as [L4 | L4];
      destruct (composite_score <=? fneg (Fin 4)) eqn:Hs; cbn [andb].
    + right; left. repeat split; auto.
    + right; right. repeat split; intros [? ?]; (discriminate || lia).
    + right; right. repeat split; intros [? ?]; (discriminate || lia).
    + right; right. repeat split; intros [? ?]; (discriminate || lia).
Qed.

(** What a returned order is made of. *)
Lemma build_order_some cfg now sym nm cat ta comp log o log' :
  build_order_from_analysis cfg now sym nm cat ta comp log = (Some o, log') ->
  exists sd,
    choose_side (score ta) comp = Some sd
    /\ (ind_atr14 (ind ta) <=? Fin 0) = false
    /\ (last_price (ind ta) <=? Fin 0) = false
    /\ entry o = last_price (ind ta)
    /\ side o = sd
    /\ (stop_loss o, take_profit o)
       = levels sd (last_price (ind ta))
                (ind_atr14 (ind ta) * atr_mult_sl cat) (lit 2.0)
    /\ (stop_loss o <=? Fin 0) = false
    /\ (take_profit o <=? Fin 0) = false
    /\ risk_amount o
       = Config.ACCOUNT_SIZE cfg * (Config.RISK_PER_TRADE_PCT cfg / lit 100.0)
    /\ (abs (entry o - stop_loss o) <=? Fin 0) = false
    /\ position_size o = risk_amount o / abs (entry o - stop_loss o)
    /\ notional o = position_size o * entry o
    /\ log' = log ++ [o].
Proof.
  unfold build_order_from_analysis.
  destruct (ind_atr14 (ind ta) <=? Fin 0) eqn:Ha; [discriminate |].
  destruct (last_price (ind ta) <=? Fin 0) eqn:Hp; [discriminate |].
  cbn [orb].
  destruct (choose_side (score ta) comp) as [sd |] eqn:Hs; [| discriminate].
  destruct (levels sd (last_price (ind ta))
              (ind_atr14 (ind ta) * atr_mult_sl cat) (lit 2.0))
    as [sl tp] eqn:Hl.
  destruct (sl <=? Fin 0) eqn:Hsl; [discriminate |].
  destruct (tp <=? Fin 0) eqn:Htp; [discriminate |].
  cbn [orb].
  destruct (abs (last_price (ind ta) - sl) <=? Fin 0) eqn:Hd; [discriminate |].
  intro H. injection H as Ho Hlog. subst o. cbn.
  exists sd. repeat split; auto.
Qed.

Lemma atr_mult_sl_positive (cat : string) :
  exists m : Q, atr_mult_sl cat = Fin m /\ (0 < m)%Q.
Proof.
  unfold atr_mult_sl.
  destruct (String.eqb cat "CRYPTO"); [| destruct (String.eqb cat "STOCK")];
    eexists; (split; [reflexivity | reflexivity]).
Qed.

(** C3. Every order returned by [build_order_from_analysis] has its entry
    at the last price, a stop distance of ATR times the category factor
    (2.5 for CRYPTO, 1.8 for STOCK, 1.5 otherwise), stop and target at
    entry minus the distance and entry plus twice the distance for LONG and
    mirrored for SHORT, a risk amount of account size times (risk percent
    over 100), a position size of the risk amount over |entry - stop| and a
    notional of size times entry, each the float expression of the source.
    With CRYPTO, entry 100, ATR 2, LONG,
    account 10000 and risk 1 percent: stop 95, target 110, risk amount 100,
    size 20, notional 2000. *)
Theorem order_levels_and_size :
  (forall cfg now sym nm cat ta comp log o log',
      build_order_from_analysis cfg now sym nm cat ta comp log
      = (Some o, log') ->
      let d := ind_atr14 (ind ta) * atr_mult_sl cat in
      entry o = last_price (ind ta)
      /\ (side o = "LONG"%string \/ side o = "SHORT"%string)
      /\ (side o = "LONG"%string ->
          stop_loss o = entry o - d /\ take_profit o = entry o + d * Fin 2)
      /\ (side o = "SHORT"%string ->
          stop_loss o = entry o + d /\ take_profit o = entry o - d * Fin 2)
      /\ risk_amount o
         = Config.ACCOUNT_SIZE cfg
           * (Config.RISK_PER_TRADE_PCT cfg / Fin 100)
      /\ position_size o = risk_amount o / abs (entry o - stop_loss o)
      /\ notional o = position_size o * entry o)
  /\ atr_mult_sl "CRYPTO" = lit 2.5
  /\ atr_mult_sl "STOCK" = lit 1.8
  /\ (forall cat : string,
         cat <> "CRYPTO"%string -> cat <> "STOCK"%string ->
         atr_mult_sl cat = lit 1.5)
  /\ (forall now sym nm dec rs comp log,
         (comp >=? Fin 4) = true ->
         exists o,
           build_order_from_analysis Config.shipped now sym nm "CRYPTO"
             (mkTech 4 dec (mkIndicators (Fin 100) (Fin 2)) rs) comp log
           = (Some o, log ++ [o])
           /\ side o = "LONG"%string
           /\ stop_loss o = Fin 95 /\ take_profit o = Fin 110
           /\ risk_amount o = Fin 100 /\ position_size o = Fin 20
           /\ notional o = Fin 2000).
Proof.
  split; [| split; [reflexivity | split; [reflexivity | split]]].
  - intros cfg now sym nm cat ta comp log o log' H d.
    apply build_order_some in H.
    destruct H as (sd & Hs & Ha & Hp & He & Hsd & Hl & Hsl & Htp & Hr & Hd
                   & Hps & Hn & Hlog).
    assert (Hside : sd = "LONG"%string \/ sd = "SHORT"%string).
    { destruct (choose_side_cases (score ta) comp)
        as [[E _] | [[E _] | [E _]]]; rewrite E in Hs;
        [left | right |]; congruence. }
    assert (Hlv : forall x y, (stop_loss o, take_profit o) = (x, y) ->
                         stop_loss o = x /\ take_profit o = y).
    { intros x y E. split; congruence. }
    split; [exact He |].
    split; [rewrite Hsd; exact Hside |].
    split.
    { intro E. rewrite Hsd in E. subst sd. rewrite He. apply Hlv.
      rewrite Hl, E. reflexivity. }
    split.
    { intro E. rewrite Hsd in E. subst sd. rewrite He. apply Hlv.
      rewrite Hl, E. reflexivity. }
    split; [exact Hr |].
    split; [exact Hps | exact Hn].
  - intros cat H1 H2. unfold atr_mult_sl.
    apply String.eqb_neq in H1, H2. now rewrite H1, H2.
  - intros now sym nm dec rs comp log Hc.
    unfold build_order_from_analysis, choose_side.
    cbn [score decision reasons ind last_price ind_atr14].
    rewrite Hc. eexists. split; [reflexivity |].
    cbn. repeat split; reflexivity.
Qed.

(** The concrete order of the specification, built and checked through the
    general statement. *)
Lemma order_levels_and_size_witness :
  let ta := mkTech 5 "BUY" (mkIndicators (Fin 100) (Fin 2)) [] in
  let o := mkOrder "t" "BTC-USD" "Bitcoin" "CRYPTO" "LONG" (Fin 100) (Fin 95)
             (Fin 110) (Fin 2) 5 "BUY" (Fin 5) (Fin 2) (Fin 20) (Fin 2000)
             (Fin 100) (TechnicalAgent.Text "Decisione tecnica: BUY") in
  build_order_from_analysis Config.shipped "t" "BTC-USD" "Bitcoin" "CRYPTO"
    ta (Fin 5) [] = (Some o, [o])
  /\ position_size o = risk_amount o / abs (entry o - stop_loss o)
  /\ notional o = position_size o * entry o.
Proof.
  intros ta o.
  assert (H : build_order_from_analysis Config.shipped "t" "BTC-USD"
                "Bitcoin" "CRYPTO" ta (Fin 5) [] = (Some o, [o]))
    by (vm_compute; reflexivity).
  split; [exact H |].
  pose proof (proj1 order_levels_and_size _ _ _ _ _ _ _ _ _ _ H) as P.
  cbv zeta in P.
  destruct P as (_ & _ & _ & _ & _ & Hps & Hn).
  split; assumption.
Defined.

(** C4. [build_order_from_analysis] is a total function that returns
    [None], with the order log untouched, in every case where it declines:
    when the two scores do not both reach the threshold with the same sign
    (LONG needs score >= 4 and composite >= 4, SHORT needs score <= -4 and
    composite <= -4), when ATR <= 0, when the last price <= 0, and when the
    computed stop or target is <= 0; with ATR = 0 it returns [None] whatever
    the scores.  An order is only returned when none of these holds. *)
Theorem build_order_declines :
  forall cfg now sym nm cat ta comp log,
    let res := build_order_from_analysis cfg now sym nm cat ta comp log in
    let d := ind_atr14 (ind ta) * atr_mult_sl cat in
    (~ ((4 <= score ta)%Z /\ (comp >=? Fin 4) = true) ->
     ~ ((score ta <= -4)%Z /\ (comp <=? Fin (-4)) = true) ->
     res = (None, log))
    /\ ((ind_atr14 (ind ta) <=? Fin 0) = true -> res = (None, log))
    /\ ((last_price (ind ta) <=? Fin 0) = true -> res = (None, log))
    /\ (forall sd sl tp,
           choose_side (score ta) comp = Some sd ->
           levels sd (last_price (ind ta)) d (Fin 2) = (sl, tp) ->
           (sl <=? Fin 0) = true \/ (tp <=? Fin 0) = true ->
           res = (None, log))
    /\ (forall q : Q,
           ind_atr14 (ind ta) = Fin q -> (q == 0)%Q -> res = (None, log))
    /\ (forall o log',
           res = (Some o, log') ->
           (ind_atr14 (ind ta) <=? Fin 0) = false
           /\ (last_price (ind ta) <=? Fin 0) = false
           /\ (stop_loss o <=? Fin 0) = false
           /\ (take_profit o <=? Fin 0) = false
           /\ ((side o = "LONG"%string /\ (4 <= score ta)%Z
                /\ (comp >=? Fin 4) = true)
               \/ (side o = "SHORT"%string /\ (score ta <= -4)%Z
                   /\ (comp <=? Fin (-4)) = true)))
    /\ (res = (None, log) \/ exists o, res = (Some o, log ++ [o])).
Proof.
  intros cfg now sym nm cat ta comp log res d.
  assert (Hatr : (ind_atr14 (ind ta) <=? Fin 0) = true -> res = (None, log)).
  { intro H. subst res. unfold build_order_from_analysis. now rewrite H. }
  split; [| split; [exact Hatr | split; [| split; [| split; [| split]]]]].
  - intros HL HS. subst res. unfold build_order_from_analysis.
    destruct (choose_side_cases (score ta) comp)
      as [(_ & H1 & H2) | [(_ & H1 & H2) | (E & _)]].
    + exfalso. apply HL. now split.
    + exfalso. apply HS. now split.
    + rewrite E. now destruct (_ || _).
  - intro H. subst res. unfold build_order_from_analysis.
    rewrite H, orb_true_r. reflexivity.
  - intros sd sl tp Hs Hl Hor. subst res d.
    unfold build_order_from_analysis.
    destruct (_ || _); [reflexivity |].
    rewrite Hs. change (lit 2.0) with (Fin 2). rewrite Hl.
    destruct Hor as [H | H]; rewrite H; rewrite ?orb_true_r; reflexivity.
  - intros q Eq Hq. apply Hatr. rewrite Eq. apply fle_Fin.
    rewrite Hq. apply Qle_refl.
  - intros o log' H. subst res. apply build_order_some in H.
    destruct H as (sd & Hs & Ha & Hp & He & Hsd & Hl & Hsl & Htp & _).
    repeat (split; [assumption |]).
    destruct (choose_side_cases (score ta) comp)
      as [(E & H1 & H2) | [(E & H1 & H2) | (E & _)]];
      rewrite E in Hs; try discriminate; injection Hs as Hs; subst sd.
    + left. auto.
    + right. auto.
  - subst res. unfold build_order_from_analysis.
    destruct (_ || _); [now left |].
    destruct (choose_side (score ta) comp); [| now left].
    destruct (levels _ _ _ _) as [sl tp].
    destruct ((sl <=? Fin 0) || (tp <=? Fin 0)); [now left |].
    destruct (abs (last_price (ind ta) - sl) <=? Fin 0); [now left |].
    right. eexists. reflexivity.
Qed.

End Orders.

(* ================================================================== *)
(** * Properties of the paper-trade ledger *)
(* ================================================================== *)

Section Ledger.
Import Py PaperTrading Spec.
Local Open Scope float_scope.

Lemma update_rows_nth sym price capital utcnow :
  forall df k i,
    nth_error (update_rows sym price capital utcnow k df) i
    = option_map
        (fun row => if processed sym row
                    then update_row price capital (utcnow (k + i)%nat) row
                    else row)
        (nth_error df i).
Proof.
  induction df as [| r df IH]; intros k i.
  - now destruct i.
  - destruct i as [| i]; cbn [update_rows nth_error option_map].
    + now rewrite Nat.add_0_r.
    + rewrite IH. now rewrite Nat.add_succ_comm.
Qed.

Lemma update_rows_length sym price capital utcnow :
  forall df k, length (update_rows sym price capital utcnow k df) = length df.
Proof. induction df as [| r df IH]; intro k; cbn; [| rewrite IH]; reflexivity. Qed.

Lemma update_rows_unchanged sym price capital utcnow :
  forall df k,
    existsb (processed sym) df = false ->
    update_rows sym price capital utcnow k df = df.
Proof.
  induction df as [| r df IH]; intros k H; [reflexivity |].
  cbn in H. apply orb_false_iff in H. destruct H as [Hr Hdf].
  cbn. now rewrite Hr, IH.
Qed.

(** The returned frame, and the file afterwards, for a file that exists. *)
Lemma update_trades_frame utcnow sym price capital rows :
  update_trades_with_price utcnow sym price capital (Some rows)
  = (update_rows sym price capital utcnow 0 rows,
     Some (update_rows sym price capital utcnow 0 rows)).
Proof.
  unfold update_trades_with_price, load_trades, _ensure_file, save_trades.
  destruct rows as [| r rows]; [reflexivity |].
  destruct (existsb (processed sym) (r :: rows)) eqn:E; [reflexivity |].
  now rewrite (update_rows_unchanged _ _ _ _ _ _ E).
Qed.

Lemma update_trades_absent utcnow sym price capital :
  update_trades_with_price utcnow sym price capital None = ([], Some []).
Proof. reflexivity. Qed.

Lemma fle_not_fgt (x y : float) : (x <=? y) = true -> (x >? y) = false.
Proof.
  unfold fgt, flt, fle.
  destruct x as [| | | a], y as [| | | b]; cbn; try congruence.
  rewrite <- (Qcompare_antisym a b). destruct (a ?= b)%Q; cbn; congruence.
Qed.

Lemma upper_OPEN_not_CLOSED (s : string) :
  upper s = "OPEN"%string -> s <> "CLOSED"%string.
Proof. intros H E. subst s. discriminate H. Qed.

(** The LONG trade of the specification, as [open_trade] writes it. *)
Lemma sample_long_trade :
  open_trade "t0" "BTC-USD" "long" "Swing" (Fin 20) (Fin 100) (Fin 95)
             (Fin 110) (Fin 10000) None
  = (mkTrade 1 "BTC-USD" "LONG" "Swing" (Fin 20) (Fin 100) (Fin 95)
             (Fin 110) "t0" "" "OPEN" (Fin 100) (Fin 0) (Fin 0) (Fin 100)
             (Fin 200),
     Some [mkTrade 1 "BTC-USD" "LONG" "Swing" (Fin 20) (Fin 100) (Fin 95)
                   (Fin 110) "t0" "" "OPEN" (Fin 100) (Fin 0) (Fin 0)
                   (Fin 100) (Fin 200)]).
Proof. vm_compute. reflexivity. Qed.

(** C5. For every OPEN trade on the updated symbol,
    [update_trades_with_price] sets [last_price] to the observed price,
    [pnl] to (price - entry) * lot for LONG and (entry - price) * lot for
    SHORT, [pnl_pct] to pnl / capital * 100 (0 when capital <= 0), and sets
    the status to CLOSED with the close time read from the clock exactly
    when the price reaches the stop or the target; otherwise status and
    close time stay as they were.  The closing pnl is computed from the
    observed price.  The LONG trade with entry 100, stop 95, target 110 and
    lot 20 closes with pnl 220 at 111 and with pnl -120 at 94. *)
Theorem update_marks_to_market :
  (forall utcnow sym price capital rows idx row,
      nth_error rows idx = Some row ->
      symbol row = sym ->
      upper (status row) = "OPEN"%string ->
      let res := update_trades_with_price utcnow sym price capital (Some rows) in
      exists row',
        nth_error (fst res) idx = Some row'
        /\ snd res = Some (fst res)
        /\ last_price row' = price
        /\ (upper (side row) = "LONG"%string ->
            pnl row' = (price - entry row) * lot row)
        /\ (upper (side row) = "SHORT"%string ->
            pnl row' = (entry row - price) * lot row)
        /\ ((capital >? Fin 0) = true ->
            pnl_pct row' = pnl row' / capital * Fin 100)
        /\ ((capital <=? Fin 0) = true -> pnl_pct row' = Fin 0)
        /\ (reaches_stop_or_target row price = true ->
            status row' = "CLOSED"%string /\ close_time row' = utcnow idx)
        /\ (reaches_stop_or_target row price = false ->
            status row' = status row /\ close_time row' = close_time row)
        /\ (status row' = "CLOSED"%string
            <-> reaches_stop_or_target row price = true)
        /\ (id row', symbol row', side row', style row', lot row',
            entry row', stop_loss row', take_profit row', open_time row',
            risk_amount row', gain_amount row')
           = (id row, symbol row, side row, style row, lot row, entry row,
              stop_loss row, take_profit row, open_time row,
              risk_amount row, gain_amount row))
  /\ (forall utcnow capital,
         let opened :=
           snd (open_trade "t0" "BTC-USD" "long" "Swing" (Fin 20) (Fin 100)
                           (Fin 95) (Fin 110) capital None) in
         (exists row',
             fst (update_trades_with_price utcnow "BTC-USD" (Fin 111)
                                           capital opened) = [row']
             /\ status row' = "CLOSED"%string /\ pnl row' = Fin 220
             /\ last_price row' = Fin 111)
         /\ (exists row',
                fst (update_trades_with_price utcnow "BTC-USD" (Fin 94)
                                              capital opened) = [row']
                /\ status row' = "CLOSED"%string /\ pnl row' = Fin (-120)
                /\ last_price row' = Fin 94)).
Proof.
  split.
  - intros utcnow sym price capital rows idx row Hnth Hsym Hopen res.
    subst res. rewrite update_trades_frame. cbn [fst snd].
    assert (Hproc : processed sym row = true).
    { unfold processed. rewrite Hsym, Hopen, String.eqb_refl. reflexivity. }
    exists (update_row price capital (utcnow idx) row).
    split.
    { rewrite update_rows_nth, Hnth. cbn [option_map]. now rewrite Hproc. }
    split; [reflexivity |].
    unfold update_row, reaches_stop_or_target.
    destruct (String.eqb (upper (side row)) "LONG") eqn:Eside;
      cbn [last_price pnl pnl_pct status close_time id symbol side style lot
           entry stop_loss take_profit open_time risk_amount gain_amount].
    + repeat split; try reflexivity.
      * intro E. rewrite E in Eside. discriminate Eside.
      * intro Hc. now rewrite Hc.
      * intro Hc. now rewrite (fle_not_fgt _ _ Hc).
      * now rewrite H.
      * now rewrite H.
      * now rewrite H.
      * now rewrite H.
      * destruct ((price >=? take_profit row) || (price <=? stop_loss row));
          [reflexivity |].
        intro E. exfalso. exact (upper_OPEN_not_CLOSED Hopen E).
      * intro E. now rewrite E.
    + repeat split; try reflexivity.
      * intro E. rewrite E in Eside. discriminate Eside.
      * intro Hc. now rewrite Hc.
      * intro Hc. now rewrite (fle_not_fgt _ _ Hc).
      * now rewrite H.
      * now rewrite H.
      * now rewrite H.
      * now rewrite H.
      * destruct ((price <=? take_profit row) || (price >=? stop_loss row));
          [reflexivity |].
        intro E. exfalso. exact (upper_OPEN_not_CLOSED Hopen E).
      * intro E. now rewrite E.
  - intros utcnow capital opened. subst opened.
    split; eexists; (split; [reflexivity | repeat split; reflexivity]).
Qed.

Lemma not_processed sym row :
  symbol row <> sym \/ upper (status row) <> "OPEN"%string ->
  processed sym row = false.
Proof.
  unfold processed. intros [H | H]; apply String.eqb_neq in H; rewrite H.
  - reflexivity.
  - apply andb_false_r.
Qed.

Lemma update_keeps_unprocessed utcnow sym price capital f idx row :
  nth_error (rows_of f) idx = Some row ->
  processed sym row = false ->
  nth_error (fst (update_trades_with_price utcnow sym price capital f)) idx
  = Some row
  /\ nth_error
       (rows_of (snd (update_trades_with_price utcnow sym price capital f)))
       idx
     = Some row.
Proof.
  intros Hnth Hp. destruct f as [rows |]; cbn [rows_of] in Hnth.
  - rewrite update_trades_frame. cbn [fst snd rows_of].
    rewrite update_rows_nth, Hnth. cbn [option_map]. rewrite Hp. now split.
  - destruct idx; discriminate Hnth.
Qed.

Lemma observe_all_keeps_closed :
  forall os f idx row,
    nth_error (rows_of f) idx = Some row ->
    status row = "CLOSED"%string ->
    nth_error (rows_of (observe_all os f)) idx = Some row.
Proof.
  induction os as [| o os IH]; intros f idx row Hnth Hc; [exact Hnth |].
  cbn [observe_all fold_left]. apply IH; [| exact Hc].
  unfold observe. apply update_keeps_unprocessed; [exact Hnth |].
  apply not_processed. right. rewrite Hc. discriminate.
Qed.

(** C6. A call of [update_trades_with_price] for a symbol leaves every row
    of another symbol, and every row whose status is not OPEN, exactly as
    it was, in the frame it returns and in the file it leaves; the frame
    keeps its length.  A CLOSED row is such a row, and stays as it is
    through any sequence of later calls. *)
Theorem update_leaves_other_rows :
  forall utcnow sym price capital f idx row,
    nth_error (rows_of f) idx = Some row ->
    let res := update_trades_with_price utcnow sym price capital f in
    (symbol row <> sym \/ upper (status row) <> "OPEN"%string ->
     nth_error (fst res) idx = Some row
     /\ nth_error (rows_of (snd res)) idx = Some row)
    /\ (status row = "CLOSED"%string ->
        nth_error (fst res) idx = Some row
        /\ nth_error (rows_of (snd res)) idx = Some row
        /\ forall os, nth_error (rows_of (observe_all os f)) idx = Some row)
    /\ length (fst res) = length (rows_of f).
Proof.
  intros utcnow sym price capital f idx row Hnth res. subst res.
  split; [| split].
  - intro H. apply update_keeps_unprocessed; [exact Hnth |].
    now apply not_processed.
  - intro Hc.
    assert (Hp : processed sym row = false).
    { apply not_processed. right. rewrite Hc. discriminate. }
    destruct (update_keeps_unprocessed utcnow sym price capital f idx Hnth Hp)
      as [H1 H2].
    repeat split; try assumption.
    intro os. now apply observe_all_keeps_closed.
  - destruct f as [rows |]; [| reflexivity].
    rewrite update_trades_frame. cbn [fst rows_of].
    apply update_rows_length.
Qed.

(** A ledger with an open BTC trade, an open ETH trade and a closed BTC
    trade: a BTC price that closes the first leaves the other two alone. *)
Lemma update_leaves_other_rows_witness :
  let t1 := mkTrade 1 "BTC-USD" "LONG" "Swing" (Fin 20) (Fin 100) (Fin 95)
              (Fin 110) "t0" "" "OPEN" (Fin 100) (Fin 0) (Fin 0) (Fin 100)
              (Fin 200) in
  let t2 := mkTrade 2 "ETH-USD" "SHORT" "Swing" (Fin 5) (Fin 50) (Fin 55)
              (Fin 40) "t0" "" "OPEN" (Fin 50) (Fin 0) (Fin 0) (Fin 25)
              (Fin 50) in
  let t3 := mkTrade 3 "BTC-USD" "LONG" "Swing" (Fin 1) (Fin 90) (Fin 85)
              (Fin 99) "t0" "t1" "CLOSED" (Fin 99) (Fin 9) (lit 0.09) (Fin 5)
              (Fin 9) in
  let res := update_trades_with_price (fun _ => "t2"%string) "BTC-USD"
               (Fin 111) (Fin 10000) (Some [t1; t2; t3]) in
  nth_error (fst res) 1 = Some t2
  /\ nth_error (fst res) 2 = Some t3
  /\ option_map status (nth_error (fst res) 0) = Some "CLOSED"%string.
Proof.
  intros t1 t2 t3 res.
  pose proof (@update_leaves_other_rows (fun _ => "t2"%string) "BTC-USD"
                (Fin 111) (Fin 10000) (Some [t1; t2; t3]) 1 t2 eq_refl) as P2.
  pose proof (@update_leaves_other_rows (fun _ => "t2"%string) "BTC-USD"
                (Fin 111) (Fin 10000) (Some [t1; t2; t3]) 2 t3 eq_refl) as P3.
  cbv zeta in P2, P3.
  destruct P2 as (P2 & _). destruct P3 as (_ & P3 & _).
  split; [apply P2; left; discriminate |].
  split; [apply P3; reflexivity |].
  vm_compute. reflexivity.
Defined.

End Ledger.

(* ================================================================== *)
(** * Properties of the indicator engine *)
(* ================================================================== *)

Section PandasFacts.
Import Py Pandas TechnicalAgent Spec.
Local Open Scope float_scope.

Lemma map2_length {A B C} (f : A -> B -> C) :
  forall l1 l2, length (map2 f l1 l2) = Nat.min (length l1) (length l2).
Proof.
  induction l1 as [| a l1 IH]; intros [| b l2]; cbn; auto.
Qed.

Lemma Forall_map2 {A B C} (f : A -> B -> C) (P : A -> Prop) (Q : B -> Prop)
    (R : C -> Prop) :
  (forall a b, P a -> Q b -> R (f a b)) ->
  forall l1 l2, Forall P l1 -> Forall Q l2 -> Forall R (map2 f l1 l2).
Proof.
  intros Hf l1 l2 H1. revert l2.
  induction H1 as [| a l1 Ha _ IH]; intros l2 H2; [constructor |].
  destruct H2 as [| b l2 Hb H2]; cbn; constructor; auto.
Qed.

Lemma at_map2 (f : float -> float -> float) :
  forall l1 l2 i,
    (i < length l1)%nat -> (i < length l2)%nat ->
    at_ (map2 f l1 l2) i = f (at_ l1 i) (at_ l2 i).
Proof.
  unfold at_.
  induction l1 as [| a l1 IH]; intros [| b l2] i H1 H2; cbn in *; try lia.
  destruct i; [reflexivity |]. apply IH; lia.
Qed.

Lemma nth_map_lt {A B} (f : A -> B) (d : B) (d' : A) :
  forall l i, (i < length l)%nat -> nth i (map f l) d = f (nth i l d').
Proof.
  induction l as [| a l IH]; intros i H; cbn in *; [lia |].
  destruct i; [reflexivity |]. apply IH. lia.
Qed.

Lemma at_map (f : float -> float) (l : Series) (i : nat) :
  (i < length l)%nat -> at_ (map f l) i = f (at_ l i).
Proof. unfold at_. apply nth_map_lt. Qed.

Lemma at_outside (l : Series) (i : nat) :
  (length l <= i)%nat -> at_ l i = NaN.
Proof. unfold at_. apply nth_overflow. Qed.

Lemma at_Forall (P : float -> Prop) (l : Series) (i : nat) :
  P NaN -> Forall P l -> P (at_ l i).
Proof.
  intros HN Hl. unfold at_.
  destruct (Nat.lt_ge_cases i (length l)) as [H | H].
  - rewrite Forall_forall in Hl. apply Hl. now apply nth_In.
  - now rewrite nth_overflow.
Qed.

Lemma rolling_length n agg s : length (rolling n agg s) = length s.
Proof. unfold rolling. now rewrite length_map, length_seq. Qed.

Lemma at_rolling n agg s i :
  (i < length s)%nat ->
  at_ (rolling n agg s) i
  = if (i + 1 <? n)%nat then NaN
    else if existsb is_nan (window n i s) then NaN else agg (window n i s).
Proof.
  intro H. unfold at_, rolling.
  rewrite (nth_map_lt _ NaN 0%nat) by now rewrite length_seq.
  rewrite seq_nth by assumption. reflexivity.
Qed.

Lemma In_firstn {A} (x : A) n l : In x (firstn n l) -> In x l.
Proof.
  intro H. rewrite <- (firstn_skipn n l). apply in_or_app. now left.
Qed.

Lemma In_skipn {A} (x : A) n l : In x (skipn n l) -> In x l.
Proof.
  intro H. rewrite <- (firstn_skipn n l). apply in_or_app. now right.
Qed.

Lemma window_incl n i s : incl (window n i s) s.
Proof.
  unfold window. intros x Hx.
  apply In_firstn in Hx. now apply In_skipn in Hx.
Qed.

Lemma Forall_rolling (P Q : float -> Prop) n agg s :
  Q NaN ->
  (forall w, Forall P w -> existsb is_nan w = false -> Q (agg w)) ->
  Forall P s -> Forall Q (rolling n agg s).
Proof.
  intros HN Hagg Hs. unfold rolling. apply Forall_forall.
  intros x Hx. apply in_map_iff in Hx. destruct Hx as (i & Hi & _). subst x.
  destruct (i + 1 <? n)%nat; [exact HN |]. cbv zeta.
  destruct (existsb is_nan (window n i s)) eqn:E; [exact HN |].
  apply Hagg; [| exact E].
  apply Forall_forall. intros y Hy. rewrite Forall_forall in Hs.
  apply Hs. eapply window_incl; eauto.
Qed.

End PandasFacts.

Section RsiFacts.
Import Py Pandas TechnicalAgent Spec.
Local Open Scope float_scope.
Local Open Scope Q_scope.

Ltac fsimpl :=
  cbn [nonneg_or_nan positive_or_nan in_0_100_or_nan fneg fadd fsub fdiv
       fmul fabs is_nan inf_of of_int].

Lemma clip_lower_nonneg (x : float) :
  nonneg_or_nan (if (x <? Fin 0)%fl then Fin 0 else x).
Proof.
  destruct (x <? Fin 0)%fl eqn:E; [fsimpl; apply Qle_refl |].
  destruct x as [| | | q]; fsimpl; auto; try discriminate.
  apply Qnot_lt_le. intro H. apply flt_Fin in H. congruence.
Qed.

Lemma neg_clip_upper_nonneg (x : float) :
  nonneg_or_nan (fneg (if (x >? Fin 0)%fl then Fin 0 else x)).
Proof.
  destruct (x >? Fin 0)%fl eqn:E.
  - fsimpl. rewrite Qred_correct. apply Qle_refl.
  - destruct x as [| | | q]; fsimpl; auto; try discriminate.
    rewrite Qred_correct.
    assert (q <= 0).
    { apply Qnot_lt_le. intro H. apply fgt_Fin in H. congruence. }
    lra.
Qed.

Lemma fadd_nonneg (x y : float) :
  nonneg_or_nan x -> is_nan x = false ->
  nonneg_or_nan y -> is_nan y = false ->
  nonneg_or_nan (x + y) /\ is_nan (x + y) = false.
Proof.
  destruct x as [| | | a], y as [| | | b]; fsimpl; intros; try tauto;
    try discriminate.
  split; [| reflexivity]. rewrite Qred_correct. lra.
Qed.

Lemma sum_nonneg (w : list float) :
  Forall nonneg_or_nan w -> existsb is_nan w = false ->
  nonneg_or_nan (sum w) /\ is_nan (sum w) = false.
Proof.
  unfold sum.
  assert (G : forall acc, nonneg_or_nan acc -> is_nan acc = false ->
                Forall nonneg_or_nan w -> existsb is_nan w = false ->
                nonneg_or_nan (fold_left fadd w acc)
                /\ is_nan (fold_left fadd w acc) = false).
  { induction w as [| x w IH]; intros acc Ha Hn Hw He; [now split |].
    cbn [existsb] in He. apply orb_false_iff in He. destruct He as [Hx He].
    inversion Hw as [| ? ? Hpx Hw']; subst.
    cbn [fold_left]. destruct (fadd_nonneg _ _ Ha Hn Hpx Hx) as [H1 H2].
    now apply IH. }
  intros Hw He. apply G; auto. fsimpl. apply Qle_refl.
Qed.

Lemma fdiv_count_nonneg (s : float) (n : nat) :
  nonneg_or_nan s -> nonneg_or_nan (s / of_int (Z.of_nat n)).
Proof.
  unfold of_int.
  assert (Hn : 0 <= inject_Z (Z.of_nat n)).
  { change 0 with (inject_Z 0). rewrite <- Zle_Qle. lia. }
  destruct s as [| | | a]; fsimpl.
  - auto.
  - intros _.
    destruct (Qcompare_spec (inject_Z (Z.of_nat n)) 0); fsimpl; auto. lra.
  - tauto.
  - intro Ha.
    destruct (Qcompare_spec (inject_Z (Z.of_nat n)) 0) as [E | E | E].
    + destruct (Qcompare_spec a 0); fsimpl; auto. lra.
    + lra.
    + fsimpl. rewrite Qred_correct. apply Qle_shift_div_l; lra.
Qed.

Lemma mean_nonneg (w : list float) :
  Forall nonneg_or_nan w -> existsb is_nan w = false ->
  nonneg_or_nan (mean w).
Proof.
  intros Hw He. unfold mean, count. apply fdiv_count_nonneg.
  now apply sum_nonneg.
Qed.

Lemma replace_zero_positive (x : float) :
  nonneg_or_nan x ->
  positive_or_nan (if feq x (Fin 0) then NaN else x)
  /\ feq (if feq x (Fin 0) then NaN else x) (Fin 0) = false.
Proof.
  intro Hx. destruct (feq x (Fin 0)) eqn:E; [now split |].
  split; [| exact E].
  destruct x as [| | | q]; fsimpl; auto. cbn [nonneg_or_nan] in Hx.
  destruct (Qle_lt_or_eq _ _ Hx) as [H | H]; [exact H |].
  exfalso. symmetry in H. apply feq_Fin in H. congruence.
Qed.

Lemma fdiv_nonneg (g l : float) :
  nonneg_or_nan g -> positive_or_nan l -> nonneg_or_nan (g / l).
Proof.
  destruct g as [| | | a], l as [| | | b]; fsimpl; auto; try tauto.
  - intros _ Hb. apply Qgt_alt in Hb. now rewrite Hb.
  - intros _ _. apply Qle_refl.
  - intros Ha Hb. pose proof Hb as Hb'. apply Qgt_alt in Hb'. rewrite Hb'.
    fsimpl. rewrite Qred_correct. apply Qle_shift_div_l; lra.
Qed.

Lemma rsi_value_range (rs : float) :
  nonneg_or_nan rs ->
  in_0_100_or_nan (Fin 100 - Fin 100 / (Fin 1 + rs))
  /\ feq (Fin 1 + rs) (Fin 0) = false.
Proof.
  destruct rs as [| | | r]; fsimpl; auto; try tauto.
  - intros _. split; [| reflexivity]. rewrite Qred_correct. lra.
  - intro Hr.
    assert (Hpos : 0 < Qred (1 + r)) by (rewrite Qred_correct; lra).
    pose proof Hpos as Hc. apply Qgt_alt in Hc.
    split; [| unfold feq, fcmp; now rewrite Hc].
    rewrite Hc. fsimpl.
    rewrite !Qred_correct.
    assert (H1 : 0 <= 100 / (1 + r)) by (apply Qle_shift_div_l; lra).
    assert (H2 : 100 / (1 + r) <= 100) by (apply Qle_shift_div_r; lra).
    lra.
Qed.

End RsiFacts.

Section RsiSeries.
Import Py Pandas TechnicalAgent Spec.
Local Open Scope float_scope.

Lemma Forall_map_any {A B} (f : A -> B) (P : B -> Prop) (l : list A) :
  (forall x, P (f x)) -> Forall P (map f l).
Proof. intro H. apply Forall_forall. intros y Hy.
  apply in_map_iff in Hy. destruct Hy as (x & <- & _). apply H. Qed.

Lemma rsi_avg_gain_nonneg series period :
  Forall nonneg_or_nan (rsi_avg_gain series period).
Proof.
  unfold rsi_avg_gain.
  apply Forall_rolling with (P := nonneg_or_nan); [exact I | apply mean_nonneg |].
  unfold clip_lower. apply Forall_map_any. apply clip_lower_nonneg.
Qed.

Lemma rsi_avg_loss_nonneg series period :
  Forall nonneg_or_nan (rsi_avg_loss series period).
Proof.
  unfold rsi_avg_loss.
  apply Forall_rolling with (P := nonneg_or_nan); [exact I | apply mean_nonneg |].
  unfold sneg, clip_upper. rewrite map_map. apply Forall_map_any.
  apply neg_clip_upper_nonneg.
Qed.

Lemma rsi_divisor_guarded series period :
  Forall (fun d => positive_or_nan d /\ feq d (Fin 0) = false)
         (replace (Fin 0) NaN (rsi_avg_loss series period)).
Proof.
  unfold replace. apply Forall_forall. intros y Hy.
  apply in_map_iff in Hy. destruct Hy as (x & <- & Hx).
  apply replace_zero_positive.
  pose proof (rsi_avg_loss_nonneg series period) as H.
  rewrite Forall_forall in H. now apply H.
Qed.

Lemma rsi_rs_nonneg series period :
  Forall nonneg_or_nan (rsi_rs series period).
Proof.
  unfold rsi_rs.
  apply Forall_map2 with (P := nonneg_or_nan)
                         (Q := fun d => positive_or_nan d /\ feq d (Fin 0) = false).
  - intros a b Ha [Hb _]. now apply fdiv_nonneg.
  - apply rsi_avg_gain_nonneg.
  - apply rsi_divisor_guarded.
Qed.

Lemma rsi_in_range series period :
  Forall in_0_100_or_nan (_rsi series period).
Proof.
  unfold _rsi. apply Forall_forall. intros y Hy.
  apply in_map_iff in Hy. destruct Hy as (rs & <- & Hrs).
  apply rsi_value_range.
  pose proof (rsi_rs_nonneg series period) as H.
  rewrite Forall_forall in H. now apply H.
Qed.

Lemma at_not_nan_lt (l : Series) (i : nat) :
  at_ l i <> NaN -> (i < length l)%nat.
Proof.
  intro H. destruct (Nat.lt_ge_cases i (length l)) as [Hl | Hl]; [exact Hl |].
  exfalso. apply H. now apply at_outside.
Qed.

Lemma fdiv_NaN_r (x : float) : x / NaN = NaN.
Proof. now destruct x. Qed.

Lemma rsi_zero_loss_is_nan series period i :
  feq (at_ (rsi_avg_loss series period) i) (Fin 0) = true ->
  at_ (_rsi series period) i = NaN.
Proof.
  intro H.
  destruct (Nat.lt_ge_cases i (length (rsi_rs series period))) as [Hl | Hl].
  - unfold _rsi. rewrite at_map by exact Hl.
    unfold rsi_rs in *. rewrite map2_length in Hl.
    rewrite at_map2 by lia.
    unfold replace at 1. rewrite at_map.
    + rewrite H. rewrite fdiv_NaN_r. reflexivity.
    + unfold replace in Hl. rewrite length_map in Hl. lia.
  - apply at_outside. unfold _rsi. now rewrite length_map.
Qed.

End RsiSeries.

Section Lengths.
Import Py Pandas TechnicalAgent Spec.
Local Open Scope float_scope.

Lemma shift_length n s : length (shift n s) = length s.
Proof.
  unfold shift. rewrite length_firstn, length_app, repeat_length. lia.
Qed.

Lemma diff_length s : length (diff s) = length s.
Proof. unfold diff. rewrite map2_length, shift_length. lia. Qed.

Lemma rsi_length series period :
  length (_rsi series period) = length series.
Proof.
  unfold _rsi, rsi_rs, rsi_avg_gain, rsi_avg_loss, replace, sneg,
    clip_lower, clip_upper.
  rewrite length_map, map2_length, length_map, !rolling_length,
    !length_map, diff_length. lia.
Qed.

Lemma true_range_length df : length (true_range df) = length df.
Proof.
  unfold true_range, sabs, col.
  rewrite !map2_length, !length_map, !map2_length, shift_length,
    !length_map. lia.
Qed.

Lemma plus_dm_length df : length (plus_dm df) = length df.
Proof.
  unfold plus_dm, sneg, col.
  rewrite map2_length, length_map, !diff_length, !length_map. lia.
Qed.

Lemma minus_dm_length df : length (minus_dm df) = length df.
Proof.
  unfold minus_dm, sneg, col.
  rewrite map2_length, length_map, !diff_length, !length_map. lia.
Qed.

Lemma plus_di_length df period : length (plus_di df period) = length df.
Proof.
  unfold plus_di, _atr.
  rewrite map2_length, length_map, !rolling_length, plus_dm_length,
    true_range_length. lia.
Qed.

Lemma minus_di_length df period : length (minus_di df period) = length df.
Proof.
  unfold minus_di, _atr.
  rewrite map2_length, length_map, !rolling_length, minus_dm_length,
    true_range_length. lia.
Qed.

Lemma dx_length df period : length (dx df period) = length df.
Proof.
  unfold dx, sabs.
  rewrite length_map, map2_length, !length_map, !map2_length,
    plus_di_length, minus_di_length. lia.
Qed.

Lemma adx_length df period : length (_adx df period) = length df.
Proof. unfold _adx. now rewrite rolling_length, dx_length. Qed.

End Lengths.

Section AdxFacts.
Import Py Pandas TechnicalAgent Spec.
Local Open Scope float_scope.

Lemma feq_zero_inv (x : float) :
  feq x (Fin 0) = true -> exists q, x = Fin q /\ (q == 0)%Q.
Proof.
  destruct x as [| | | q]; try discriminate.
  intro H. exists q. split; [reflexivity | now apply feq_Fin].
Qed.

Lemma dx_formula_zero (a b : Q) :
  (a == 0)%Q -> (b == 0)%Q ->
  fabs (Fin a - Fin b) / fabs (Fin a + Fin b) * Fin 100 = NaN.
Proof.
  intros Ha Hb. unfold fsub, fadd, fabs, fdiv.
  assert (H1 : (Qred (Qabs (Qred (a + b))) ?= 0)%Q = Eq).
  { apply Qeq_alt. rewrite !Qred_correct, Ha, Hb. reflexivity. }
  assert (H2 : (Qred (Qabs (Qred (a - b))) ?= 0)%Q = Eq).
  { apply Qeq_alt. rewrite !Qred_correct, Ha, Hb. reflexivity. }
  rewrite H1, H2. reflexivity.
Qed.

Lemma dx_nan_when_di_zero df period i :
  feq (at_ (plus_di df period) i) (Fin 0) = true ->
  feq (at_ (minus_di df period) i) (Fin 0) = true ->
  at_ (dx df period) i = NaN.
Proof.
  intros Hp Hm.
  destruct (feq_zero_inv _ Hp) as (a & Ea & Ha).
  destruct (feq_zero_inv _ Hm) as (b & Eb & Hb).
  assert (Li : (i < length df)%nat).
  { rewrite <- (plus_di_length df period). apply at_not_nan_lt.
    rewrite Ea. discriminate. }
  unfold dx, sabs.
  rewrite at_map
    by (rewrite map2_length, !length_map, !map2_length, plus_di_length,
          minus_di_length; lia).
  rewrite at_map2
    by (rewrite length_map, map2_length, plus_di_length, minus_di_length; lia).
  rewrite !at_map
    by (rewrite map2_length, plus_di_length, minus_di_length; lia).
  rewrite !at_map2 by (rewrite ?plus_di_length, ?minus_di_length; lia).
  rewrite Ea, Eb. now apply dx_formula_zero.
Qed.

Lemma window_holds n j s i :
  (i < length s)%nat -> (i <= j)%nat -> (j < i + n)%nat ->
  In (at_ s i) (window n j s).
Proof.
  intros Hi Hij Hjn. unfold window, at_.
  replace (nth i s NaN)
    with (nth (i - (j + 1 - n)) (firstn n (skipn (j + 1 - n) s)) NaN).
  - apply nth_In. rewrite length_firstn, length_skipn. lia.
  - rewrite nth_firstn.
    destruct (Nat.ltb_spec (i - (j + 1 - n)) n) as [H | H]; [| lia].
    rewrite nth_skipn. f_equal. lia.
Qed.

Lemma rolling_nan_in_window n agg s i :
  at_ s i = NaN ->
  forall j, (i <= j)%nat -> (j < i + n)%nat -> at_ (rolling n agg s) j = NaN.
Proof.
  intros Hnan j Hij Hjn.
  destruct (Nat.lt_ge_cases j (length s)) as [Hj | Hj].
  - rewrite at_rolling by exact Hj.
    destruct (j + 1 <? n)%nat; [reflexivity |].
    assert (E : existsb is_nan (window n j s) = true).
    { apply existsb_exists. exists (at_ s i). split.
      - apply window_holds; lia.
      - now rewrite Hnan. }
    now rewrite E.
  - apply at_outside. now rewrite rolling_length.
Qed.

Lemma adx_nan_when_di_zero df period i :
  feq (at_ (plus_di df period) i) (Fin 0) = true ->
  feq (at_ (minus_di df period) i) (Fin 0) = true ->
  forall j, (i <= j)%nat -> (j < i + period)%nat ->
            at_ (_adx df period) j = NaN.
Proof.
  intros Hp Hm. unfold _adx. apply rolling_nan_in_window.
  now apply dx_nan_when_di_zero.
Qed.

End AdxFacts.

Section Rows.
Import Py Pandas TechnicalAgent Spec.
Local Open Scope float_scope.
Variable ewm_mean : nat -> Series -> Series.
Variable sqrt : float -> float.

Lemma compute_indicators_rows df r :
  In r (compute_indicators ewm_mean sqrt df) ->
  existsb is_nan (row_fields r) = false
  /\ exists i, (i < length df)%nat
               /\ close r = at_ (col Close df) i
               /\ rsi14 r = at_ (_rsi (col Close df) 14) i
               /\ atr14 r = at_ (_atr df 14) i
               /\ adx14 r = at_ (_adx df 14) i.
Proof.
  unfold compute_indicators, _ichimoku, dropna. cbv zeta. intro H.
  apply filter_In in H. destruct H as [Hin Hf].
  apply negb_true_iff in Hf. split; [exact Hf |].
  apply in_map_iff in Hin. destruct Hin as (i & <- & Hi).
  apply in_seq in Hi. exists i. cbn [close rsi14 atr14 adx14].
  repeat split; try reflexivity. lia.
Qed.

Lemma row_field_not_nan (r : row) :
  existsb is_nan (row_fields r) = false ->
  is_nan (rsi14 r) = false /\ is_nan (adx14 r) = false.
Proof.
  unfold row_fields. cbn [existsb]. intro H.
  repeat (apply orb_false_iff in H; destruct H as [? H]). now split.
Qed.

End Rows.

Section IndicatorClaims.
Import Py Pandas TechnicalAgent Spec.
Local Open Scope float_scope.

(** Fifteen rising closes and a sixteenth: no loss in the last fourteen
    changes, so the average loss is zero and the RSI is NaN, not 100. *)
Lemma rsi_without_losses_is_nan :
  let rising := map (fun k => of_int (Z.of_nat k)) (seq 100 16) in
  at_ (rsi_avg_loss rising 14) 15 = Fin 0
  /\ at_ (rsi_avg_gain rising 14) 15 = Fin 1
  /\ at_ (_rsi rising 14) 15 = NaN.
Proof. vm_compute. repeat split; reflexivity. Qed.

(** C7. The RSI computation never divides by zero: every divisor of the
    first division (the average loss after [replace(0, nan)]) and of the
    second ([1 + rs]) is different from zero.  Where the rolling average
    loss is zero the RSI of that bar is NaN, the undefined value; every
    value of the RSI series is NaN or lies in [0, 100]; the series has one
    value per bar; and since [compute_indicators] drops the rows holding a
    NaN, the RSI of every row it returns, hence of every row the scoring
    engine reads, is a number in [0, 100]. *)
Theorem rsi_is_guarded_and_bounded :
  forall (series : Series) (period : nat),
    Forall (fun d => feq d (Fin 0) = false)
           (replace (Fin 0) NaN (rsi_avg_loss series period))
    /\ Forall (fun rs => feq (Fin 1 + rs) (Fin 0) = false)
              (rsi_rs series period)
    /\ (forall i, feq (at_ (rsi_avg_loss series period) i) (Fin 0) = true ->
                  at_ (_rsi series period) i = NaN)
    /\ Forall in_0_100_or_nan (_rsi series period)
    /\ length (_rsi series period) = length series
    /\ (forall ewm_mean sqrt df r,
           In r (compute_indicators ewm_mean sqrt df) ->
           exists q : Q, rsi14 r = Fin q /\ (0 <= q <= 100)%Q).
Proof.
  intros series period.
  split; [| split; [| split; [| split; [| split]]]].
  - eapply Forall_impl; [| apply rsi_divisor_guarded].
    intros d [_ H]. exact H.
  - eapply Forall_impl; [| apply rsi_rs_nonneg].
    intros rs H. now apply rsi_value_range.
  - intro i. apply rsi_zero_loss_is_nan.
  - apply rsi_in_range.
  - apply rsi_length.
  - intros ewm_mean sqrt df r Hr.
    apply compute_indicators_rows in Hr. destruct Hr as (Hn & i & _ & _ & E & _).
    apply row_field_not_nan in Hn. destruct Hn as [Hn _].
    assert (H : in_0_100_or_nan (rsi14 r)).
    { rewrite E. apply at_Forall; [exact I | apply rsi_in_range]. }
    destruct (rsi14 r) as [| | | q]; try discriminate; try contradiction.
    now exists q.
Qed.

(** Thirty identical candles (high 11, low 9, close 10): no directional
    movement, so +DI and -DI are both zero at bar 26, and the ADX there is
    NaN, not zero. *)
Lemma adx_zero_di_is_not_zero :
  let flat := repeat (mkBar (Fin 10) (Fin 11) (Fin 9) (Fin 10) (Fin 0)) 30 in
  at_ (plus_di flat 14) 26 = Fin 0
  /\ at_ (minus_di flat 14) 26 = Fin 0
  /\ at_ (_adx flat 14) 26 = NaN
  /\ at_ (_adx flat 14) 26 <> Fin 0.
Proof. vm_compute. repeat split; (reflexivity || discriminate). Qed.

(** C8, as the code has it.  The ADX computation is total: it yields one
    value per bar and raises nothing, a zero divisor giving NaN or an
    infinity.  For every bar where +DI and -DI are both zero the
    directional index DX is NaN, so the ADX of that bar and of the bars
    whose averaging window holds it is NaN; [compute_indicators] drops such
    rows, so the ADX of every row it returns is a number. *)
Theorem adx_zero_di_is_undefined :
  forall (df : list bar) (period : nat),
    length (_adx df period) = length df
    /\ (forall i,
           feq (at_ (plus_di df period) i) (Fin 0) = true ->
           feq (at_ (minus_di df period) i) (Fin 0) = true ->
           at_ (dx df period) i = NaN
           /\ forall j, (i <= j)%nat -> (j < i + period)%nat ->
                        at_ (_adx df period) j = NaN)
    /\ (forall ewm_mean sqrt r,
           In r (compute_indicators ewm_mean sqrt df) ->
           is_nan (adx14 r) = false
           /\ exists i, (i < length df)%nat /\ adx14 r = at_ (_adx df 14) i).
Proof.
  intros df period. split; [apply adx_length | split].
  - intros i Hp Hm. split.
    + now apply dx_nan_when_di_zero.
    + now apply adx_nan_when_di_zero.
  - intros ewm_mean sqrt r Hr.
    apply compute_indicators_rows in Hr.
    destruct Hr as (Hn & i & Hi & _ & _ & _ & E).
    apply row_field_not_nan in Hn. destruct Hn as [_ Hn].
    split; [exact Hn |]. now exists i.
Qed.

End IndicatorClaims.

(* ================================================================== *)
(** * Properties of the backtest evaluator *)
(* ================================================================== *)

Section SortFacts.
Import Py Backtest Spec.
Local Open Scope Z_scope.

Lemma insert_In {A} (le : A -> A -> bool) (x y : A) :
  forall l, In y (PySort.insert le x l) <-> y = x \/ In y l.
Proof.
  induction l as [| z l IH]; cbn.
  - intuition congruence.
  - destruct (le x z); cbn; [intuition congruence |].
    rewrite IH. intuition congruence.
Qed.

Lemma sort_In {A} (le : A -> A -> bool) (y : A) :
  forall l, In y (PySort.sort le l) <-> In y l.
Proof.
  induction l as [| x l IH]; cbn; [tauto |].
  rewrite insert_In, IH. intuition congruence.
Qed.

Lemma insert_sorted (x : Z) :
  forall l, StronglySorted Z.le l ->
            StronglySorted Z.le (PySort.insert Z.leb x l).
Proof.
  induction l as [| y l IH]; intro H; cbn.
  - repeat constructor.
  - inversion H as [| ? ? Hs Hall]; subst.
    destruct (Z.leb_spec x y) as [Hxy | Hxy].
    + constructor; [exact H |]. constructor; [exact Hxy |].
      eapply Forall_impl; [| exact Hall]. intros; lia.
    + constructor; [now apply IH |].
      apply Forall_forall. intros z Hz. apply insert_In in Hz.
      destruct Hz as [-> | Hz]; [lia |].
      rewrite Forall_forall in Hall. now apply Hall.
Qed.

Lemma sort_sorted (l : list Z) : StronglySorted Z.le (PySort.sort Z.leb l).
Proof.
  induction l as [| x l IH]; cbn; [constructor | now apply insert_sorted].
Qed.

Lemma filter_sorted (f : Z -> bool) :
  forall l, StronglySorted Z.le l -> StronglySorted Z.le (filter f l).
Proof.
  induction 1 as [| x l Hs IH Hall]; cbn; [constructor |].
  destruct (f x); [| exact IH].
  constructor; [exact IH |].
  apply Forall_forall. intros y Hy. apply filter_In in Hy.
  rewrite Forall_forall in Hall. now apply Hall.
Qed.

(** The dates on or after [t], in increasing order. *)
Lemma on_or_after_head (dates : list Z) (t d : Z) (rest : list Z) :
  filter (fun x => x >=? t) (PySort.sort Z.leb dates) = d :: rest ->
  In d dates /\ t <= d /\ forall d', In d' dates -> t <= d' -> d <= d'.
Proof.
  intro H.
  assert (Hin : In d (filter (fun x => x >=? t) (PySort.sort Z.leb dates)))
    by (rewrite H; now left).
  apply filter_In in Hin. destruct Hin as [Hd Ht].
  apply sort_In in Hd. split; [exact Hd |]. split; [lia |].
  intros d' Hd' Ht'.
  assert (Hin' : In d' (d :: rest)).
  { rewrite <- H. apply filter_In. split; [now apply sort_In | lia]. }
  destruct Hin' as [-> | Hin']; [lia |].
  pose proof (@filter_sorted (fun x => x >=? t) _ (sort_sorted dates)) as Hs.
  rewrite H in Hs. inversion Hs as [| ? ? _ Hall]; subst.
  rewrite Forall_forall in Hall. now apply Hall.
Qed.

Lemma on_or_after_nil (dates : list Z) (t : Z) :
  filter (fun x => x >=? t) (PySort.sort Z.leb dates) = []
  <-> forall d', In d' dates -> d' < t.
Proof.
  split.
  - intros H d' Hd'. destruct (Z.lt_ge_cases d' t) as [Hl | Hl]; [exact Hl |].
    assert (Hin : In d' (filter (fun x => x >=? t) (PySort.sort Z.leb dates)))
      by (apply filter_In; split; [now apply sort_In | lia]).
    rewrite H in Hin. destruct Hin.
  - intro H.
    destruct (filter (fun x => x >=? t) (PySort.sort Z.leb dates))
      as [| d rest] eqn:E; [reflexivity |].
    apply on_or_after_head in E. destruct E as (Hd & Ht & _).
    apply H in Hd. lia.
Qed.

End SortFacts.

Section FuturePrice.
Import Py Backtest Spec.
Local Open Scope Z_scope.

Lemma filter_key_absent (df : prices_df) (d : date) :
  ~ In d (map fst df) -> filter (fun r => fst r =? d) df = [].
Proof.
  induction df as [| [k c] df IH]; intro H; [reflexivity |].
  cbn in *. destruct (Z.eqb_spec k d) as [-> | Hne]; [tauto |].
  apply IH. tauto.
Qed.

Lemma loc_close_unique (df : prices_df) (d : date) (c : float) :
  NoDup (map fst df) -> In (d, c) df -> loc_close df d = Ok c.
Proof.
  unfold loc_close. induction df as [| [k w] df IH]; intros Hnd Hin.
  - destruct Hin.
  - cbn [map fst] in Hnd. inversion Hnd as [| ? ? Hk Hnd']; subst.
    cbn [filter fst]. destruct Hin as [E | Hin].
    + injection E as -> ->. rewrite Z.eqb_refl.
      now rewrite (@filter_key_absent df d Hk).
    + destruct (Z.eqb_spec k d) as [-> | Hne].
      * exfalso. apply Hk. apply in_map_iff. now exists (d, c).
      * now apply IH.
Qed.

Lemma in_dates_bar (df : prices_df) (d : date) :
  In d (map fst df) -> exists c, In (d, c) df.
Proof.
  intro H. apply in_map_iff in H. destruct H as ([k c] & E & Hin).
  cbn in E. subst k. now exists c.
Qed.

Lemma first_bar_head (df : prices_df) (t d : date) (c : float) :
  first_bar_on_or_after df t d c ->
  exists rest,
    filter (fun x => x >=? t) (PySort.sort Z.leb (map fst df)) = d :: rest.
Proof.
  intros (Hin & Ht & Hmin).
  destruct (filter (fun x => x >=? t) (PySort.sort Z.leb (map fst df)))
    as [| d0 rest] eqn:E.
  - exfalso. rewrite on_or_after_nil in E.
    assert (d < t); [| lia].
    apply E. apply in_map_iff. now exists (d, c).
  - exists rest.
    destruct (@on_or_after_head _ _ _ _ E) as (Hd0 & Ht0 & Hmin0).
    assert (d <= d0) by (apply Hmin; assumption).
    assert (d0 <= d).
    { apply Hmin0; [| exact Ht]. apply in_map_iff. now exists (d, c). }
    assert (Ed : d0 = d) by (now apply Z.le_antisymm).
    now rewrite Ed.
Qed.

Lemma get_future_price_none (df : prices_df) (sd h : Z) :
  no_bar_on_or_after df sd -> get_future_price df sd h = Ok (NaN, NaN).
Proof.
  intro H. unfold get_future_price. destruct df as [| b df]; [reflexivity |].
  apply (proj2 (@on_or_after_nil (map fst (b :: df)) sd)) in H. now rewrite H.
Qed.

Lemma get_future_price_entry_only (df : prices_df) (sd h d : Z) (c : float) :
  NoDup (map fst df) ->
  first_bar_on_or_after df sd d c -> no_bar_on_or_after df (sd + h) ->
  get_future_price df sd h = Ok (c, NaN).
Proof.
  intros Hnd Hfirst Hno. unfold get_future_price.
  destruct df as [| b df]; [destruct Hfirst as [[] _] |].
  destruct (@first_bar_head _ _ _ _ Hfirst) as (rest & E). rewrite E.
  rewrite (@loc_close_unique _ _ _ Hnd (proj1 Hfirst)). cbn [bind].
  apply (proj2 (@on_or_after_nil (map fst (b :: df)) (sd + h))) in Hno.
  now rewrite Hno.
Qed.

Lemma get_future_price_both (df : prices_df) (sd h d d' : Z) (c c' : float) :
  NoDup (map fst df) ->
  first_bar_on_or_after df sd d c ->
  first_bar_on_or_after df (sd + h) d' c' ->
  get_future_price df sd h = Ok (c, c').
Proof.
  intros Hnd Hfirst Hfut. unfold get_future_price.
  destruct df as [| b df]; [destruct Hfirst as [[] _] |].
  destruct (@first_bar_head _ _ _ _ Hfirst) as (rest & E). rewrite E.
  rewrite (@loc_close_unique _ _ _ Hnd (proj1 Hfirst)). cbn [bind].
  destruct (@first_bar_head _ _ _ _ Hfut) as (rest' & E'). rewrite E'.
  rewrite (@loc_close_unique _ _ _ Hnd (proj1 Hfut)). reflexivity.
Qed.

(** Every lookup falls in one of the three cases. *)
Lemma bar_on_or_after_cases (df : prices_df) (t : Z) :
  no_bar_on_or_after df t \/ exists d c, first_bar_on_or_after df t d c.
Proof.
  destruct (filter (fun x => x >=? t) (PySort.sort Z.leb (map fst df)))
    as [| d rest] eqn:E.
  - left. exact (proj1 (@on_or_after_nil (map fst df) t) E).
  - right. destruct (@on_or_after_head _ _ _ _ E) as (Hd & Ht & Hmin).
    destruct (@in_dates_bar _ _ Hd) as (c & Hc).
    exists d, c. repeat split; assumption.
Qed.

Lemma get_future_price_total (df : prices_df) (sd h : Z) :
  NoDup (map fst df) ->
  exists e f, get_future_price df sd h = Ok (e, f)
              /\ (no_bar_on_or_after df sd \/ no_bar_on_or_after df (sd + h) ->
                  is_nan e || is_nan f = true).
Proof.
  intro Hnd.
  destruct (bar_on_or_after_cases df sd) as [Hno | (d & c & Hfirst)].
  - exists NaN, NaN. split; [now apply get_future_price_none | reflexivity].
  - destruct (bar_on_or_after_cases df (sd + h)) as [Hno | (d' & c' & Hfut)].
    + exists c, NaN. split; [now apply get_future_price_entry_only with d |].
      intros _. apply orb_true_r.
    + exists c, c'. split; [now apply get_future_price_both with d d' |].
      intros [Hno | Hno]; exfalso.
      * destruct Hfirst as (Hin & Ht & _).
        assert (d < sd); [| lia]. apply Hno. apply in_map_iff. now exists (d, c).
      * destruct Hfut as (Hin & Ht & _).
        assert (d' < sd + h); [| lia].
        apply Hno. apply in_map_iff. now exists (d', c').
Qed.

(** A defined entry price is the close of a bar of the frame. *)
Lemma get_future_price_entry_bar (df : prices_df) (sd h : Z) (e f : float) :
  NoDup (map fst df) ->
  get_future_price df sd h = Ok (e, f) -> is_nan e = false ->
  exists d, In (d, e) df.
Proof.
  intros Hnd E He.
  destruct (bar_on_or_after_cases df sd) as [Hno | (d & c & Hfirst)].
  - rewrite (@get_future_price_none df sd h Hno) in E.
    injection E as <- <-. discriminate.
  - destruct (bar_on_or_after_cases df (sd + h)) as [Hno | (d' & c' & Hfut)].
    + rewrite (@get_future_price_entry_only df sd h d c Hnd Hfirst Hno) in E.
      injection E as <- <-. exists d. apply Hfirst.
    + rewrite (@get_future_price_both df sd h d d' c c' Hnd Hfirst Hfut) in E.
      injection E as <- <-. exists d. apply Hfirst.
Qed.

End FuturePrice.

Section ForwardReturns.
Import Py Backtest Spec.
Local Open Scope Z_scope.

Lemma find_set_col_same h v : forall cols,
  find (fun c => fst c =? h) (set_col h v cols) = Some (h, v).
Proof.
  induction cols as [| [k w] cols IH]; cbn.
  - now rewrite Z.eqb_refl.
  - destruct (Z.eqb_spec k h) as [-> | Hne]; cbn.
    + now rewrite Z.eqb_refl.
    + destruct (Z.eqb_spec k h); [contradiction | exact IH].
Qed.

Lemma find_set_col_other h h' v : h <> h' -> forall cols,
  find (fun c => fst c =? h) (set_col h' v cols)
  = find (fun c => fst c =? h) cols.
Proof.
  intros Hne. induction cols as [| [k w] cols IH]; cbn.
  - destruct (Z.eqb_spec h' h); [congruence | reflexivity].
  - destruct (Z.eqb_spec k h') as [-> | Hk]; cbn.
    + destruct (Z.eqb_spec h' h); [congruence | reflexivity].
    + destruct (Z.eqb_spec k h); [reflexivity | exact IH].
Qed.

Lemma get_return_set_same h v s : get_return h (set_return h v s) = v.
Proof.
  unfold get_return, set_return. cbn [returns].
  now rewrite find_set_col_same.
Qed.

Lemma get_return_set_other h h' v s :
  h <> h' -> get_return h (set_return h' v s) = get_return h s.
Proof.
  intro Hne. unfold get_return, set_return. cbn [returns].
  now rewrite find_set_col_other.
Qed.

Lemma same_signal_refl s : same_signal s s.
Proof. repeat split. Qed.

Lemma same_signal_set h v s : same_signal s (set_return h v s).
Proof. repeat split. Qed.

Lemma same_signal_trans s1 s2 s3 :
  same_signal s1 s2 -> same_signal s2 s3 -> same_signal s1 s3.
Proof.
  unfold same_signal. intros (A1 & A2 & A3 & A4 & A5) (B1 & B2 & B3 & B4 & B5).
  repeat split; congruence.
Qed.

(** Initialising the return columns. *)
Lemma init_returns_nan (horizons : list Z) : forall s h,
  In h horizons \/ get_return h s = NaN ->
  get_return h (fold_left (fun s h => set_return h NaN s) horizons s) = NaN
  /\ same_signal s (fold_left (fun s h => set_return h NaN s) horizons s).
Proof.
  induction horizons as [| h0 hs IH]; intros s h H; cbn [fold_left].
  - destruct H as [[] | H]. split; [exact H | apply same_signal_refl].
  - destruct (IH (set_return h0 NaN s) h) as [E S].
    + destruct (Z.eq_dec h h0) as [-> | Hne].
      * right. apply get_return_set_same.
      * destruct H as [[E | Hin] | Hn]; [congruence | now left |].
        right. now rewrite get_return_set_other.
    + split; [exact E |].
      eapply same_signal_trans; [apply same_signal_set | exact S].
Qed.

Lemma init_returns_same (horizons : list Z) : forall s,
  same_signal s (fold_left (fun s h => set_return h NaN s) horizons s).
Proof.
  induction horizons as [| h0 hs IH]; intro s; cbn [fold_left].
  - apply same_signal_refl.
  - eapply same_signal_trans; [apply same_signal_set | apply IH].
Qed.

Lemma init_returns_map (horizons : list Z) : forall signals,
  fold_left (fun sigs h => map (set_return h NaN) sigs) horizons signals
  = map (fun s => fold_left (fun s h => set_return h NaN s) horizons s)
        signals.
Proof.
  induction horizons as [| h0 hs IH]; intro signals; cbn [fold_left].
  - now rewrite map_id.
  - now rewrite IH, map_map.
Qed.

Lemma fill_returns_keeps_nan (df : prices_df) :
  NoDup (map fst df) ->
  (forall d c, In (d, c) df -> feq c (Fin 0) = false) ->
  forall horizons s,
  exists s',
    fill_returns df horizons s = Ok s' /\ same_signal s s'
    /\ forall h,
         no_bar_on_or_after df (signal_date s)
         \/ no_bar_on_or_after df (signal_date s + h) ->
         get_return h s = NaN -> get_return h s' = NaN.
Proof.
  intros Hnd Hnz.
  induction horizons as [| h0 hs IH]; intro s; cbn [fill_returns].
  - exists s. split; [reflexivity |]. split; [apply same_signal_refl | auto].
  - destruct (@get_future_price_total df (signal_date s) h0 Hnd)
      as (e & f & E & Hmiss).
    rewrite E. cbn [bind].
    destruct (is_nan e || is_nan f) eqn:Enan.
    + apply IH.
    + assert (Hz : feq e (Fin 0) = false).
      { apply orb_false_iff in Enan.
        destruct (@get_future_price_entry_bar df _ _ _ _ Hnd E (proj1 Enan))
          as (d & Hd).
        exact (Hnz d e Hd). }
      unfold truediv. rewrite Hz. cbn [bind].
      destruct (IH (set_return h0 ((f - e) / e * lit 100.0)%fl s))
        as (s' & Es & Ss & Hs).
      exists s'. split; [exact Es |]. split.
      { eapply same_signal_trans; [apply same_signal_set | exact Ss]. }
      intros h Hm Hn. apply Hs; [exact Hm |].
      destruct (Z.eq_dec h h0) as [-> | Hne].
      * apply Hmiss in Hm. congruence.
      * now rewrite get_return_set_other.
Qed.

Lemma forward_rows_keep_nan prices horizons :
  (forall sym df, lookup_prices prices sym = Some df -> NoDup (map fst df)) ->
  (forall sym df d c, lookup_prices prices sym = Some df -> In (d, c) df ->
                      feq c (Fin 0) = false) ->
  forall signals,
  exists out,
    forward_rows prices horizons signals = Ok out
    /\ Forall2 (fun s s' =>
                  same_signal s s'
                  /\ forall h, bar_missing prices s h ->
                               get_return h s = NaN -> get_return h s' = NaN)
               signals out.
Proof.
  intros Hnd Hnz. induction signals as [| row rest IH]; cbn [forward_rows].
  - exists []. split; [reflexivity | constructor].
  - destruct IH as (rest' & Er & Fr).
    destruct (lookup_prices prices (symbol row)) as [df |] eqn:El.
    + destruct (@fill_returns_keeps_nan df (Hnd _ _ El)
                  (fun d c => Hnz _ _ d c El) horizons row)
        as (row' & E & S & Hn).
      rewrite E. cbn [bind]. rewrite Er. cbn [bind].
      exists (row' :: rest'). split; [reflexivity |].
      constructor; [| exact Fr]. split; [exact S |].
      intros h Hm. unfold bar_missing in Hm. rewrite El in Hm. now apply Hn.
    + cbn [bind]. rewrite Er. cbn [bind].
      exists (row :: rest'). split; [reflexivity |].
      constructor; [| exact Fr]. split; [apply same_signal_refl | auto].
Qed.

Lemma bar_missing_same prices s s' h :
  same_signal s s' -> bar_missing prices s h -> bar_missing prices s' h.
Proof.
  unfold same_signal, bar_missing. intros (E1 & E2 & _). now rewrite E1, E2.
Qed.

Lemma Forall2_of_map {A B C} (f : A -> B) (R : B -> C -> Prop) :
  forall l l', Forall2 R (map f l) l' -> Forall2 (fun x y => R (f x) y) l l'.
Proof.
  induction l as [| a l IH]; intros l' H; inversion H; subst;
    constructor; auto.
Qed.

Lemma compute_forward_returns_keep_nan signals prices horizons :
  (forall sym df, lookup_prices prices sym = Some df -> NoDup (map fst df)) ->
  (forall sym df d c, lookup_prices prices sym = Some df -> In (d, c) df ->
                      feq c (Fin 0) = false) ->
  exists out,
    compute_forward_returns signals prices horizons = Ok out
    /\ Forall2 (fun s s' =>
                  same_signal s s'
                  /\ forall h, In h horizons -> bar_missing prices s h ->
                               get_return h s' = NaN)
               signals out.
Proof.
  intros Hnd Hnz. unfold compute_forward_returns. rewrite init_returns_map.
  destruct (@forward_rows_keep_nan prices horizons Hnd Hnz
              (map (fun s => fold_left (fun s h => set_return h NaN s)
                                       horizons s) signals))
    as (out & E & F).
  exists out. split; [exact E |].
  apply Forall2_of_map in F. eapply Forall2_impl; [| exact F].
  intros s s' [S Hn]. cbv beta in *.
  split.
  - eapply same_signal_trans; [apply init_returns_same | exact S].
  - intros h Hin Hm. apply Hn.
    + eapply bar_missing_same; [apply init_returns_same | exact Hm].
    + apply init_returns_nan. now left.
Qed.

(** The error path: an entry close of zero with a defined future price
    raises at the first such horizon. *)
Lemma fill_returns_zero_entry (df : prices_df) (h : Z) (rest : list Z)
    (s : signal) (e f : float) :
  get_future_price df (signal_date s) h = Ok (e, f) ->
  feq e (Fin 0) = true -> is_nan f = false ->
  fill_returns df (h :: rest) s = Raise ZeroDivisionError.
Proof.
  intros E He Hf. cbn [fill_returns]. rewrite E. cbn [bind].
  assert (Hn : is_nan e = false) by (destruct e; [discriminate | | |]; reflexivity).
  rewrite Hn, Hf. cbn [orb]. unfold truediv. now rewrite He.
Qed.



End ForwardReturns.

Section BacktestClaims.
Import Py Backtest Spec.
Local Open Scope Z_scope.




End BacktestClaims.

(* ================================================================== *)
(** * Properties of the ensemble combiner *)
(* ================================================================== *)

Section EnsembleClaims.
Import Py EnsembleManager Spec.
Local Open Scope float_scope.

Variable ewm_mean : nat -> Pandas.Series -> Pandas.Series.
Variable sqrt : float -> float.
Variable download_data :
  string -> Z -> string -> result (list TechnicalAgent.bar).

(** With weights 1.0 and 0.0 the weighted sum is the technical score,
    whatever finite news score is supplied. *)
Lemma weighted_sum_is_tech_score (t : Z) (n : Q) :
  TECH_WEIGHT * of_int t + NEWS_WEIGHT * Fin n = of_int t.
Proof.
  unfold TECH_WEIGHT, NEWS_WEIGHT, lit, of_int, fmul, fadd.
  rewrite <- (Qred_inject_Z t) at 2. apply Fin_Qred_eq.
  rewrite !Qred_correct. ring.
Qed.

Lemma insert_ext {A} (le1 le2 : A -> A -> bool) (x : A) :
  forall l, (forall y, In y l -> le1 x y = le2 x y) ->
            PySort.insert le1 x l = PySort.insert le2 x l.
Proof.
  induction l as [| z l IH]; intro H; [reflexivity |].
  cbn. rewrite (H z (or_introl eq_refl)).
  destruct (le2 x z); [reflexivity |].
  f_equal. apply IH. intros y Hy. apply H. now right.
Qed.

Lemma sort_ext {A} (le1 le2 : A -> A -> bool) :
  forall l, (forall x y, In x l -> In y l -> le1 x y = le2 x y) ->
            PySort.sort le1 l = PySort.sort le2 l.
Proof.
  induction l as [| x l IH]; intro H; [reflexivity |].
  change (PySort.insert le1 x (PySort.sort le1 l)
          = PySort.insert le2 x (PySort.sort le2 l)).
  rewrite IH by (intros; apply H; now right).
  apply insert_ext. intros y Hy. apply H; [now left |].
  right. exact (proj1 (@sort_In _ le2 y l) Hy).
Qed.

Lemma analyze_one_score (a : asset) :
  ensemble_score (analyze_one ewm_mean sqrt download_data a)
  = of_int (tech_score (analyze_one ewm_mean sqrt download_data a)).
Proof.
  unfold analyze_one.
  destruct (TechnicalAgent.run_technical_agent ewm_mean sqrt download_data
              (asset_symbol a) "Position" 365 "1d" None);
    cbn [ensemble_score tech_score]; apply weighted_sum_is_tech_score.
Qed.

Lemma results_scores (assets : list asset) (r : entry) :
  In r (map (analyze_one ewm_mean sqrt download_data) assets) ->
  ensemble_score r = of_int (tech_score r).
Proof.
  intro H. apply in_map_iff in H. destruct H as (a & <- & _).
  apply analyze_one_score.
Qed.

(** C10. With TECH_WEIGHT = 1.0, NEWS_WEIGHT = 0.0 and the news score fixed
    at 0.0, the ensemble score [analyze_one] returns is the technical score
    as a float, whatever finite news score were supplied, so both rankings
    are the rankings by technical score; and when the technical analysis
    raises, whatever the exception, [analyze_one] returns the neutral entry:
    technical score 0, decision "N/A", ensemble score 0.0. *)
Theorem ensemble_score_is_technical_score :
  forall a : asset,
    let e := analyze_one ewm_mean sqrt download_data a in
    let run := TechnicalAgent.run_technical_agent ewm_mean sqrt download_data
                 (asset_symbol a) "Position" 365 "1d" None in
    ensemble_score e = of_int (tech_score e)
    /\ news_score e = Fin 0
    /\ (forall n : Q,
           TECH_WEIGHT * of_int (tech_score e) + NEWS_WEIGHT * Fin n
           = ensemble_score e)
    /\ (forall r, run = Ok r ->
                  tech_score e = TechnicalAgent.a_score r
                  /\ tech_decision e = TechnicalAgent.a_decision r
                  /\ ensemble_score e = of_int (TechnicalAgent.a_score r))
    /\ (forall err, run = Raise err ->
                    tech_score e = 0%Z /\ tech_decision e = "N/A"%string
                    /\ tech_reasons e = [] /\ ensemble_score e = Fin 0)
    /\ (forall assets : list asset,
           let results := map (analyze_one ewm_mean sqrt download_data) assets in
           buy_like results = buy_like_by_tech results
           /\ sell_like results = sell_like_by_tech results).
Proof.
  intros a e run.
  assert (Hs : ensemble_score e = of_int (tech_score e))
    by apply analyze_one_score.
  split; [exact Hs |].
  split.
  { subst e. unfold analyze_one.
    destruct (TechnicalAgent.run_technical_agent ewm_mean sqrt download_data
                (asset_symbol a) "Position" 365 "1d" None); reflexivity. }
  split; [intro n; rewrite Hs; apply weighted_sum_is_tech_score |].
  split; [| split].
  - intros r Hr. rewrite Hs. subst e run. unfold analyze_one.
    rewrite Hr. cbn [tech_score tech_decision]. repeat split; reflexivity.
  - intros err Hr. rewrite Hs. subst e run. unfold analyze_one.
    rewrite Hr. cbn [tech_score tech_decision tech_reasons].
    repeat split; reflexivity.
  - intros assets results.
    assert (Hin : forall (f : entry -> bool) x,
               In x (filter f results) ->
               ensemble_score x = of_int (tech_score x)).
    { intros f x Hx. apply filter_In in Hx. apply (results_scores assets).
      apply Hx. }
    unfold buy_like, buy_like_by_tech, sell_like, sell_like_by_tech.
    split; f_equal; apply sort_ext; intros x y Hx Hy;
      rewrite (Hin _ x Hx), (Hin _ y Hy); reflexivity.
Qed.

End EnsembleClaims.

Section EnsembleExamples.
Import Py EnsembleManager.

(** A provider that fails and a provider that returns no bar: both give the
    neutral entry. *)
Lemma analyze_one_neutral_on_failure :
  let a := mkAsset "BTC-USD" None (Some "CRYPTO/MAJOR"%string) in
  let failing := fun (_ : string) (_ : Z) (_ : string) =>
                   @Raise (list TechnicalAgent.bar) (OtherError "network") in
  let empty := fun (_ : string) (_ : Z) (_ : string) =>
                 @Ok (list TechnicalAgent.bar) [] in
  let keep := fun (_ : nat) (s : Pandas.Series) => s in
  let e1 := analyze_one keep (fun x => x) failing a in
  let e2 := analyze_one keep (fun x => x) empty a in
  (tech_score e1 = 0%Z /\ tech_decision e1 = "N/A"%string
   /\ tech_reasons e1 = [] /\ ensemble_score e1 = Fin 0)
  /\ (tech_score e2 = 0%Z /\ tech_decision e2 = "N/A"%string
      /\ tech_reasons e2 = [] /\ ensemble_score e2 = Fin 0)
  /\ name e1 = "BTC-USD"%string.
Proof.
  intros a failing empty keep e1 e2.
  pose proof (@ensemble_score_is_technical_score keep (fun x => x) failing a)
    as P1.
  pose proof (@ensemble_score_is_technical_score keep (fun x => x) empty a)
    as P2.
  cbv zeta in P1, P2.
  destruct P1 as (_ & _ & _ & _ & P1 & _).
  destruct P2 as (_ & _ & _ & _ & P2 & _).
  split; [exact (P1 (OtherError "network") eq_refl) |].
  split; [exact (P2 (ValueError "Nessun dato scaricato") eq_refl) |].
  reflexivity.
Defined.

End EnsembleExamples.

(* ================================================================== *)
(** * The statements at concrete inputs *)
(* ================================================================== *)

Section Instances.
Import Py.
Local Open Scope float_scope.

(** 201 candles on a small wave: two rows survive the warm-up, and their
    RSI values are numbers in [0, 100]. *)
Lemma rsi_is_guarded_and_bounded_witness :
  let wave := fun k : nat =>
    inject_Z (100 + Z.of_nat (k mod 3) * 2 - Z.of_nat (k mod 5)) in
  let bars :=
    map (fun k => TechnicalAgent.mkBar (Fin (wave k)) (Fin (wave k + 1))
                    (Fin (wave k - 1)) (Fin (wave k)) (Fin 1000))
        (seq 0 201) in
  let rows := TechnicalAgent.compute_indicators (fun _ s => s) (fun x => x)
                bars in
  length rows = 2%nat
  /\ Forall (fun r => exists q : Q, TechnicalAgent.rsi14 r = Fin q
                                    /\ (0 <= q <= 100)%Q) rows.
Proof.
  intros wave bars rows. split; [vm_compute; reflexivity |].
  apply Forall_forall. intros r Hr.
  exact (proj2 (proj2 (proj2 (proj2 (proj2
           (rsi_is_guarded_and_bounded (TechnicalAgent.col TechnicalAgent.Close bars) 14)))))
           (fun _ s => s) (fun x => x) bars r Hr).
Defined.

(** Thirty identical candles, through the general statement: DX is NaN at
    bar 26 and the ADX is NaN up to bar 39. *)
Lemma adx_zero_di_is_undefined_witness :
  let flat := repeat (TechnicalAgent.mkBar (Fin 10) (Fin 11) (Fin 9) (Fin 10)
                                           (Fin 0)) 30 in
  Pandas.at_ (TechnicalAgent.dx flat 14) 26 = NaN
  /\ Pandas.at_ (TechnicalAgent._adx flat 14) 29 = NaN.
Proof.
  intro flat.
  destruct (proj1 (proj2 (adx_zero_di_is_undefined flat 14)) 26%nat)
    as [H1 H2]; [vm_compute; reflexivity | vm_compute; reflexivity |].
  split; [exact H1 |]. apply H2; lia.
Defined.

(** The LONG trade of the specification at price 111, through the general
    statement. *)
Lemma update_marks_to_market_witness :
  let t := PaperTrading.mkTrade 1 "BTC-USD" "LONG" "Swing" (Fin 20) (Fin 100)
             (Fin 95) (Fin 110) "t0" "" "OPEN" (Fin 100) (Fin 0) (Fin 0)
             (Fin 100) (Fin 200) in
  let res := PaperTrading.update_trades_with_price (fun _ => "t1"%string)
               "BTC-USD" (Fin 111) (Fin 10000) (Some [t]) in
  exists row',
    nth_error (fst res) 0 = Some row'
    /\ PaperTrading.last_price row' = Fin 111
    /\ PaperTrading.pnl row' = (Fin 111 - Fin 100) * Fin 20
    /\ PaperTrading.status row' = "CLOSED"%string
    /\ PaperTrading.close_time row' = "t1"%string.
Proof.
  intros t res.
  destruct (proj1 update_marks_to_market (fun _ => "t1"%string)
              "BTC-USD"%string (Fin 111) (Fin 10000) [t] 0%nat t
              eq_refl eq_refl eq_refl)
    as (row' & Hn & _ & Hl & Hlong & _ & _ & _ & Hc & _).
  exists row'. split; [exact Hn |]. split; [exact Hl |].
  split; [exact (Hlong eq_refl) |].
  exact (Hc eq_refl).
Defined.

(** ATR = 0 with the strongest scores: no order, log untouched. *)
Lemma build_order_declines_witness :
  OrderAgent.build_order_from_analysis Config.shipped "t" "BTC-USD" "Bitcoin"
    "CRYPTO"
    (OrderAgent.mkTech 7 "STRONG BUY"
       (OrderAgent.mkIndicators (Fin 100) (Fin 0)) [])
    (Fin 7) []
  = (None, []).
Proof.
  exact (proj1 (proj2 (proj2 (proj2 (proj2
           (build_order_declines Config.shipped "t" "BTC-USD" "Bitcoin"
              "CRYPTO"
              (OrderAgent.mkTech 7 "STRONG BUY"
                 (OrderAgent.mkIndicators (Fin 100) (Fin 0)) [])
              (Fin 7) [])))))
          0%Q eq_refl (Qeq_refl 0)).
Defined.

End Instances.

(* ================================================================== *)
(** * Text helpers *)
(* ================================================================== *)

Section Strings.
Import Py.
Local Open Scope string_scope.

Lemma upper_ascii_idem (c : ascii) : upper_ascii (upper_ascii c) = upper_ascii c.
Proof. destruct c as [[] [] [] [] [] [] [] []]; reflexivity. Qed.

Lemma lower_ascii_idem (c : ascii) : lower_ascii (lower_ascii c) = lower_ascii c.
Proof. destruct c as [[] [] [] [] [] [] [] []]; reflexivity. Qed.

Lemma upper_lower_ascii (c : ascii) : upper_ascii (lower_ascii c) = upper_ascii c.
Proof. destruct c as [[] [] [] [] [] [] [] []]; reflexivity. Qed.

Lemma upper_idem (s : string) : upper (upper s) = upper s.
Proof. induction s as [| c s IH]; cbn; [| rewrite upper_ascii_idem, IH]; reflexivity. Qed.

Lemma lower_idem (s : string) : lower (lower s) = lower s.
Proof. induction s as [| c s IH]; cbn; [| rewrite lower_ascii_idem, IH]; reflexivity. Qed.

Lemma upper_lower (s : string) : upper (lower s) = upper s.
Proof. induction s as [| c s IH]; cbn; [| rewrite upper_lower_ascii, IH]; reflexivity. Qed.

Lemma upper_append (a b : string) : upper (a ++ b) = upper a ++ upper b.
Proof. induction a as [| c a IH]; cbn; [| rewrite IH]; reflexivity. Qed.

Lemma prefix_append (p s : string) : String.prefix p (p ++ s) = true.
Proof.
  induction p as [| c p IH]; cbn; [now destruct s |].
  destruct (ascii_dec c c); [exact IH | contradiction].
Qed.

End Strings.

(* ================================================================== *)
(** * The technical agent as a whole *)
(* ================================================================== *)

Section WarmUp.
Import Py Pandas TechnicalAgent Spec.
Local Open Scope float_scope.

Variable ewm_mean : nat -> Series -> Series.
Variable sqrt : float -> float.
Variable download_data : string -> Z -> string -> result (list bar).

Lemma filter_none {A} (f : A -> bool) :
  forall l, (forall x, In x l -> f x = false) -> filter f l = [].
Proof.
  induction l as [| a l IH]; intro H; [reflexivity |].
  cbn. rewrite (H a (or_introl eq_refl)). apply IH.
  intros x Hx. apply H. now right.
Qed.

Lemma filter_length_from {A} (f : A -> bool) (g : nat -> A) (k : nat) :
  (forall i, (i < k)%nat -> f (g i) = false) ->
  forall n, (length (filter f (map g (seq 0 n))) <= n - k)%nat.
Proof.
  intros Hk n. destruct (Nat.le_gt_cases k n) as [Hle | Hgt].
  - replace n with (k + (n - k))%nat at 1 by lia.
    rewrite seq_app, map_app, filter_app, length_app.
    assert (E : filter f (map g (seq 0 k)) = []).
    { apply filter_none. intros x Hx. apply in_map_iff in Hx. destruct Hx as (i & <- & Hi).
      apply in_seq in Hi. rewrite Hk by lia. reflexivity. }
    rewrite E. cbn [length].
    pose proof (filter_length_le f (map g (seq (0 + k) (n - k)))) as H.
    rewrite length_map, length_seq in H. lia.
  - assert (E : filter f (map g (seq 0 n)) = []).
    { apply filter_none. intros x Hx. apply in_map_iff in Hx. destruct Hx as (i & <- & Hi).
      apply in_seq in Hi. rewrite Hk by lia. reflexivity. }
    rewrite E. cbn. lia.
Qed.

Lemma sma_warm_up (series : Series) (window i : nat) :
  (i + 1 < window)%nat -> at_ (_sma series window) i = NaN.
Proof.
  intro H. unfold _sma.
  destruct (Nat.lt_ge_cases i (length series)) as [Hl | Hl].
  - rewrite at_rolling by exact Hl.
    destruct (Nat.ltb_spec (i + 1) window); [reflexivity | lia].
  - apply at_outside. now rewrite rolling_length.
Qed.

Lemma compute_indicators_length (df : list bar) :
  (length (compute_indicators ewm_mean sqrt df) <= length df - 199)%nat.
Proof.
  unfold compute_indicators, _ichimoku, dropna. cbv zeta.
  apply (@filter_length_from _ _ _ 199).
  intros i Hi. apply negb_false_iff.
  unfold row_fields.
  cbn [close ema20 ema50 ema200 sma200 rsi14 macd macd_signal atr14 adx14
       bb_lower bb_upper ichimoku_tenkan ichimoku_kijun ichimoku_span_a
       ichimoku_span_b existsb].
  rewrite (@sma_warm_up (col Close df) 200 i) by lia.
  cbn [is_nan]. now rewrite !orb_true_r.
Qed.

Lemma compute_indicators_short (df : list bar) :
  (length df < 200)%nat -> compute_indicators ewm_mean sqrt df = [].
Proof.
  intro H. pose proof (compute_indicators_length df) as Hl.
  destruct (compute_indicators ewm_mean sqrt df); [reflexivity |].
  cbn in Hl. lia.
Qed.
End WarmUp.

Section AgentRun.
Import Py Pandas TechnicalAgent Spec.
Local Open Scope Z_scope.

Variable ewm_mean : nat -> Series -> Series.
Variable sqrt : float -> float.
Variable download_data : string -> Z -> string -> result (list bar).

Lemma total_delta_bounds (r : row) : -7 <= total_delta r <= 7.
Proof.
  assert (H1 : -1 <= delta_rsi r <= 1).
  { unfold delta_rsi. destruct (_ >? _)%fl; [lia |]. destruct (_ <? _)%fl; lia. }
  assert (H2 : -1 <= delta_short_trend r <= 1).
  { unfold delta_short_trend. destruct (above_both _ _ _); [lia |].
    destruct (below_both _ _ _); lia. }
  assert (H3 : -2 <= delta_long_trend r <= 2).
  { unfold delta_long_trend. destruct (above_both _ _ _); [lia |].
    destruct (below_both _ _ _); lia. }
  assert (H4 : -1 <= delta_macd r <= 1).
  { unfold delta_macd. destruct (_ >? _)%fl; lia. }
  assert (H5 : -1 <= delta_bollinger r <= 1).
  { unfold delta_bollinger. destruct (_ <? _)%fl; [lia |].
    destruct (_ >? _)%fl; lia. }
  assert (H6 : -1 <= delta_ichimoku r <= 1).
  { unfold delta_ichimoku. destruct (_ >? _)%fl; [lia |].
    destruct (_ <? _)%fl; lia. }
  unfold total_delta. lia.
Qed.

Lemma run_blocks_result (last : row) :
  run_blocks blocks last
  = (total_delta last, flat_map (fun b => block_reasons b last) blocks).
Proof.
  unfold run_blocks. rewrite (fold_additive (blocks_additive last)).
  now rewrite block_deltas_total.
Qed.

Lemma reasons_count (last : row) :
  (7 <= length (snd (run_blocks blocks last)) <= 8)%nat.
Proof.
  rewrite run_blocks_result. cbn [snd]. unfold blocks. cbn [flat_map].
  rewrite !length_app. cbn [length].
  assert (H1 : length (block_reasons block_rsi last) = 1%nat).
  { unfold block_reasons, block_rsi. destruct (_ >? _)%fl; [reflexivity |].
    destruct (_ <? _)%fl; reflexivity. }
  assert (H2 : length (block_reasons block_short_trend last) = 1%nat).
  { unfold block_reasons, block_short_trend. destruct (_ && _); [reflexivity |].
    destruct (_ && _); reflexivity. }
  assert (H3 : length (block_reasons block_long_trend last) = 1%nat).
  { unfold block_reasons, block_long_trend. destruct (_ && _); [reflexivity |].
    destruct (_ && _); reflexivity. }
  assert (H4 : length (block_reasons block_macd last) = 1%nat).
  { unfold block_reasons, block_macd. destruct (_ >? _)%fl; reflexivity. }
  assert (H5 : (length (block_reasons block_bollinger last) <= 1)%nat).
  { unfold block_reasons, block_bollinger. destruct (_ <? _)%fl; [cbn; lia |].
    destruct (_ >? _)%fl; cbn; lia. }
  assert (H6 : length (block_reasons block_adx last) = 1%nat).
  { unfold block_reasons, block_adx. destruct (_ <? _)%fl; [reflexivity |].
    destruct (_ <? _)%fl; reflexivity. }
  assert (H7 : length (block_reasons block_ichimoku last) = 1%nat).
  { unfold block_reasons, block_ichimoku. destruct (_ >? _)%fl; [reflexivity |].
    destruct (_ <? _)%fl; reflexivity. }
  assert (H8 : length (block_reasons block_kijun last) = 1%nat).
  { unfold block_reasons, block_kijun. destruct (_ >? _)%fl; reflexivity. }
  lia.
Qed.

Lemma iloc_last_In (l : list row) (r : row) : iloc_last l = Ok r -> In r l.
Proof.
  unfold iloc_last. destruct (rev l) as [| x t] eqn:E; [discriminate |].
  intro H. injection H as ->. apply in_rev. rewrite E. now left.
Qed.

Lemma iloc_last_nonempty (l : list row) :
  l <> [] -> exists r, iloc_last l = Ok r.
Proof.
  intro H. unfold iloc_last. destruct (rev l) as [| x t] eqn:E.
  - exfalso. apply H. apply (f_equal (@rev row)) in E.
    now rewrite rev_involutive in E.
  - now exists x.
Qed.


(** X1. [run_technical_agent] fails in three ways and in no other: an
    exception of the data provider is passed on unchanged; an empty download
    and a download of fewer than 200 bars raise [ValueError], because the
    200-bar moving average leaves no complete row.  When it returns, at
    least 200 bars were downloaded, the frame it returns is the indicator
    frame of those bars, and that frame has between one row and the number
    of bars minus 199. *)
Theorem run_technical_agent_failures :
  forall (symbol style : string) (period : Z) (interval : string)
         (period_days : option Z),
    let p := match period_days with Some d => d | None => period end in
    let run := run_technical_agent ewm_mean sqrt download_data symbol style
                 period interval period_days in
    (forall e, download_data symbol p interval = Raise e -> run = Raise e)
    /\ (forall df, download_data symbol p interval = Ok df ->
                   (length df < 200)%nat ->
                   exists msg, run = Raise (ValueError msg))
    /\ (forall r, run = Ok r ->
                  exists df, download_data symbol p interval = Ok df
                             /\ (200 <= length df)%nat
                             /\ a_df r = compute_indicators ewm_mean sqrt df
                             /\ (1 <= length (a_df r) <= length df - 199)%nat).
Proof.
  intros symbol style period interval period_days p run.
  subst run. unfold run_technical_agent. fold p.
  split; [| split].
  - intros e E. now rewrite E.
  - intros df E Hlen. rewrite E. cbn [bind].
    destruct df as [| b df]; [eexists; reflexivity |].
    rewrite (@compute_indicators_short ewm_mean sqrt (b :: df) Hlen).
    eexists; reflexivity.
  - intros r Hr.
    destruct (download_data symbol p interval) as [df | e] eqn:E;
      [| discriminate].
    cbn [bind] in Hr. exists df. split; [reflexivity |].
    destruct df as [| b df]; [discriminate |].
    pose proof (@compute_indicators_length ewm_mean sqrt (b :: df)) as Hl.
    destruct (compute_indicators ewm_mean sqrt (b :: df)) as [| r0 rows] eqn:Ec;
      [discriminate |].
    unfold score_technical_indicators in Hr.
    destruct (iloc_last (r0 :: rows)) as [last | e] eqn:El;
      [| discriminate].
    cbn [bind] in Hr.
    destruct (run_blocks blocks last) as [sc rs].
    cbn [bind] in Hr. injection Hr as <-. cbn [a_df].
    cbn [length] in *. repeat split; lia.
Qed.

(** X2. A result of [run_technical_agent] is read off the last row of its
    indicator frame: the score is the sum of the six rule deltas of that
    row and lies between -7 and 7, the decision is the band of that score,
    there are seven or eight reasons, the last close and the ATR are those
    of that row, and no row of the frame holds a NaN. *)
Theorem run_technical_agent_result :
  forall (symbol style : string) (period : Z) (interval : string)
         (period_days : option Z) (r : analysis),
    run_technical_agent ewm_mean sqrt download_data symbol style period
      interval period_days = Ok r ->
    exists last,
      iloc_last (a_df r) = Ok last
      /\ a_score r = total_delta last
      /\ -7 <= a_score r <= 7
      /\ a_decision r = decision_from_score (a_score r)
      /\ a_reasons r = snd (run_blocks blocks last)
      /\ (7 <= length (a_reasons r) <= 8)%nat
      /\ a_last_close r = close last
      /\ a_atr14 r = atr14 last
      /\ Forall (fun row => existsb is_nan (row_fields row) = false) (a_df r).
Proof.
  intros symbol style period interval period_days r Hr.
  unfold run_technical_agent in Hr.
  destruct (download_data symbol _ interval) as [df | e]; [| discriminate].
  cbn [bind] in Hr. destruct df as [| b df]; [discriminate |].
  assert (Hrows : Forall (fun row => existsb is_nan (row_fields row) = false)
                         (compute_indicators ewm_mean sqrt (b :: df))).
  { apply Forall_forall. intros row Hin.
    now apply compute_indicators_rows in Hin. }
  destruct (compute_indicators ewm_mean sqrt (b :: df)) as [| r0 rows];
    [discriminate |].
  unfold score_technical_indicators in Hr.
  destruct (iloc_last (r0 :: rows)) as [last | e] eqn:El; [| discriminate].
  cbn [bind] in Hr.
  pose proof (run_blocks_result last) as Hb.
  destruct (run_blocks blocks last) as [sc rs] eqn:Erun.
  cbn [bind] in Hr. injection Hr as <-.
  cbn [a_df a_score a_decision a_reasons a_last_close a_atr14].
  injection Hb as Hsc Hrs.
  exists last. split; [exact El |]. split; [exact Hsc |].
  split; [rewrite Hsc; apply total_delta_bounds |].
  split; [reflexivity |]. split; [now rewrite Erun |].
  split.
  { pose proof (reasons_count last) as Hc. rewrite Erun in Hc. exact Hc. }
  split; [reflexivity |]. split; [reflexivity | exact Hrows].
Qed.

End AgentRun.

(* ================================================================== *)
(** * Ranges of the ATR and of the ADX *)
(* ================================================================== *)

Section Volatility.
Import Py Pandas TechnicalAgent Spec.
Local Open Scope float_scope.

Lemma map2_map {A B C D} (f : B -> C -> D) (g : A -> B) (h : A -> C) :
  forall l, map2 f (map g l) (map h l) = map (fun x => f (g x) (h x)) l.
Proof. induction l as [| a l IH]; cbn; [| rewrite IH]; reflexivity. Qed.

Lemma fabs_nonneg (x : float) : nonneg_or_nan (fabs x).
Proof.
  destruct x as [| | | q]; cbn [fabs nonneg_or_nan]; auto.
  rewrite Qred_correct. apply Qabs_nonneg.
Qed.

Lemma nanmax2_nonneg (a b : float) :
  nonneg_or_nan a -> nonneg_or_nan b -> nonneg_or_nan (nanmax2 a b).
Proof.
  intros Ha Hb. unfold nanmax2.
  destruct (is_nan a); [exact Hb |]. destruct (is_nan b); [exact Ha |].
  destruct (b >? a); assumption.
Qed.

Lemma range_nonneg (b : bar) : well_formed b -> nonneg_or_nan (High b - Low b).
Proof.
  unfold well_formed.
  destruct (High b) as [| | | h], (Low b) as [| | | l];
    cbn [fsub nonneg_or_nan]; auto; try discriminate.
  intro H. apply fle_Fin in H. rewrite Qred_correct. lra.
Qed.

Lemma true_range_nonneg (df : list bar) :
  Forall well_formed df -> Forall nonneg_or_nan (true_range df).
Proof.
  intro Hwf. unfold true_range, col.
  apply Forall_map2 with (P := nonneg_or_nan) (Q := nonneg_or_nan).
  - apply nanmax2_nonneg.
  - apply Forall_map2 with (P := nonneg_or_nan) (Q := nonneg_or_nan).
    + apply nanmax2_nonneg.
    + rewrite map2_map. apply Forall_forall. intros x Hx.
      apply in_map_iff in Hx. destruct Hx as (b & <- & Hb).
      apply range_nonneg. rewrite Forall_forall in Hwf. now apply Hwf.
    + unfold sabs. apply Forall_map_any. apply fabs_nonneg.
  - unfold sabs. apply Forall_map_any. apply fabs_nonneg.
Qed.

Lemma atr_nonneg (df : list bar) (period : nat) :
  Forall well_formed df -> Forall nonneg_or_nan (_atr df period).
Proof.
  intro Hwf. unfold _atr.
  apply Forall_rolling with (P := nonneg_or_nan);
    [exact I | apply mean_nonneg | now apply true_range_nonneg].
Qed.


Local Open Scope Q_scope.

Lemma fgt_zero_nonneg (x : float) :
  (x >? Fin 0)%fl = true -> nonneg_or_nan x.
Proof.
  destruct x as [| | | q]; cbn [nonneg_or_nan]; auto; try discriminate.
  intro H. apply fgt_Fin in H. lra.
Qed.

Lemma Forall_any {A} (l : list A) : Forall (fun _ => True) l.
Proof. apply Forall_forall. auto. Qed.

Lemma plus_dm_nonneg (df : list bar) : Forall nonneg_or_nan (plus_dm df).
Proof.
  unfold plus_dm.
  apply Forall_map2 with (P := fun _ => True) (Q := fun _ => True);
    [| apply Forall_any | apply Forall_any].
  intros up down _ _.
  destruct (up >? Fin 0)%fl eqn:E.
  - destruct (up >? down)%fl; cbn [andb];
      [now apply fgt_zero_nonneg | cbn; lra].
  - rewrite andb_false_r. cbn. lra.
Qed.

Lemma minus_dm_nonneg (df : list bar) : Forall nonneg_or_nan (minus_dm df).
Proof.
  unfold minus_dm.
  apply Forall_map2 with (P := fun _ => True) (Q := fun _ => True);
    [| apply Forall_any | apply Forall_any].
  intros up down _ _.
  destruct (down >? Fin 0)%fl eqn:E.
  - destruct (down >? up)%fl; cbn [andb];
      [now apply fgt_zero_nonneg | cbn; lra].
  - rewrite andb_false_r. cbn. lra.
Qed.

Lemma rolling_sum_nonneg (n : nat) (s : Series) :
  Forall nonneg_or_nan s -> Forall nonneg_or_nan (rolling n sum s).
Proof.
  apply Forall_rolling; [exact I |].
  intros w Hw He. now apply sum_nonneg.
Qed.

Lemma fmul_100_nonneg (x : float) :
  nonneg_or_nan x -> nonneg_or_nan (Fin 100 * x)%fl.
Proof.
  destruct x as [| | | q]; cbn [fmul nonneg_or_nan inf_of]; auto.
  intro H. rewrite Qred_correct. nra.
Qed.

Lemma fdiv_nonneg_any (a b : float) :
  nonneg_or_nan a -> nonneg_or_nan b -> nonneg_or_nan (a / b)%fl.
Proof.
  destruct a as [| | | x], b as [| | | y]; cbn [fdiv nonneg_or_nan];
    auto; try tauto.
  - intros _ Hy. destruct (Qcompare_spec y 0); cbn; auto. lra.
  - intros _ _. lra.
  - intros Hx Hy. destruct (Qcompare_spec y 0) as [E | E | E].
    + destruct (Qcompare_spec x 0); cbn; auto. lra.
    + lra.
    + cbn [nonneg_or_nan]. rewrite Qred_correct.
      apply Qle_shift_div_l; lra.
Qed.

Lemma plus_di_nonneg (df : list bar) (period : nat) :
  Forall well_formed df -> Forall nonneg_or_nan (plus_di df period).
Proof.
  intro Hwf. unfold plus_di.
  apply Forall_map2 with (P := nonneg_or_nan) (Q := nonneg_or_nan).
  - apply fdiv_nonneg_any.
  - apply Forall_forall. intros y Hy. apply in_map_iff in Hy.
    destruct Hy as (x & <- & Hx). apply fmul_100_nonneg.
    pose proof (rolling_sum_nonneg period (plus_dm_nonneg df)) as H.
    rewrite Forall_forall in H. now apply H.
  - apply rolling_sum_nonneg. now apply atr_nonneg.
Qed.

Lemma minus_di_nonneg (df : list bar) (period : nat) :
  Forall well_formed df -> Forall nonneg_or_nan (minus_di df period).
Proof.
  intro Hwf. unfold minus_di.
  apply Forall_map2 with (P := nonneg_or_nan) (Q := nonneg_or_nan).
  - apply fdiv_nonneg_any.
  - apply Forall_forall. intros y Hy. apply in_map_iff in Hy.
    destruct Hy as (x & <- & Hx). apply fmul_100_nonneg.
    pose proof (rolling_sum_nonneg period (minus_dm_nonneg df)) as H.
    rewrite Forall_forall in H. now apply H.
  - apply rolling_sum_nonneg. now apply atr_nonneg.
Qed.


Lemma dx_value_range (a b : float) :
  nonneg_or_nan a -> nonneg_or_nan b ->
  in_0_100_or_nan (fabs (a - b) / fabs (a + b) * Fin 100)%fl.
Proof.
  destruct a as [| | | x], b as [| | | y];
    cbn [fsub fadd fabs fdiv fmul nonneg_or_nan in_0_100_or_nan];
    auto; try tauto.
  intros Hx Hy.
  assert (Hd : Qred (Qabs (Qred (x + y))) == x + y).
  { rewrite !Qred_correct. apply Qabs_pos. lra. }
  assert (Hn : 0 <= Qred (Qabs (Qred (x - y))) <= x + y).
  { rewrite !Qred_correct. split; [apply Qabs_nonneg |].
    apply Qabs_Qle_condition. lra. }
  remember (Qred (Qabs (Qred (x + y)))) as D.
  remember (Qred (Qabs (Qred (x - y)))) as N.
  destruct (Qcompare_spec D 0) as [E | E | E].
  - assert (En : N == 0) by lra.
    apply Qeq_alt in En. rewrite En. exact I.
  - lra.
  - cbn [fmul in_0_100_or_nan]. rewrite !Qred_correct.
    assert (H1 : 0 <= N / D) by (apply Qle_shift_div_l; lra).
    assert (H2 : N / D <= 1) by (apply Qle_shift_div_r; lra).
    lra.
Qed.

Lemma dx_in_range (df : list bar) (period : nat) :
  Forall well_formed df -> Forall in_0_100_or_nan (dx df period).
Proof.
  intro Hwf. unfold dx, sabs.
  pose proof (plus_di_nonneg period Hwf) as Hp.
  pose proof (minus_di_nonneg period Hwf) as Hm.
  revert Hp Hm. generalize (plus_di df period) (minus_di df period).
  intros l1 l2 H1. revert l2.
  induction H1 as [| a l1 Ha _ IH]; intros l2 H2; [constructor |].
  destruct H2 as [| b l2 Hb H2]; cbn [map2 map]; constructor.
  - now apply dx_value_range.
  - now apply IH.
Qed.

Lemma sum_in_range (w : list float) :
  Forall in_0_100_or_nan w -> existsb is_nan w = false ->
  exists s, sum w = Fin s
            /\ 0 <= s <= 100 * inject_Z (Z.of_nat (length w)).
Proof.
  unfold sum.
  assert (G : forall acc a,
             acc = Fin a ->
             Forall in_0_100_or_nan w -> existsb is_nan w = false ->
             exists s, fold_left fadd w acc = Fin s
                       /\ a <= s <= a + 100 * inject_Z (Z.of_nat (length w))).
  { induction w as [| x w IH]; intros acc a Ea Hw He.
    - exists a. subst acc. cbn [fold_left length Z.of_nat inject_Z].
      split; [reflexivity |]. change (inject_Z 0) with 0. lra.
    - cbn [existsb] in He. apply orb_false_iff in He. destruct He as [Hx He].
      inversion Hw as [| ? ? Hrx Hw']; subst.
      destruct x as [| | | q]; try discriminate; try contradiction.
      cbn [in_0_100_or_nan] in Hrx.
      destruct (IH (Fin a + Fin q)%fl (Qred (a + q)) eq_refl Hw' He)
        as (s & Es & Hs).
      exists s. split; [exact Es |].
      rewrite Qred_correct in Hs.
      cbn [length]. rewrite Nat2Z.inj_succ, <- Z.add_1_r, inject_Z_plus.
      change (inject_Z 1) with 1. lra. }
  intros Hw He. destruct (G (Fin 0) 0 eq_refl Hw He) as (s & Es & Hs).
  exists s. split; [exact Es | lra].
Qed.

Lemma mean_in_range (w : list float) :
  Forall in_0_100_or_nan w -> existsb is_nan w = false ->
  in_0_100_or_nan (mean w).
Proof.
  intros Hw He. unfold mean, count, of_int.
  destruct (sum_in_range Hw He) as (s & Es & Hs). rewrite Es.
  cbn [fdiv].
  assert (Hn : 0 <= inject_Z (Z.of_nat (length w))).
  { change 0 with (inject_Z 0). rewrite <- Zle_Qle. lia. }
  destruct (Qcompare_spec (inject_Z (Z.of_nat (length w))) 0) as [E | E | E].
  - assert (E0 : s == 0) by nra. apply Qeq_alt in E0. rewrite E0. exact I.
  - lra.
  - cbn [in_0_100_or_nan]. rewrite Qred_correct. split.
    + apply Qle_shift_div_l; lra.
    + apply Qle_shift_div_r; lra.
Qed.

Lemma adx_in_range (df : list bar) (period : nat) :
  Forall well_formed df -> Forall in_0_100_or_nan (_adx df period).
Proof.
  intro Hwf. unfold _adx.
  apply Forall_rolling with (P := in_0_100_or_nan);
    [exact I | apply mean_in_range | now apply dx_in_range].
Qed.

Variable ewm_mean : nat -> Series -> Series.
Variable sqrt : float -> float.

Lemma nonneg_not_negative (x : float) :
  nonneg_or_nan x ->
  (x <? Fin 0)%fl = false
  /\ ((x <=? Fin 0)%fl = true <-> feq x (Fin 0) = true).
Proof.
  destruct x as [| | | q]; cbn [nonneg_or_nan]; intro H;
    try (split; [reflexivity | split; discriminate]); [contradiction |].
  split.
  - destruct (Fin q <? Fin 0)%fl eqn:E; [| reflexivity].
    apply flt_Fin in E. lra.
  - rewrite fle_Fin, feq_Fin. split; intro H'; lra.
Qed.

(** X3. For candles whose low does not exceed their high, the true range
    and the ATR of every bar are never negative (they are NaN, or zero or
    more), whatever the period.  The ATR of a row of the indicator frame is
    a number, is not below zero, and is "<= 0" exactly when it is zero. *)
Theorem atr_is_never_negative :
  forall (df : list bar) (period : nat),
    Forall well_formed df ->
    Forall nonneg_or_nan (true_range df)
    /\ Forall nonneg_or_nan (_atr df period)
    /\ (forall i, (at_ (_atr df period) i <? Fin 0)%fl = false)
    /\ (forall r, In r (compute_indicators ewm_mean sqrt df) ->
                  is_nan (atr14 r) = false
                  /\ (atr14 r <? Fin 0)%fl = false
                  /\ ((atr14 r <=? Fin 0)%fl = true
                      <-> feq (atr14 r) (Fin 0) = true)).
Proof.
  intros df period Hwf.
  split; [now apply true_range_nonneg |].
  split; [now apply atr_nonneg |].
  split.
  - intro i. apply nonneg_not_negative.
    apply at_Forall; [exact I | now apply atr_nonneg].
  - intros r Hr. apply compute_indicators_rows in Hr.
    destruct Hr as (Hf & i & Hi & _ & _ & Ea & _).
    split.
    + unfold row_fields in Hf. cbn [existsb] in Hf.
      repeat (apply orb_false_iff in Hf; destruct Hf as [? Hf]).
      assumption.
    + rewrite Ea. apply nonneg_not_negative.
      apply at_Forall; [exact I | now apply atr_nonneg].
Qed.

(** X4. For candles whose low does not exceed their high, +DI and -DI are
    never negative, and DX and the ADX of every bar are NaN or lie between
    0 and 100, whatever the period.  The ADX of a row of the indicator frame
    is a number between 0 and 100. *)
Theorem adx_is_a_percentage :
  forall (df : list bar) (period : nat),
    Forall well_formed df ->
    Forall nonneg_or_nan (plus_di df period)
    /\ Forall nonneg_or_nan (minus_di df period)
    /\ Forall in_0_100_or_nan (dx df period)
    /\ Forall in_0_100_or_nan (_adx df period)
    /\ (forall r, In r (compute_indicators ewm_mean sqrt df) ->
                  exists q, adx14 r = Fin q /\ 0 <= q <= 100).
Proof.
  intros df period Hwf.
  split; [now apply plus_di_nonneg |].
  split; [now apply minus_di_nonneg |].
  split; [now apply dx_in_range |].
  split; [now apply adx_in_range |].
  intros r Hr. apply compute_indicators_rows in Hr.
  destruct Hr as (Hf & i & Hi & _ & _ & _ & Ea).
  apply row_field_not_nan in Hf. destruct Hf as [_ Hn].
  assert (Hrange : in_0_100_or_nan (adx14 r)).
  { rewrite Ea. apply at_Forall; [exact I | now apply adx_in_range]. }
  destruct (adx14 r) as [| | | q]; try discriminate; try contradiction.
  now exists q.
Qed.

End Volatility.

(* ================================================================== *)
(** * More on the paper-trading ledger *)
(* ================================================================== *)

Section LedgerMore.
Import Py PaperTrading Spec.
Local Open Scope float_scope.

Lemma fold_max_ge (l : list Z) : forall a,
  (a <= fold_left Z.max l a)%Z
  /\ forall x, In x l -> (x <= fold_left Z.max l a)%Z.
Proof.
  induction l as [| y l IH]; intro a; cbn [fold_left].
  - split; [lia | intros x []].
  - destruct (IH (Z.max a y)) as [H1 H2]. split; [lia |].
    intros x [-> | Hx]; [lia | now apply H2].
Qed.

Lemma max_id_ge (df : list trade) (t : trade) :
  In t df -> (id t <= max_id df)%Z.
Proof.
  destruct df as [| t0 rest]; [intros [] |].
  unfold max_id. destruct (fold_max_ge (map id rest) (id t0)) as [H1 H2].
  intros [<- | Hin]; [exact H1 |].
  apply H2. now apply in_map.
Qed.

(** X5. [open_trade] appends exactly one row to the ledger, creating the
    file when it is absent, and leaves the earlier rows as they were.  The
    new id is 1 in an empty ledger and otherwise above every id present, so
    distinct ids stay distinct.  The row is OPEN, has no close time, its
    last price is the entry, its profit and loss are zero, and its risk
    amount is |entry - stop| times the lot. *)
Theorem open_trade_appends_fresh_row :
  forall now_iso sym sd style lot entry sl tp capital (f : file),
    let row := fst (open_trade now_iso sym sd style lot entry sl tp capital f) in
    let f' := snd (open_trade now_iso sym sd style lot entry sl tp capital f) in
    f' = Some (rows_of f ++ [row])
    /\ (forall t, In t (rows_of f) -> (id t < id row)%Z)
    /\ (rows_of f = [] -> id row = 1%Z)
    /\ (NoDup (map id (rows_of f)) -> NoDup (map id (rows_of f')))
    /\ symbol row = sym /\ side row = upper sd
    /\ status row = "OPEN"%string /\ close_time row = ""%string
    /\ last_price row = entry /\ pnl row = Fin 0 /\ pnl_pct row = Fin 0
    /\ risk_amount row = abs (entry - sl) * lot.
Proof.
  intros now_iso sym sd style lot entry sl tp capital f row f'.
  assert (E : open_trade now_iso sym sd style lot entry sl tp capital f
              = (row, Some (rows_of f ++ [row]))).
  { subst row f'. unfold open_trade, load_trades, _ensure_file, save_trades.
    destruct f as [rows |]; reflexivity. }
  assert (Hid : id row = match rows_of f with
                         | [] => 1%Z
                         | _ => (max_id (rows_of f) + 1)%Z
                         end).
  { subst row. unfold open_trade, load_trades, _ensure_file.
    destruct f as [rows |]; reflexivity. }
  assert (Hlt : forall t, In t (rows_of f) -> (id t < id row)%Z).
  { intros t Ht. rewrite Hid. pose proof (max_id_ge _ _ Ht) as Hm.
    destruct (rows_of f); [destruct Ht | lia]. }
  split; [subst f'; now rewrite E |].
  split; [exact Hlt |].
  split; [intro E0; now rewrite Hid, E0 |].
  split.
  { intro Hnd. subst f'. rewrite E. cbn [snd rows_of].
    rewrite map_app. cbn [map].
    apply NoDup_app; [exact Hnd | repeat constructor; auto |].
    intros x Hx [<- | []]. apply in_map_iff in Hx.
    destruct Hx as (t & Et & Ht). apply Hlt in Ht. lia. }
  subst row. unfold open_trade, load_trades, _ensure_file.
  destruct f as [rows |]; cbn; repeat split; reflexivity.
Qed.


Lemma update_row_settles sym price capital t t' row :
  processed sym row = true ->
  let row' := update_row price capital t row in
  (if processed sym row' then update_row price capital t' row' else row')
  = row'.
Proof.
  intros Hp row'. subst row'. unfold processed in *.
  apply andb_true_iff in Hp. destruct Hp as [Hs Ho].
  unfold update_row.
  destruct (String.eqb (upper (side row)) "LONG") eqn:Eside.
  - destruct ((price >=? take_profit row) || (price <=? stop_loss row))
      eqn:Ehit; cbn [symbol status side entry stop_loss take_profit lot
                     id style open_time close_time risk_amount gain_amount].
    + rewrite Hs. reflexivity.
    + rewrite Hs, Ho, Eside, Ehit. reflexivity.
  - destruct ((price <=? take_profit row) || (price >=? stop_loss row))
      eqn:Ehit; cbn [symbol status side entry stop_loss take_profit lot
                     id style open_time close_time risk_amount gain_amount].
    + rewrite Hs. reflexivity.
    + rewrite Hs, Ho, Eside, Ehit. reflexivity.
Qed.

Lemma update_rows_settle sym price capital u1 u2 :
  forall df k k',
    update_rows sym price capital u2 k'
      (update_rows sym price capital u1 k df)
    = update_rows sym price capital u1 k df.
Proof.
  induction df as [| row df IH]; intros k k'; [reflexivity |].
  cbn [update_rows]. rewrite IH. f_equal.
  destruct (processed sym row) eqn:Hp.
  - apply (@update_row_settles sym price capital (u1 k) (u2 k') row Hp).
  - now rewrite Hp.
Qed.

(** X6. Observing the same price for the same symbol a second time changes
    nothing: the second call of [update_trades_with_price] returns the frame
    and leaves the file that the first call produced, whatever the clock
    reads; in particular a closed trade keeps its close time. *)
Theorem update_is_idempotent :
  forall (u1 u2 : nat -> string) sym price capital (f : file),
    update_trades_with_price u2 sym price capital
      (snd (update_trades_with_price u1 sym price capital f))
    = update_trades_with_price u1 sym price capital f.
Proof.
  intros u1 u2 sym price capital f. destruct f as [rows |].
  - rewrite !update_trades_frame. cbn [snd].
    rewrite update_trades_frame. now rewrite update_rows_settle.
  - reflexivity.
Qed.


(** X7. An open trade with a non-negative lot that an observed price
    closes is booked at the observed price, not at the level: for LONG a
    price at or above the target closes it with a profit of at least
    (target - entry) * lot, and a price at or below the stop closes it with
    a result of at most (stop - entry) * lot; SHORT is mirrored. *)
Theorem closing_pnl_reaches_level :
  forall (utcnow : nat -> string) sym capital rows idx row (e s t l p : Q),
    nth_error rows idx = Some row ->
    symbol row = sym ->
    upper (status row) = "OPEN"%string ->
    entry row = Fin e -> stop_loss row = Fin s -> take_profit row = Fin t ->
    lot row = Fin l -> (0 <= l)%Q ->
    exists row' v,
      nth_error (fst (update_trades_with_price utcnow sym (Fin p) capital
                        (Some rows))) idx = Some row'
      /\ pnl row' = Fin v
      /\ (upper (side row) = "LONG"%string ->
          ((t <= p)%Q -> status row' = "CLOSED"%string /\ ((t - e) * l <= v)%Q)
          /\ ((p <= s)%Q ->
              status row' = "CLOSED"%string /\ (v <= (s - e) * l)%Q))
      /\ (upper (side row) = "SHORT"%string ->
          ((p <= t)%Q -> status row' = "CLOSED"%string /\ ((e - t) * l <= v)%Q)
          /\ ((s <= p)%Q ->
              status row' = "CLOSED"%string /\ (v <= (e - s) * l)%Q)).
Proof.
  intros utcnow sym capital rows idx row e s t l p Hnth Hsym Hopen
         Ee Es Et El Hl.
  assert (Hproc : processed sym row = true).
  { unfold processed. rewrite Hsym, Hopen, String.eqb_refl. reflexivity. }
  rewrite update_trades_frame. cbn [fst].
  rewrite update_rows_nth, Hnth. cbn [option_map]. rewrite Hproc.
  unfold update_row. rewrite Ee, Es, Et, El.
  destruct (String.eqb (upper (side row)) "LONG") eqn:Eside.
  - eexists. exists (Qred (Qred (p - e) * l)). split; [reflexivity |].
    cbn [pnl status]. split; [reflexivity |]. split.
    + intros _. split; intro H.
      * assert (Hh : (Fin p >=? Fin t) = true) by now apply fge_Fin.
        rewrite Hh. cbn [orb]. split; [reflexivity |].
        rewrite !Qred_correct. nra.
      * assert (Hh : (Fin p <=? Fin s) = true) by now apply fle_Fin.
        rewrite Hh, orb_true_r. split; [reflexivity |].
        rewrite !Qred_correct. nra.
    + intro E. rewrite E in Eside. discriminate Eside.
  - eexists. exists (Qred (Qred (e - p) * l)). split; [reflexivity |].
    cbn [pnl status]. split; [reflexivity |]. split.
    + intro E. rewrite E in Eside. discriminate Eside.
    + intros _. split; intro H.
      * assert (Hh : (Fin p <=? Fin t) = true) by now apply fle_Fin.
        rewrite Hh. cbn [orb]. split; [reflexivity |].
        rewrite !Qred_correct. nra.
      * assert (Hh : (Fin p >=? Fin s) = true) by now apply fge_Fin.
        rewrite Hh, orb_true_r. split; [reflexivity |].
        rewrite !Qred_correct. nra.
Qed.

End LedgerMore.

(* ================================================================== *)
(** * Geometry of an order *)
(* ================================================================== *)

Section OrderGeometry.
Import Py OrderAgent.
Local Open Scope Q_scope.

Lemma fdiv_Fin_pos (a b : Q) :
  0 < b -> fdiv (Fin a) (Fin b) = Fin (Qred (a / b)).
Proof.
  intro H. unfold fdiv. apply Qgt_alt in H. now rewrite H.
Qed.

(** The levels, the size and the notional of an order built from finite
    inputs are finite; the levels lie on the two sides of the entry. *)
Lemma order_levels_sides cfg now sym nm cat ta comp log o log' (e t a r : Q) :
  build_order_from_analysis cfg now sym nm cat ta comp log
  = (Some o, log') ->
  last_price (ind ta) = Fin e -> ind_atr14 (ind ta) = Fin t ->
  Config.ACCOUNT_SIZE cfg = Fin a -> Config.RISK_PER_TRADE_PCT cfg = Fin r ->
  exists sl tp ra ps nt,
    entry o = Fin e
    /\ stop_loss o = Fin sl /\ take_profit o = Fin tp
    /\ risk_amount o = Fin ra
    /\ position_size o = Fin ps /\ notional o = Fin nt
    /\ (side o = "LONG"%string -> 0 < sl /\ sl < e /\ e < tp)
    /\ (side o = "SHORT"%string -> 0 < tp /\ tp < e /\ e < sl)
    /\ (0 <= a -> 0 <= r -> 0 <= ra /\ 0 <= ps /\ 0 <= nt).
Proof.
  intros H Ee Et Ea Er.
  apply build_order_some in H.
  destruct H as (sd & Hs & Ha & Hp & He & Hsd & Hl & Hsl & Htp & Hr & Hd
                 & Hps & Hn & _).
  destruct (atr_mult_sl_positive cat) as (m & Em & Hm).
  rewrite Et in Ha. apply fle_Fin_false in Ha.
  rewrite Ee in Hp. apply fle_Fin_false in Hp.
  assert (Htm : 0 < t * m) by (apply Qmult_lt_0_compat; assumption).
  rewrite Ee, Et, Em in Hl. rewrite Ea, Er in Hr. rewrite Ee in He.
  assert (Hside : sd = "LONG"%string \/ sd = "SHORT"%string).
  { destruct (choose_side_cases (score ta) comp)
      as [[E _] | [[E _] | [E _]]]; rewrite E in Hs;
      [left | right |]; congruence. }
  assert (Hrisk : risk_amount o = Fin (Qred (a * Qred (r / Qred 100.0)))).
  { rewrite Hr. unfold lit. rewrite fdiv_Fin_pos by (rewrite Qred_correct; lra).
    reflexivity. }
  assert (Hra : 0 <= a -> 0 <= r -> 0 <= Qred (a * Qred (r / Qred 100.0))).
  { intros Ha0 Hr0. rewrite !Qred_correct.
    apply Qmult_le_0_compat; [exact Ha0 |]. apply Qle_shift_div_l; lra. }
  set (ra := Qred (a * Qred (r / Qred 100.0))) in *.
  assert (Hsize : forall D, 0 < D -> 0 <= a -> 0 <= r ->
                    0 <= Qred (ra / D) /\ 0 <= Qred (Qred (ra / D) * e)).
  { intros D HD Ha0 Hr0. pose proof (Hra Ha0 Hr0) as H0.
    assert (0 <= ra / D) by (apply Qle_shift_div_l; lra).
    rewrite !Qred_correct. split; [assumption |].
    apply Qmult_le_0_compat; lra. }
  destruct Hside as [-> | ->]; unfold levels in Hl;
    cbn [String.eqb Ascii.eqb Bool.eqb] in Hl;
    unfold lit, fmul, fsub, fadd in Hl;
    apply (f_equal fst) in Hl as Hl1; apply (f_equal snd) in Hl as Hl2;
    cbn [fst snd] in Hl1, Hl2;
    rewrite Hl1 in Hsl; rewrite Hl2 in Htp;
    apply fle_Fin_false in Hsl; apply fle_Fin_false in Htp;
    repeat rewrite Qred_correct in Hsl; repeat rewrite Qred_correct in Htp;
    rewrite He, Hl1 in Hps, Hd; unfold abs, fabs, fsub in Hps, Hd;
    apply fle_Fin_false in Hd;
    rewrite Hrisk, fdiv_Fin_pos in Hps by exact Hd;
    rewrite Hps, He in Hn; unfold fmul in Hn.
  - do 5 eexists.
    split; [exact He |]. split; [exact Hl1 |]. split; [exact Hl2 |].
    split; [exact Hrisk |]. split; [exact Hps |]. split; [exact Hn |].
    rewrite Hsd.
    split; [intros _; rewrite !Qred_correct; lra |].
    split; [discriminate |].
    intros Ha0 Hr0. split; [now apply Hra |]. now apply Hsize.
  - do 5 eexists.
    split; [exact He |]. split; [exact Hl1 |]. split; [exact Hl2 |].
    split; [exact Hrisk |]. split; [exact Hps |]. split; [exact Hn |].
    rewrite Hsd.
    split; [discriminate |].
    split; [intros _; rewrite !Qred_correct; lra |].
    intros Ha0 Hr0. split; [now apply Hra |]. now apply Hsize.
Qed.

(** X8. For finite inputs, an order returned by
    [build_order_from_analysis] has its levels on the right sides of the
    entry: 0 < stop < entry < target for LONG and 0 < target < entry < stop
    for SHORT.  With a non-negative account size and risk percent, the risk
    amount, the position size and the notional are not negative. *)
Theorem order_geometry :
  forall cfg now sym nm cat ta comp log o log' (e t a r : Q),
    build_order_from_analysis cfg now sym nm cat ta comp log
    = (Some o, log') ->
    last_price (ind ta) = Fin e -> ind_atr14 (ind ta) = Fin t ->
    Config.ACCOUNT_SIZE cfg = Fin a -> Config.RISK_PER_TRADE_PCT cfg = Fin r ->
    (side o = "LONG"%string ->
     (Fin 0 <? stop_loss o)%fl = true /\ (stop_loss o <? entry o)%fl = true
     /\ (entry o <? take_profit o)%fl = true)
    /\ (side o = "SHORT"%string ->
        (Fin 0 <? take_profit o)%fl = true
        /\ (take_profit o <? entry o)%fl = true
        /\ (entry o <? stop_loss o)%fl = true)
    /\ (0 <= a -> 0 <= r ->
        (Fin 0 <=? risk_amount o)%fl = true
        /\ (Fin 0 <=? position_size o)%fl = true
        /\ (Fin 0 <=? notional o)%fl = true).
Proof.
  intros cfg now sym nm cat ta comp log o log' e t a r H Ee Et Ea Er.
  destruct (order_levels_sides _ _ _ _ _ _ _ _ H Ee Et Ea Er)
    as (sl & tp & ra & ps & nt & He & Hsl & Htp & Hra & Hps & Hnt
        & HL & HS & Hpos).
  rewrite He, Hsl, Htp, Hra, Hps, Hnt. split; [| split].
  - intro E. destruct (HL E) as (H1 & H2 & H3).
    repeat split; now apply flt_Fin.
  - intro E. destruct (HS E) as (H1 & H2 & H3).
    repeat split; now apply flt_Fin.
  - intros Ha0 Hr0. destruct (Hpos Ha0 Hr0) as (H1 & H2 & H3).
    repeat split; now apply fle_Fin.
Qed.

End OrderGeometry.

(* ================================================================== *)
(** * The risk helpers of the dashboard *)
(* ================================================================== *)

Section Dashboard.
Import Py App Spec.
Local Open Scope Q_scope.

Lemma compute_sl_tp_shape (c t : Q) (direction style : string) :
  exists ms mt sl tp,
    0 < ms /\ 0 < mt
    /\ compute_sl_tp (Fin c) (Fin t) direction style = (Fin c, Fin sl, Fin tp)
    /\ (upper direction = "LONG"%string ->
        sl == c - ms * t /\ tp == c + mt * t)
    /\ (upper direction <> "LONG"%string ->
        sl == c + ms * t /\ tp == c - mt * t).
Proof.
  unfold compute_sl_tp.
  destruct (String.eqb (lower style) "scalping");
    [| destruct (String.eqb (lower style) "position")];
    destruct (String.eqb (upper direction) "LONG") eqn:Ed;
    unfold lit, fmul, fsub, fadd;
    (do 4 eexists; split; [| split; [| split; [reflexivity |]]];
     [| | split;
          [intro E; try (rewrite E in Ed; discriminate Ed);
           rewrite !Qred_correct; split; reflexivity
          |intro E; try (apply String.eqb_eq in Ed; contradiction);
           rewrite !Qred_correct; split; reflexivity]]);
    reflexivity.
Qed.

(** X9. With a finite close and a non-negative ATR, [compute_sl_tp]
    returns the close as entry and never puts a level on the wrong side:
    stop <= entry <= target for LONG, target <= entry <= stop for every
    other direction; with an ATR of zero both levels are the entry.  On
    ASCII text direction and style are read without regard to case, and a
    style that is neither scalping nor position gets the levels of
    swing. *)
Theorem compute_sl_tp_levels :
  forall (c t : Q) (direction style : string),
    0 <= t ->
    let lv := compute_sl_tp (Fin c) (Fin t) direction style in
    let stop := snd (fst lv) in
    let target := snd lv in
    fst (fst lv) = Fin c
    /\ (upper direction = "LONG"%string ->
        (stop <=? Fin c)%fl = true /\ (Fin c <=? target)%fl = true)
    /\ (upper direction <> "LONG"%string ->
        (target <=? Fin c)%fl = true /\ (Fin c <=? stop)%fl = true)
    /\ (t == 0 -> feq stop (Fin c) = true /\ feq target (Fin c) = true)
    /\ (is_ascii direction -> is_ascii style ->
        compute_sl_tp (Fin c) (Fin t) (upper direction) (lower style) = lv)
    /\ (lower style <> "scalping"%string -> lower style <> "position"%string ->
        compute_sl_tp (Fin c) (Fin t) direction "swing" = lv).
Proof.
  intros c t direction style Ht lv stop target.
  destruct (compute_sl_tp_shape c t direction style)
    as (ms & mt & sl & tp & Hms & Hmt & E & HL & HS).
  subst stop target lv. rewrite E. cbn [fst snd].
  split; [reflexivity |].
  split.
  { intro Ed. destruct (HL Ed) as [Es Et].
    split; apply fle_Fin; rewrite ?Es, ?Et; nra. }
  split.
  { intro Ed. destruct (HS Ed) as [Es Et].
    split; apply fle_Fin; rewrite ?Es, ?Et; nra. }
  split.
  { intro Hz.
    destruct (string_dec (upper direction) "LONG") as [Ed | Ed].
    - destruct (HL Ed) as [Es Et].
      split; apply feq_Fin; rewrite ?Es, ?Et, Hz; ring.
    - destruct (HS Ed) as [Es Et].
      split; apply feq_Fin; rewrite ?Es, ?Et, Hz; ring. }
  split.
  { intros _ _. rewrite <- E. unfold compute_sl_tp.
    now rewrite upper_idem, lower_idem. }
  intros H1 H2. rewrite <- E. unfold compute_sl_tp.
  apply String.eqb_neq in H1, H2. rewrite H1, H2. reflexivity.
Qed.

Lemma fabs_Fin_zero (x : Q) :
  (Fin (Qred (Qabs x)) <=? Fin 0)%fl = true <-> x == 0.
Proof.
  rewrite fle_Fin, Qred_correct. split; intro H.
  - apply Qabs_Qle_condition in H. lra.
  - apply Qabs_Qle_condition. lra.
Qed.

Lemma abs_sub_sym (e s : Q) : abs (Fin s - Fin e) = abs (Fin e - Fin s).
Proof.
  unfold abs, fabs, fsub. apply Fin_Qred_eq. rewrite !Qred_correct.
  setoid_replace (s - e) with (- (e - s)) by ring. apply Qabs_opp.
Qed.

Lemma max_zero_nonneg (g : Q) :
  exists g0, max (Fin g) (Fin 0) = Fin g0 /\ 0 <= g0.
Proof.
  unfold max. destruct (Fin 0 >? Fin g)%fl eqn:E0.
  - exists 0. split; [reflexivity | lra].
  - exists g. split; [reflexivity |].
    apply Qnot_lt_le. intro Hlt. apply fgt_Fin in Hlt. congruence.
Qed.

(** X10. For finite inputs [compute_position_size] reports the risk amount
    capital * (risk_pct / 100).  When entry and stop coincide it reports
    size, gain and margin 0 and divides by nothing.  Otherwise the size is
    the risk amount over |entry - stop| for either direction; size and gain
    are not negative when capital and risk percent are not; the margin is
    entry * size / leverage for a positive leverage and 0 otherwise; and
    the gain percent is 0 when the capital is not positive. *)
Theorem compute_position_size_risk :
  forall (cp r e s tp lv : Q) (direction : string),
    let z := compute_position_size (Fin cp) (Fin r) (Fin e) (Fin s) (Fin tp)
               (Fin lv) direction in
    risk_amount z = (Fin cp * (Fin r / lit 100.0))%fl
    /\ risk_pct z = Fin r
    /\ (e == s ->
        size z = Fin 0 /\ gain_amount z = Fin 0 /\ gain_pct z = Fin 0
        /\ margin_required z = Fin 0)
    /\ (~ e == s ->
        size z = (risk_amount z / abs (Fin e - Fin s))%fl
        /\ (0 <= cp -> 0 <= r ->
            (Fin 0 <=? size z)%fl = true
            /\ (Fin 0 <=? gain_amount z)%fl = true)
        /\ (lv <= 0 -> margin_required z = Fin 0)
        /\ (0 < lv -> margin_required z = (Fin e * size z / Fin lv)%fl)
        /\ (cp <= 0 -> gain_pct z = Fin 0)).
Proof.
  intros cp r e s tp lv direction z. subst z. unfold compute_position_size.
  assert (Hloss : forall x y : Q, abs (Fin x - Fin y) = abs (Fin e - Fin s) ->
            (abs (Fin x - Fin y) <=? Fin 0)%fl = true <-> e == s).
  { intros x y ->. unfold abs, fabs, fsub. rewrite fabs_Fin_zero, Qred_correct.
    split; intro H; lra. }
  assert (Hrisk : exists R, (Fin cp * (Fin r / lit 100.0))%fl = Fin R
                            /\ (0 <= cp -> 0 <= r -> 0 <= R)).
  { unfold lit, fdiv, fmul. change (Qred 100.0 ?= 0) with Gt.
    eexists. split; [reflexivity |]. intros H1 H2. rewrite !Qred_correct.
    apply Qmult_le_0_compat; [exact H1 |]. apply Qle_shift_div_l; lra. }
  destruct Hrisk as (R & ER & HR).
  assert (Hbody : forall (x y g : Q),
     abs (Fin x - Fin y) = abs (Fin e - Fin s) ->
     let z :=
       let per_unit_loss := abs (Fin x - Fin y) in
       let per_unit_gain := max (Fin g) (Fin 0) in
       if (per_unit_loss <=? Fin 0)%fl
       then mkSizing (Fin 0) (Fin cp * (Fin r / lit 100.0))%fl (Fin r)
                     (Fin 0) (Fin 0) (Fin 0)
       else
         let size := (Fin cp * (Fin r / lit 100.0) / per_unit_loss)%fl in
         let margin_required :=
           if (Fin lv >? Fin 0)%fl then (Fin e * size / Fin lv)%fl
           else Fin 0 in
         let gain_amount := (per_unit_gain * size)%fl in
         let gain_pct :=
           if (Fin cp >? Fin 0)%fl
           then (gain_amount / Fin cp * lit 100.0)%fl else Fin 0 in
         mkSizing size (Fin cp * (Fin r / lit 100.0))%fl (Fin r) gain_amount
                  gain_pct margin_required in
     risk_amount z = (Fin cp * (Fin r / lit 100.0))%fl
     /\ risk_pct z = Fin r
     /\ (e == s ->
         size z = Fin 0 /\ gain_amount z = Fin 0 /\ gain_pct z = Fin 0
         /\ margin_required z = Fin 0)
     /\ (~ e == s ->
         size z = (risk_amount z / abs (Fin e - Fin s))%fl
         /\ (0 <= cp -> 0 <= r ->
             (Fin 0 <=? size z)%fl = true
             /\ (Fin 0 <=? gain_amount z)%fl = true)
         /\ (lv <= 0 -> margin_required z = Fin 0)
         /\ (0 < lv -> margin_required z = (Fin e * size z / Fin lv)%fl)
         /\ (cp <= 0 -> gain_pct z = Fin 0))).
  { intros x y g Hxy. cbv zeta.
    pose proof (Hloss x y Hxy) as Hz.
    destruct (abs (Fin x - Fin y) <=? Fin 0)%fl eqn:Eg;
      cbn [size risk_amount risk_pct gain_amount gain_pct margin_required].
    - split; [reflexivity |]. split; [reflexivity |]. split; [auto |].
      intro Hne. exfalso. apply Hne. now apply Hz.
    - split; [reflexivity |]. split; [reflexivity |]. split.
      { intro E. apply Hz in E. discriminate E. }
      intros _. rewrite Hxy in *. split; [reflexivity |].
      assert (HD : exists D, abs (Fin e - Fin s) = Fin D /\ 0 < D).
      { unfold abs, fabs, fsub. eexists. split; [reflexivity |].
        unfold abs, fabs, fsub in Eg. now apply fle_Fin_false in Eg. }
      destruct HD as (D & ED & HDp). rewrite ED, ER.
      rewrite fdiv_Fin_pos by exact HDp.
      destruct (max_zero_nonneg g) as (g0 & Eg0 & Hg0). rewrite Eg0.
      split.
      { intros H1 H2. pose proof (HR H1 H2) as H0.
        assert (0 <= R / D) by (apply Qle_shift_div_l; lra).
        unfold fmul. split; apply fle_Fin; rewrite !Qred_correct;
          [assumption | apply Qmult_le_0_compat; assumption]. }
      split.
      { intro Hlv. assert (El : (Fin lv >? Fin 0)%fl = false).
        { destruct (Fin lv >? Fin 0)%fl eqn:E; [| reflexivity].
          apply fgt_Fin in E. lra. }
        now rewrite El. }
      split.
      { intro Hlv.
        assert (El : (Fin lv >? Fin 0)%fl = true) by now apply fgt_Fin.
        now rewrite El. }
      intro Hcp. assert (El : (Fin cp >? Fin 0)%fl = false).
      { destruct (Fin cp >? Fin 0)%fl eqn:E; [| reflexivity].
        apply fgt_Fin in E. lra. }
      now rewrite El. }
  destruct (String.eqb (upper direction) "LONG").
  - unfold fsub at 2. exact (Hbody e s (Qred (tp - e)) eq_refl).
  - unfold fsub at 2. exact (Hbody s e (Qred (e - tp)) (abs_sub_sym e s)).
Qed.

End Dashboard.

Section OpenThenUpdate.
Import Py App PaperTrading Spec.
Local Open Scope Q_scope.

Lemma Fin_Qred_zero (x : Q) : x == 0 -> Fin (Qred x) = Fin 0.
Proof. intro H. f_equal. now apply (Qred_complete x 0). Qed.

(** The status and the close time written by one update, from the two
    triggers [a] (target) and [b] (stop). *)
Lemma close_flag (a b : bool) (P Q : Prop) (now : string) :
  (a = true <-> Q) -> (b = true <-> P) ->
  let st := if a || b then "CLOSED"%string else "OPEN"%string in
  let ct := if a || b then now else ""%string in
  (st = "OPEN"%string \/ st = "CLOSED"%string)
  /\ (st = "CLOSED"%string <-> P \/ Q)
  /\ (st = "OPEN"%string -> ct = ""%string)
  /\ (a = true -> st = "CLOSED"%string /\ ct = now).
Proof.
  intros Ha Hb st ct. subst st ct. destruct a, b; cbn [orb].
  - split; [now right |]. split; [| split; [discriminate | now split]].
    split; [intros _; right; now apply Ha | reflexivity].
  - split; [now right |]. split; [| split; [discriminate | now split]].
    split; [intros _; right; now apply Ha | reflexivity].
  - split; [now right |]. split; [| split; [discriminate | discriminate]].
    split; [intros _; left; now apply Hb | reflexivity].
  - split; [now left |]. split; [| split; [reflexivity | discriminate]].
    split; [discriminate |].
    intros [H | H]; [apply Hb in H | apply Ha in H]; discriminate.
Qed.

(** X11. A trade opened at the levels of [compute_sl_tp] (finite close,
    non-negative ATR) and then observed at its entry price shows that price
    and a profit of zero.  The observation closes it exactly when the stop
    or the target equals the entry, which an ATR of zero forces; otherwise
    it stays OPEN with no close time. *)
Theorem opened_trade_at_entry_price :
  forall now_iso (utcnow : nat -> string) sym direction style capital
         (f : file) (c t l : Q),
    0 <= t ->
    let lv := compute_sl_tp (Fin c) (Fin t) direction style in
    let f' := snd (open_trade now_iso sym direction style (Fin l)
                     (fst (fst lv)) (snd (fst lv)) (snd lv) capital f) in
    exists row',
      nth_error (fst (update_trades_with_price utcnow sym (Fin c) capital f'))
                (length (rows_of f)) = Some row'
      /\ last_price row' = Fin c /\ pnl row' = Fin 0
      /\ (status row' = "OPEN"%string \/ status row' = "CLOSED"%string)
      /\ (status row' = "CLOSED"%string
          <-> feq (snd (fst lv)) (Fin c) = true
              \/ feq (snd lv) (Fin c) = true)
      /\ (status row' = "OPEN"%string -> close_time row' = ""%string)
      /\ (t == 0 -> status row' = "CLOSED"%string
                    /\ close_time row' = utcnow (length (rows_of f))).
Proof.
  intros now_iso utcnow sym direction style capital f c t l Ht lv f'.
  destruct (compute_sl_tp_shape c t direction style)
    as (ms & mt & sl & tp & Hms & Hmt & E & HL & HS).
  subst lv f'. rewrite E. cbn [fst snd].
  assert (Eo : snd (open_trade now_iso sym direction style (Fin l) (Fin c)
                      (Fin sl) (Fin tp) capital f)
               = Some (rows_of f ++
                       [fst (open_trade now_iso sym direction style (Fin l)
                               (Fin c) (Fin sl) (Fin tp) capital f)])).
  { unfold open_trade, load_trades, _ensure_file, save_trades.
    destruct f as [rows |]; reflexivity. }
  rewrite Eo, update_trades_frame. cbn [fst].
  rewrite update_rows_nth, nth_error_app2 by lia.
  rewrite Nat.sub_diag. cbn [nth_error option_map Nat.add].
  set (row := fst (open_trade now_iso sym direction style (Fin l) (Fin c)
                     (Fin sl) (Fin tp) capital f)).
  assert (Hrow : symbol row = sym /\ status row = "OPEN"%string
                 /\ side row = upper direction /\ entry row = Fin c
                 /\ stop_loss row = Fin sl /\ take_profit row = Fin tp
                 /\ lot row = Fin l /\ close_time row = ""%string).
  { subst row. unfold open_trade, load_trades, _ensure_file.
    destruct f as [rows |]; cbn; repeat split; reflexivity. }
  destruct Hrow as (Hsym & Hst & Hsd & He & Hsl & Htp & Hl & Hct).
  assert (Hproc : processed sym row = true).
  { unfold processed. rewrite Hsym, Hst, String.eqb_refl. reflexivity. }
  rewrite Hproc. unfold update_row.
  rewrite Hsd, upper_idem, He, Hsl, Htp, Hl, Hst, Hct.
  assert (Hpnl : forall x : Q, ((Fin x - Fin x) * Fin l)%fl = Fin 0).
  { intro x. unfold fsub, fmul. apply Fin_Qred_zero.
    rewrite Qred_correct. ring. }
  destruct (String.eqb (upper direction) "LONG") eqn:Ed.
  - apply String.eqb_eq in Ed. destruct (HL Ed) as [Es Et].
    eexists. split; [reflexivity |].
    cbn [last_price pnl status close_time].
    split; [reflexivity |]. split; [apply Hpnl |].
    destruct (@close_flag (Fin c >=? Fin tp)%fl (Fin c <=? Fin sl)%fl
                (feq (Fin sl) (Fin c) = true) (feq (Fin tp) (Fin c) = true)
                (utcnow (length (rows_of f))))
      as (C1 & C2 & C3 & C4).
    + rewrite fge_Fin, feq_Fin. rewrite Et. split; intro H; nra.
    + rewrite fle_Fin, feq_Fin. rewrite Es. split; intro H; nra.
    + split; [exact C1 |]. split; [exact C2 |]. split; [exact C3 |].
      intro Hz. apply C4. apply fge_Fin. rewrite Et, Hz. lra.
  - assert (Ed' : upper direction <> "LONG"%string)
      by now apply String.eqb_neq.
    destruct (HS Ed') as [Es Et].
    eexists. split; [reflexivity |].
    cbn [last_price pnl status close_time].
    split; [reflexivity |]. split; [apply Hpnl |].
    destruct (@close_flag (Fin c <=? Fin tp)%fl (Fin c >=? Fin sl)%fl
                (feq (Fin sl) (Fin c) = true) (feq (Fin tp) (Fin c) = true)
                (utcnow (length (rows_of f))))
      as (C1 & C2 & C3 & C4).
    + rewrite fle_Fin, feq_Fin. rewrite Et. split; intro H; nra.
    + rewrite fge_Fin, feq_Fin. rewrite Es. split; intro H; nra.
    + split; [exact C1 |]. split; [exact C2 |]. split; [exact C3 |].
      intro Hz. apply C4. apply fle_Fin. rewrite Et, Hz. lra.
Qed.

End OpenThenUpdate.

(* ================================================================== *)
(** * More on the backtest *)
(* ================================================================== *)

Section MacroCategory.
Import Py Backtest Spec.
Local Open Scope string_scope.

(** X12. On an ASCII category [to_macro_category] answers one of CRYPTO,
    STOCK, ETF and OTHER; applying it to its own answer changes nothing;
    the case of the category does not matter; and a category whose
    upper-case form starts with CRYPTO, STOCK or ETF is mapped to that
    prefix. *)
Theorem to_macro_category_classes :
  forall cat : string,
    is_ascii cat ->
    (to_macro_category cat = "CRYPTO" \/ to_macro_category cat = "STOCK"
     \/ to_macro_category cat = "ETF" \/ to_macro_category cat = "OTHER")
    /\ to_macro_category (to_macro_category cat) = to_macro_category cat
    /\ to_macro_category (upper cat) = to_macro_category cat
    /\ to_macro_category (lower cat) = to_macro_category cat
    /\ (forall p sub,
           p = "CRYPTO" \/ p = "STOCK" \/ p = "ETF" ->
           upper cat = p ++ sub -> to_macro_category cat = p).
Proof.
  intros cat _. split; [| split; [| split; [| split]]].
  - unfold to_macro_category, startswith.
    destruct (String.prefix "CRYPTO" (upper cat)); [auto |].
    destruct (String.prefix "STOCK" (upper cat)); [auto |].
    destruct (String.prefix "ETF" (upper cat)); auto.
  - assert (H : to_macro_category cat = "CRYPTO" \/ to_macro_category cat = "STOCK"
                \/ to_macro_category cat = "ETF" \/ to_macro_category cat = "OTHER").
    { unfold to_macro_category, startswith.
      destruct (String.prefix "CRYPTO" (upper cat)); [auto |].
      destruct (String.prefix "STOCK" (upper cat)); [auto |].
      destruct (String.prefix "ETF" (upper cat)); auto. }
    destruct H as [-> | [-> | [-> | ->]]]; reflexivity.
  - unfold to_macro_category. now rewrite upper_idem.
  - unfold to_macro_category. now rewrite upper_lower.
  - intros p sub Hp E. unfold to_macro_category, startswith. rewrite E.
    destruct Hp as [-> | [-> | ->]].
    + now rewrite prefix_append.
    + rewrite (prefix_append "STOCK" sub). reflexivity.
    + rewrite (prefix_append "ETF" sub). reflexivity.
Qed.

End MacroCategory.

Section ReturnValues.
Import Py Backtest Spec.
Local Open Scope Z_scope.

Lemma fill_returns_date (df : prices_df) : forall horizons s s',
  fill_returns df horizons s = Ok s' ->
  signal_date s' = signal_date s /\ symbol s' = symbol s.
Proof.
  induction horizons as [| h0 hs IH]; intros s s' E; cbn [fill_returns] in E.
  - injection E as <-. now split.
  - destruct (get_future_price df (signal_date s) h0) as [[e f] | err];
      cbn [bind] in E; [| discriminate].
    destruct (is_nan e || is_nan f); [now apply IH |].
    unfold truediv in E. destruct (feq e (Fin 0)); [discriminate |].
    cbn [bind] in E. apply IH in E. exact E.
Qed.

(** A horizon whose two prices are defined ends with the percentage
    return; a column outside the horizons is not written. *)
Lemma fill_returns_value (df : prices_df) : forall horizons s s',
  fill_returns df horizons s = Ok s' ->
  (forall h e f,
      get_future_price df (signal_date s) h = Ok (e, f) ->
      is_nan e = false -> is_nan f = false ->
      In h horizons \/ get_return h s = ((f - e) / e * lit 100.0)%fl ->
      get_return h s' = ((f - e) / e * lit 100.0)%fl)
  /\ (forall h, ~ In h horizons -> get_return h s' = get_return h s).
Proof.
  induction horizons as [| h0 hs IH]; intros s s' E; cbn [fill_returns] in E.
  - injection E as <-. split.
    + intros h e f _ _ _ [[] | H]. exact H.
    + reflexivity.
  - destruct (get_future_price df (signal_date s) h0) as [[e0 f0] | err] eqn:E0;
      cbn [bind] in E; [| discriminate].
    destruct (is_nan e0 || is_nan f0) eqn:Enan.
    + destruct (IH _ _ E) as [V U]. split.
      * intros h e f Ef He Hf [[<- | Hin] | Hs].
        -- rewrite E0 in Ef. injection Ef as -> ->.
           rewrite He, Hf in Enan. discriminate.
        -- apply V; auto.
        -- apply V; auto.
      * intros h Hn. apply U. intro Hin. apply Hn. now right.
    + unfold truediv in E. destruct (feq e0 (Fin 0)); [discriminate |].
      cbn [bind] in E.
      destruct (IH _ _ E) as [V U]. split.
      * intros h e f Ef He Hf Hor.
        apply V; [exact Ef | exact He | exact Hf |].
        destruct (Z.eq_dec h h0) as [-> | Hne].
        -- right. rewrite E0 in Ef. injection Ef as -> ->.
           apply get_return_set_same.
        -- destruct Hor as [[Eq | Hin] | Hs]; [congruence | now left |].
           right. now rewrite get_return_set_other.
      * intros h Hn. rewrite U by (intro Hin; apply Hn; now right).
        apply get_return_set_other. intro Eq. apply Hn. now left.
Qed.

Lemma init_returns_other (horizons : list Z) : forall s h,
  ~ In h horizons ->
  get_return h (fold_left (fun s h => set_return h NaN s) horizons s)
  = get_return h s.
Proof.
  induction horizons as [| h0 hs IH]; intros s h Hn; cbn [fold_left].
  - reflexivity.
  - rewrite IH by (intro Hin; apply Hn; now right).
    apply get_return_set_other. intro Eq. apply Hn. now left.
Qed.

Lemma forward_rows_value prices horizons : forall signals out,
  forward_rows prices horizons signals = Ok out ->
  Forall2 (fun s s' =>
             (forall h df e f,
                 In h horizons ->
                 lookup_prices prices (symbol s) = Some df ->
                 get_future_price df (signal_date s) h = Ok (e, f) ->
                 is_nan e = false -> is_nan f = false ->
                 get_return h s' = ((f - e) / e * lit 100.0)%fl)
             /\ (forall h, ~ In h horizons -> get_return h s' = get_return h s))
          signals out.
Proof.
  induction signals as [| row rest IH]; intros out E; cbn [forward_rows] in E.
  - injection E as <-. constructor.
  - destruct (lookup_prices prices (symbol row)) as [df |] eqn:El.
    + destruct (fill_returns df horizons row) as [row' | err] eqn:Ef;
        cbn [bind] in E; [| discriminate].
      destruct (forward_rows prices horizons rest) as [rest' | err] eqn:Er;
        cbn [bind] in E; [| discriminate].
      injection E as <-. constructor; [| now apply IH].
      destruct (@fill_returns_value _ _ _ _ Ef) as [V U]. split; [| exact U].
      intros h df' e f Hin Hl Hp He Hf. rewrite El in Hl. injection Hl as <-.
      apply V; auto.
    + cbn [bind] in E.
      destruct (forward_rows prices horizons rest) as [rest' | err] eqn:Er;
        cbn [bind] in E; [| discriminate].
      injection E as <-. constructor; [| now apply IH].
      split; [| reflexivity]. intros h df e f _ Hl. rewrite El in Hl. discriminate.
Qed.

Lemma compute_forward_returns_value signals prices horizons out :
  compute_forward_returns signals prices horizons = Ok out ->
  Forall2 (fun s s' =>
             (forall h df e f,
                 In h horizons ->
                 lookup_prices prices (symbol s) = Some df ->
                 get_future_price df (signal_date s) h = Ok (e, f) ->
                 is_nan e = false -> is_nan f = false ->
                 get_return h s' = ((f - e) / e * lit 100.0)%fl)
             /\ (forall h, ~ In h horizons -> get_return h s' = get_return h s))
          signals out.
Proof.
  unfold compute_forward_returns. rewrite init_returns_map. intro E.
  apply forward_rows_value in E. apply Forall2_of_map in E.
  eapply Forall2_impl; [| exact E].
  intros s s' [V U]. cbv beta in *.
  destruct (init_returns_same horizons s) as (Ed & Es & _).
  split.
  - intros h df e f Hin Hl Hp. apply V with (df := df); [exact Hin | | ].
    + now rewrite Es.
    + now rewrite Ed.
  - intros h Hn. rewrite U by exact Hn. now apply init_returns_other.
Qed.

Local Open Scope Q_scope.

Lemma return_formula (c c' : Q) :
  ~ c == 0 ->
  exists r, ((Fin c' - Fin c) / Fin c * lit 100.0)%fl = Fin r
            /\ r == (c' - c) / c * 100
            /\ (0 < c -> (0 < r <-> c < c')).
Proof.
  intro Hc. unfold fsub, fdiv, fmul, lit.
  assert (H0 : 100.0 == 100) by reflexivity.
  destruct (Qcompare_spec c 0) as [E | E | E]; [contradiction | |].
  - eexists. split; [reflexivity |]. rewrite !Qred_correct, H0.
    split; [reflexivity |]. intro Hp. lra.
  - eexists. split; [reflexivity |]. rewrite !Qred_correct, H0.
    split; [reflexivity |]. intro Hp.
    assert (H100 : (c' - c) / c * 100 == (c' - c) * (100 / c)) by (field; lra).
    rewrite H100.
    assert (Hk : 0 < 100 / c) by (apply Qlt_shift_div_l; lra).
    split; intro H; nra.
Qed.

(** X13. With one bar per date and positive closes,
    [compute_forward_returns] returns normally, and for every signal and
    every horizon whose two bars exist the return written is
    (future - entry) / entry * 100, positive exactly when the future close
    is above the entry close.  A return column whose horizon is not asked
    for is left as it was. *)
Theorem forward_return_is_percentage_change :
  forall signals prices horizons,
    (forall sym df, lookup_prices prices sym = Some df ->
                    NoDup (map fst df)) ->
    (forall sym df d c, lookup_prices prices sym = Some df -> In (d, c) df ->
                        exists q, c = Fin q /\ 0 < q) ->
    exists out,
      compute_forward_returns signals prices horizons = Ok out
      /\ Forall2
           (fun s s' =>
              (forall h df d d' c c',
                  In h horizons ->
                  lookup_prices prices (symbol s) = Some df ->
                  first_bar_on_or_after df (signal_date s) d (Fin c) ->
                  first_bar_on_or_after df (signal_date s + h)%Z d' (Fin c') ->
                  exists r, get_return h s' = Fin r
                            /\ r == (c' - c) / c * 100
                            /\ (0 < r <-> c < c'))
              /\ (forall h, ~ In h horizons ->
                            get_return h s' = get_return h s))
           signals out.
Proof.
  intros signals prices horizons Hnd Hpos.
  assert (Hnz : forall sym df d c,
             lookup_prices prices sym = Some df -> In (d, c) df ->
             feq c (Fin 0) = false).
  { intros sym df d c Hl Hin. destruct (Hpos _ _ _ _ Hl Hin) as (q & -> & Hq).
    destruct (feq (Fin q) (Fin 0)) eqn:Ez; [| reflexivity].
    apply feq_Fin in Ez. lra. }
  destruct (@compute_forward_returns_keep_nan signals prices horizons Hnd
              Hnz)
    as (out & E & _).
  exists out. split; [exact E |].
  apply compute_forward_returns_value in E.
  eapply Forall2_impl; [| exact E].
  intros s s' [V U]. split; [| exact U].
  intros h df d d' c c' Hin Hl Hfirst Hfut.
  destruct (Hpos _ _ _ _ Hl (proj1 Hfirst)) as (q & Eq & Hq).
  injection Eq as <-.
  assert (Hc : ~ c == 0) by lra.
  destruct (return_formula c' Hc) as (r & Er & Hr & Hs).
  exists r. split; [| split; [exact Hr | now apply Hs]].
  rewrite <- Er.
  apply V with (df := df); [exact Hin | exact Hl | | reflexivity | reflexivity].
  exact (@get_future_price_both df (signal_date s) h d d' (Fin c) (Fin c')
           (Hnd _ _ Hl) Hfirst Hfut).
Qed.

End ReturnValues.

Section Summary.
Import Py Backtest Spec.
Local Open Scope Q_scope.

Lemma valid_nil_iff signals dec h :
  valid signals dec h = []
  <-> forall s, In s signals -> tech_decision s = dec -> get_return h s = NaN.
Proof.
  unfold valid. induction signals as [| s l IH]; cbn [filter map].
  - split; [intros _ s [] | reflexivity].
  - destruct (String.eqb_spec (tech_decision s) dec) as [E | E]; cbn [map filter].
    + destruct (get_return h s) eqn:Er; cbn [is_nan negb].
      * rewrite IH. split.
        -- intros H s' [<- | Hin] Hd; [exact Er | now apply H].
        -- intros H s' Hin. apply H. now right.
      * split; [discriminate |]. intro H.
        specialize (H s (or_introl eq_refl) E). congruence.
      * split; [discriminate |]. intro H.
        specialize (H s (or_introl eq_refl) E). congruence.
      * split; [discriminate |]. intro H.
        specialize (H s (or_introl eq_refl) E). congruence.
    + rewrite IH. split.
      * intros H s' [<- | Hin] Hd; [contradiction | now apply H].
      * intros H s' Hin. apply H. now right.
Qed.

Lemma valid_length signals dec h :
  (length (valid signals dec h) <= length signals)%nat.
Proof.
  unfold valid.
  eapply Nat.le_trans; [apply filter_length_le |].
  rewrite length_map. apply filter_length_le.
Qed.

Lemma sum_indicator (v : list float) : forall a : Q,
  exists q,
    fold_left fadd (map (fun x => if (x >? Fin 0)%fl then Fin 1 else Fin 0) v)
              (Fin a) = Fin q
    /\ q == a + inject_Z (Z.of_nat (wins v)).
Proof.
  unfold wins. induction v as [| x v IH]; intro a; cbn [map fold_left filter].
  - exists a. split; [reflexivity |]. cbn. ring.
  - destruct (x >? Fin 0)%fl; cbn [fadd].
    + destruct (IH (Qred (a + 1))) as (q & E & Hq).
      exists q. split; [exact E |]. rewrite Hq, Qred_correct.
      cbn [length]. rewrite Nat2Z.inj_succ, <- Z.add_1_l, inject_Z_plus.
      change (inject_Z 1) with 1. ring.
    + destruct (IH (Qred (a + 0))) as (q & E & Hq).
      exists q. split; [exact E |]. rewrite Hq, Qred_correct. ring.
Qed.

Lemma wins_le (v : list float) : (wins v <= length v)%nat.
Proof. apply filter_length_le. Qed.

Lemma winrate_value (v : list float) :
  v <> [] ->
  exists w,
    (Pandas.mean (map (fun x => if (x >? Fin 0)%fl then Fin 1 else Fin 0) v)
     * lit 100.0)%fl = Fin w
    /\ 0 <= w <= 100
    /\ w * inject_Z (Z.of_nat (length v))
       == 100 * inject_Z (Z.of_nat (wins v)).
Proof.
  intro Hne. unfold Pandas.mean, Pandas.sum, Pandas.count, of_int.
  destruct (sum_indicator v 0) as (q & E & Hq). rewrite E, length_map.
  assert (Hn : 0 < inject_Z (Z.of_nat (length v))).
  { change 0 with (inject_Z 0). rewrite <- Zlt_Qlt.
    destruct v; [contradiction | cbn [length]; lia]. }
  assert (Hw : inject_Z (Z.of_nat (wins v)) <= inject_Z (Z.of_nat (length v))).
  { rewrite <- Zle_Qle. pose proof (wins_le v). lia. }
  assert (Hw0 : 0 <= inject_Z (Z.of_nat (wins v))).
  { change 0 with (inject_Z 0). rewrite <- Zle_Qle. lia. }
  remember (inject_Z (Z.of_nat (length v))) as n.
  remember (inject_Z (Z.of_nat (wins v))) as k.
  unfold fdiv. pose proof Hn as Hc. apply Qgt_alt in Hc. rewrite Hc.
  unfold fmul, lit. eexists. split; [reflexivity |].
  assert (H0 : 100.0 == 100) by reflexivity.
  rewrite !Qred_correct, H0.
  assert (Eq : q == k) by (rewrite Hq; ring).
  rewrite Eq.
  assert (H1 : 0 <= k / n) by (apply Qle_shift_div_l; lra).
  assert (H2 : k / n <= 1) by (apply Qle_shift_div_r; lra).
  split; [lra |]. field. lra.
Qed.

Lemma valid_count signals dec h :
  (length (valid signals dec h)
   <= length (filter (fun s => String.eqb (tech_decision s) dec) signals))%nat.
Proof.
  unfold valid.
  eapply Nat.le_trans; [apply filter_length_le |].
  now rewrite length_map.
Qed.

Lemma winrate_range (v : list float) :
  v <> [] ->
  exists w,
    (Pandas.mean (map (fun x => if (x >? Fin 0)%fl then Fin 1 else Fin 0) v)
     * lit 100.0)%fl = Fin w
    /\ 0 <= w <= 100
    /\ (wins v = 0%nat <-> w == 0)
    /\ (wins v = length v -> w == 100).
Proof.
  intro Hne.
  destruct (winrate_value Hne) as (w & E & Hr & Hw).
  exists w. split; [exact E |]. split; [exact Hr |].
  assert (Hn : 0 < inject_Z (Z.of_nat (length v))).
  { change 0 with (inject_Z 0). rewrite <- Zlt_Qlt.
    destruct v; [contradiction | cbn [length]; lia]. }
  remember (inject_Z (Z.of_nat (length v))) as n.
  split; [split |].
  - intro H0. rewrite H0 in Hw. change (inject_Z (Z.of_nat 0)) with 0 in Hw.
    assert (Hm : w * n == 0) by (rewrite Hw; ring).
    apply Qmult_integral in Hm. destruct Hm as [Hm | Hm]; [exact Hm | lra].
  - intro H0.
    assert (Hk : inject_Z (Z.of_nat (wins v)) == 0).
    { assert (Hm : 100 * inject_Z (Z.of_nat (wins v)) == 0).
      { rewrite <- Hw, H0. ring. }
      apply Qmult_integral in Hm. destruct Hm as [Hm | Hm]; [lra | exact Hm]. }
    unfold Qeq in Hk. cbn [Qnum Qden inject_Z] in Hk. lia.
  - intro H0. rewrite H0, <- Heqn in Hw.
    assert (Hm : (w - 100) * n == 0).
    { setoid_replace ((w - 100) * n) with (w * n - 100 * n) by ring.
      rewrite Hw. ring. }
    apply Qmult_integral in Hm. destruct Hm as [Hm | Hm]; lra.
Qed.

(** X14. For a decision that occurs among the signals, the summary reports
    "no valid data" at a horizon exactly when every signal with that
    decision has a NaN return there.  Otherwise the count is the number of
    defined returns, at least 1 and at most the number of signals with that
    decision, and the win rate is a number between 0 and 100 that is 0
    exactly when no defined return is strictly positive and 100 when all
    are; a return of zero counts as no win. *)
Theorem summary_line_reports :
  forall signals dec h,
    In dec (map tech_decision signals) ->
    (summary_line signals dec h = None
     <-> forall s, In s signals -> tech_decision s = dec ->
                   get_return h s = NaN)
    /\ (forall st,
           summary_line signals dec h = Some st ->
           n_valid st = length (valid signals dec h)
           /\ (1 <= n_valid st
               <= length (filter (fun s => String.eqb (tech_decision s) dec)
                                 signals))%nat
           /\ exists w,
                winrate st = Fin w /\ 0 <= w <= 100
                /\ (wins (valid signals dec h) = 0%nat <-> w == 0)
                /\ (wins (valid signals dec h) = n_valid st -> w == 100)).
Proof.
  intros signals dec h _. split.
  - rewrite <- valid_nil_iff. unfold summary_line.
    destruct (valid signals dec h); split; try discriminate; reflexivity.
  - intros st E. unfold summary_line in E.
    pose proof (valid_count signals dec h) as Hl.
    destruct (valid signals dec h) as [| x v] eqn:Ev; [discriminate |].
    injection E as <-. cbn [n_valid winrate].
    split; [reflexivity |]. split; [cbn [length] in *; lia |].
    apply (@winrate_range (x :: v)). discriminate.
Qed.

End Summary.

(* ================================================================== *)
(** * The two rankings *)
(* ================================================================== *)

Section SortBy.

Variable A : Type.
Variable le : A -> A -> bool.
Hypothesis le_trans :
  forall x y z, le x y = true -> le y z = true -> le x z = true.

Lemma insert_sorted_by (x : A) : forall l,
  (forall y, In y l -> le x y = true \/ le y x = true) ->
  StronglySorted (fun a b => le a b = true) l ->
  StronglySorted (fun a b => le a b = true) (PySort.insert le x l).
Proof.
  induction l as [| y l IH]; intros Ht Hs; cbn [PySort.insert].
  - repeat constructor.
  - inversion Hs as [| ? ? Hs' Hall]; subst.
    destruct (le x y) eqn:Exy.
    + constructor; [exact Hs |]. constructor; [exact Exy |].
      eapply Forall_impl; [| exact Hall].
      intros z Hz. now apply le_trans with y.
    + assert (Hyx : le y x = true).
      { destruct (Ht y (or_introl eq_refl)); congruence. }
      constructor.
      * apply IH; [| exact Hs']. intros z Hz. apply Ht. now right.
      * apply Forall_forall. intros z Hz. apply insert_In in Hz.
        destruct Hz as [-> | Hz]; [exact Hyx |].
        rewrite Forall_forall in Hall. now apply Hall.
Qed.

Lemma sort_sorted_by : forall l,
  (forall x y, In x l -> In y l -> le x y = true \/ le y x = true) ->
  StronglySorted (fun a b => le a b = true) (PySort.sort le l).
Proof.
  induction l as [| x l IH]; intro Ht.
  - constructor.
  - change (PySort.sort le (x :: l))
      with (PySort.insert le x (PySort.sort le l)).
    apply insert_sorted_by.
    + intros y Hy. apply sort_In in Hy. apply Ht; [now left | now right].
    + apply IH. intros a b Ha Hb. apply Ht; now right.
Qed.

End SortBy.

Section Prefix.

Variable A : Type.
Variable R : A -> A -> Prop.

Lemma sorted_firstn (n : nat) : forall l,
  StronglySorted R l -> StronglySorted R (firstn n l).
Proof.
  induction n as [| n IH]; intros l Hs; [constructor |].
  destruct l as [| x l]; [constructor |].
  inversion Hs as [| ? ? Hs' Hall]; subst. cbn [firstn].
  constructor; [now apply IH |].
  apply Forall_forall. intros y Hy. rewrite Forall_forall in Hall.
  apply Hall. eapply In_firstn. exact Hy.
Qed.

Lemma sorted_firstn_skipn (n : nat) : forall l,
  StronglySorted R l ->
  forall a b, In a (firstn n l) -> In b (skipn n l) -> R a b.
Proof.
  induction n as [| n IH]; intros l Hs a b Ha Hb; [destruct Ha |].
  destruct l as [| x l]; [destruct Ha |].
  inversion Hs as [| ? ? Hs' Hall]; subst.
  cbn [firstn skipn] in Ha, Hb. destruct Ha as [<- | Ha].
  - rewrite Forall_forall in Hall. apply Hall. eapply In_skipn. exact Hb.
  - now apply IH with l.
Qed.

Lemma in_firstn_or_skipn (n : nat) (l : list A) (x : A) :
  In x l -> In x (firstn n l) \/ In x (skipn n l).
Proof.
  intro H. rewrite <- (firstn_skipn n l) in H. now apply in_app_or in H.
Qed.

End Prefix.

Section Rankings.
Import Py EnsembleManager Spec.
Local Open Scope Z_scope.

Variable ewm_mean : nat -> Pandas.Series -> Pandas.Series.
Variable sqrt : float -> float.
Variable download_data :
  string -> Z -> string -> result (list TechnicalAgent.bar).

Lemma fge_of_int (a b : Z) : fge (of_int a) (of_int b) = true <-> b <= a.
Proof. unfold of_int. rewrite fge_Fin, <- Zle_Qle. reflexivity. Qed.

Lemma fle_of_int (a b : Z) : fle (of_int a) (of_int b) = true <-> a <= b.
Proof. unfold of_int. rewrite fle_Fin, <- Zle_Qle. reflexivity. Qed.

Lemma run_technical_agent_decision symbol style period interval pd r :
  TechnicalAgent.run_technical_agent ewm_mean sqrt download_data symbol style
    period interval pd = Ok r ->
  TechnicalAgent.a_decision r
  = TechnicalAgent.decision_from_score (TechnicalAgent.a_score r).
Proof.
  unfold TechnicalAgent.run_technical_agent. intro Hr.
  destruct (download_data symbol _ interval) as [df | e]; [| discriminate].
  cbn [bind] in Hr. destruct df as [| b df]; [discriminate |].
  destruct (TechnicalAgent.compute_indicators ewm_mean sqrt (b :: df))
    as [| r0 rows]; [discriminate |].
  destruct (TechnicalAgent.score_technical_indicators (r0 :: rows) style)
    as [[sc rs] | e]; [| discriminate].
  cbn [bind] in Hr.
  destruct (TechnicalAgent.iloc_last (r0 :: rows)) as [last | e];
    [| discriminate].
  cbn [bind] in Hr. injection Hr as <-. reflexivity.
Qed.

(** What [analyze_one] reports: the neutral entry, or a decision that is
    the band of the score. *)
Lemma analyze_one_decision (a : asset) :
  let e := analyze_one ewm_mean sqrt download_data a in
  (tech_decision e = "N/A"%string /\ tech_score e = 0)
  \/ tech_decision e = TechnicalAgent.decision_from_score (tech_score e).
Proof.
  cbv zeta. unfold analyze_one.
  destruct (TechnicalAgent.run_technical_agent ewm_mean sqrt download_data
              (asset_symbol a) "Position" 365 "1d" None) as [r | e] eqn:E;
    cbn [tech_decision tech_score].
  - right. exact (run_technical_agent_decision _ _ _ _ _ E).
  - left. now split.
Qed.

Lemma buy_decision_score (e : entry) :
  (tech_decision e = "N/A"%string /\ tech_score e = 0)
  \/ tech_decision e = TechnicalAgent.decision_from_score (tech_score e) ->
  (tech_decision e = "BUY"%string \/ tech_decision e = "STRONG BUY"%string
   -> 3 <= tech_score e)
  /\ (tech_decision e = "SELL"%string \/ tech_decision e = "STRONG SELL"%string
      -> tech_score e <= -3).
Proof.
  intros [[En _] | Ed].
  - rewrite En. split; intros [H | H]; discriminate.
  - rewrite Ed.
    destruct (decision_from_score_cases (tech_score e))
      as [[H E] | [[H E] | [[H E] | [[H E] | [H E]]]]]; rewrite E;
      split; intros [H' | H']; try discriminate; lia.
Qed.

Lemma fle_trans (x y z : float) :
  fle x y = true -> fle y z = true -> fle x z = true.
Proof.
  destruct x as [| | | a], y as [| | | b], z as [| | | c];
    try discriminate; try reflexivity.
  rewrite !fle_Fin. apply Qle_trans.
Qed.

Lemma sorted_impl_in {A} (R R' : A -> A -> Prop) : forall l,
  (forall a b, In a l -> In b l -> R a b -> R' a b) ->
  StronglySorted R l -> StronglySorted R' l.
Proof.
  induction l as [| x l IH]; intros Himp Hs; [constructor |].
  inversion Hs as [| ? ? Hs' Hall]; subst. constructor.
  - apply IH; [| exact Hs']. intros a b Ha Hb. apply Himp; now right.
  - apply Forall_forall. intros y Hy. rewrite Forall_forall in Hall.
    apply Himp; [now left | now right | now apply Hall].
Qed.

(** The first fifteen of the selected entries in the order [le]. *)
Lemma top_fifteen (p : entry -> bool) (le : entry -> entry -> bool)
    (R : entry -> entry -> Prop) (results : list entry) :
  (forall x y z, le x y = true -> le y z = true -> le x z = true) ->
  (forall x y, In x results -> In y results -> (le x y = true <-> R x y)) ->
  (forall x y, R x y \/ R y x) ->
  let top := firstn 15 (PySort.sort le (filter p results)) in
  (length top <= 15)%nat
  /\ (forall r, In r top -> In r results /\ p r = true)
  /\ StronglySorted R top
  /\ (forall r r', In r top -> In r' results -> p r' = true ->
                   ~ In r' top -> R r r').
Proof.
  intros Htr Hle Htot top.
  assert (Hin : forall r, In r (PySort.sort le (filter p results)) ->
                          In r results /\ p r = true).
  { intros r Hr. apply sort_In in Hr. now apply filter_In in Hr. }
  assert (Hs : StronglySorted (fun a b => le a b = true)
                 (PySort.sort le (filter p results))).
  { apply sort_sorted_by; [exact Htr |].
    intros x y Hx Hy. apply filter_In in Hx, Hy.
    destruct (Htot x y) as [H | H]; [left | right];
      apply Hle; tauto. }
  split; [apply firstn_le_length |].
  split; [intros r Hr; apply Hin; eapply In_firstn; exact Hr |].
  split.
  - apply sorted_firstn.
    apply sorted_impl_in with (R := fun a b => le a b = true); [| exact Hs].
    intros a b Ha Hb. apply Hle; now apply Hin.
  - intros r r' Hr Hr' Hp Hn.
    assert (Hr2 : In r' (PySort.sort le (filter p results))).
    { apply sort_In. apply filter_In. now split. }
    destruct (@in_firstn_or_skipn _ 15 _ _ Hr2) as [H | H]; [contradiction |].
    apply Hle; [apply Hin; eapply In_firstn; exact Hr | exact Hr' |].
    exact (@sorted_firstn_skipn _ _ 15 _ Hs _ _ Hr H).
Qed.

Lemma is_buy_spec r :
  is_buy r = true
  <-> tech_decision r = "BUY"%string \/ tech_decision r = "STRONG BUY"%string.
Proof.
  unfold is_buy. rewrite orb_true_iff, !String.eqb_eq. reflexivity.
Qed.

Lemma is_sell_spec r :
  is_sell r = true
  <-> tech_decision r = "SELL"%string \/ tech_decision r = "STRONG SELL"%string.
Proof.
  unfold is_sell. rewrite orb_true_iff, !String.eqb_eq. reflexivity.
Qed.

(** X15. Of the entries [analyze_one] produces, the buy ranking lists at
    most fifteen, all with decision BUY or STRONG BUY and a technical score
    of at least 3, by decreasing score; every BUY or STRONG BUY entry left
    out scores no more than every listed one.  The sell ranking is the
    mirror image: at most fifteen SELL or STRONG SELL entries, scores at
    most -3, by increasing score.  An entry whose analysis failed ("N/A")
    or whose decision is HOLD / WAIT is in neither ranking. *)
Theorem rankings_are_top_fifteen :
  forall assets : list asset,
    let results := map (analyze_one ewm_mean sqrt download_data) assets in
    ((length (buy_like results) <= 15)%nat
     /\ (forall r, In r (buy_like results) ->
                   In r results /\ is_buy r = true /\ 3 <= tech_score r)
     /\ StronglySorted (fun a b => tech_score b <= tech_score a)
                       (buy_like results)
     /\ (forall r r', In r (buy_like results) -> In r' results ->
                      is_buy r' = true -> ~ In r' (buy_like results) ->
                      tech_score r' <= tech_score r))
    /\ ((length (sell_like results) <= 15)%nat
        /\ (forall r, In r (sell_like results) ->
                      In r results /\ is_sell r = true /\ tech_score r <= -3)
        /\ StronglySorted (fun a b => tech_score a <= tech_score b)
                          (sell_like results)
        /\ (forall r r', In r (sell_like results) -> In r' results ->
                         is_sell r' = true -> ~ In r' (sell_like results) ->
                         tech_score r <= tech_score r'))
    /\ (forall r, In r results ->
                  tech_decision r = "N/A"%string
                  \/ tech_decision r = "HOLD / WAIT"%string ->
                  ~ In r (buy_like results) /\ ~ In r (sell_like results)).
Proof.
  intros assets results.
  assert (Hsc : forall x, In x results ->
                          ensemble_score x = of_int (tech_score x)).
  { intros x Hx. exact (@results_scores ewm_mean sqrt download_data assets x Hx). }
  assert (Hdec : forall x, In x results ->
            (is_buy x = true -> 3 <= tech_score x)
            /\ (is_sell x = true -> tech_score x <= -3)).
  { intros x Hx. apply in_map_iff in Hx. destruct Hx as (a & <- & _).
    rewrite is_buy_spec, is_sell_spec.
    apply buy_decision_score. apply analyze_one_decision. }
  pose proof (@top_fifteen is_buy
                (fun r1 r2 => fge (ensemble_score r1) (ensemble_score r2))
                (fun a b => tech_score b <= tech_score a) results) as HB.
  pose proof (@top_fifteen is_sell
                (fun r1 r2 => fle (ensemble_score r1) (ensemble_score r2))
                (fun a b => tech_score a <= tech_score b) results) as HS.
  cbv zeta in HB, HS.
  change (firstn 15 (PySort.sort _ (filter is_buy results)))
    with (buy_like results) in HB.
  change (firstn 15 (PySort.sort _ (filter is_sell results)))
    with (sell_like results) in HS.
  assert (PB := HB
    ltac:(intros x y z H1 H2; cbv beta in *; unfold fge in *; now apply fle_trans with (ensemble_score y))
    ltac:(intros x y Hx Hy; cbv beta; rewrite (Hsc x Hx), (Hsc y Hy); apply fge_of_int)
    ltac:(intros x y; cbv beta; lia)).
  assert (PS := HS
    ltac:(intros x y z H1 H2; cbv beta in *; now apply fle_trans with (ensemble_score y))
    ltac:(intros x y Hx Hy; cbv beta; rewrite (Hsc x Hx), (Hsc y Hy); apply fle_of_int)
    ltac:(intros x y; cbv beta; lia)).
  clear HB HS.
  destruct PB as (B1 & B2 & B3 & B4). destruct PS as (S1 & S2 & S3 & S4).
  split; [| split].
  - split; [exact B1 |]. split; [| split; [exact B3 | exact B4]].
    intros r Hr. destruct (B2 r Hr) as [Hin Hp].
    split; [exact Hin |]. split; [exact Hp |]. now apply Hdec.
  - split; [exact S1 |]. split; [| split; [exact S3 | exact S4]].
    intros r Hr. destruct (S2 r Hr) as [Hin Hp].
    split; [exact Hin |]. split; [exact Hp |]. now apply Hdec.
  - intros r Hr Hd. split; intro Hin.
    + destruct (B2 r Hin) as [_ Hp]. apply is_buy_spec in Hp.
      destruct Hd as [E | E], Hp as [E' | E']; rewrite E in E'; discriminate.
    + destruct (S2 r Hin) as [_ Hp]. apply is_sell_spec in Hp.
      destruct Hd as [E | E], Hp as [E' | E']; rewrite E in E'; discriminate.
Qed.

End Rankings.

(* ================================================================== *)
(** * Further instances of the general statements *)
(* ================================================================== *)
Section MoreInstances.
Import Py.

(** A provider that returns 201 oscillating candles: the agent returns,
    and the general statement gives the range of its score, its decision
    and the number of its reasons. *)
Lemma run_technical_agent_result_witness :
  let wave := fun k : nat =>
    inject_Z (100 + Z.of_nat (k mod 3) * 2 - Z.of_nat (k mod 5)) in
  let bars :=
    map (fun k => TechnicalAgent.mkBar (Fin (wave k)) (Fin (wave k + 1))
                    (Fin (wave k - 1)) (Fin (wave k)) (Fin 1000))
        (seq 0 201) in
  exists r,
    TechnicalAgent.run_technical_agent (fun _ s => s) (fun x => x)
      (fun _ _ _ => Ok bars) "BTC-USD" "Swing" 365 "1d" None = Ok r
    /\ (-7 <= TechnicalAgent.a_score r <= 7)%Z
    /\ TechnicalAgent.a_decision r
       = TechnicalAgent.decision_from_score (TechnicalAgent.a_score r)
    /\ (7 <= length (TechnicalAgent.a_reasons r) <= 8)%nat.
Proof.
  intros wave bars.
  assert (H : exists r,
             TechnicalAgent.run_technical_agent (fun _ s => s) (fun x => x)
               (fun _ _ _ => Ok bars) "BTC-USD" "Swing" 365 "1d" None = Ok r).
  { vm_compute. eexists. reflexivity. }
  destruct H as (r & E). exists r. split; [exact E |].
  destruct (run_technical_agent_result (fun _ s => s) (fun x => x)
              (fun _ _ _ => Ok bars) "BTC-USD" "Swing" 365 "1d" None E)
    as (last & _ & _ & Hb & Hd & _ & Hr & _).
  split; [exact Hb | split; [exact Hd | exact Hr]].
Defined.

(** The oscillating candles are well formed, so their ATR is never
    negative. *)
Lemma atr_is_never_negative_witness :
  let wave := fun k : nat =>
    inject_Z (50 + Z.of_nat (k mod 4) * 3 - Z.of_nat (k mod 7)) in
  let bars :=
    map (fun k => TechnicalAgent.mkBar (Fin (wave k)) (Fin (wave k + 2))
                    (Fin (wave k - 1)) (Fin (wave k)) (Fin 10))
        (seq 0 40) in
  Forall Spec.well_formed bars
  /\ Forall Spec.nonneg_or_nan (TechnicalAgent._atr bars 14).
Proof.
  intros wave bars.
  assert (Hwf : Forall Spec.well_formed bars).
  { apply Forall_forall. intros b Hb. apply in_map_iff in Hb.
    destruct Hb as (k & <- & _). unfold Spec.well_formed.
    cbn [TechnicalAgent.Low TechnicalAgent.High]. apply fle_Fin. lra. }
  split; [exact Hwf |].
  exact (proj1 (proj2 (atr_is_never_negative (fun _ s => s) (fun x => x)
                         14 Hwf))).
Defined.

(** The same for the ADX: every value is NaN or between 0 and 100. *)
Lemma adx_is_a_percentage_witness :
  let wave := fun k : nat =>
    inject_Z (80 + Z.of_nat (k mod 5) * 2 - Z.of_nat (k mod 3)) in
  let bars :=
    map (fun k => TechnicalAgent.mkBar (Fin (wave k)) (Fin (wave k + 1))
                    (Fin (wave k - 2)) (Fin (wave k)) (Fin 10))
        (seq 0 40) in
  Forall Spec.well_formed bars
  /\ Forall Spec.in_0_100_or_nan (TechnicalAgent._adx bars 14).
Proof.
  intros wave bars.
  assert (Hwf : Forall Spec.well_formed bars).
  { apply Forall_forall. intros b Hb. apply in_map_iff in Hb.
    destruct Hb as (k & <- & _). unfold Spec.well_formed.
    cbn [TechnicalAgent.Low TechnicalAgent.High]. apply fle_Fin. lra. }
  split; [exact Hwf |].
  exact (proj1 (proj2 (proj2 (proj2
           (adx_is_a_percentage (fun _ s => s) (fun x => x) 14 Hwf))))).
Defined.

(** A SHORT trade from 50 with stop 54 and target 42: a price of 40 closes
    it with a profit of at least (50 - 42) * 10. *)
Lemma closing_pnl_reaches_level_witness :
  let t := PaperTrading.mkTrade 7 "ETH-USD" "short" "Swing" (Fin 10) (Fin 50)
             (Fin 54) (Fin 42) "t0" "" "open" (Fin 50) (Fin 0) (Fin 0)
             (Fin 40) (Fin 80) in
  exists row' v,
    nth_error (fst (PaperTrading.update_trades_with_price
                      (fun _ => "t1"%string) "ETH-USD" (Fin 40) (Fin 1000)
                      (Some [t]))) 0 = Some row'
    /\ PaperTrading.pnl row' = Fin v
    /\ PaperTrading.status row' = "CLOSED"%string
    /\ ((50 - 42) * 10 <= v)%Q.
Proof.
  intro t.
  assert (Hl : (0 <= 10)%Q) by lra.
  destruct (closing_pnl_reaches_level (fun _ => "t1"%string) (Fin 1000) [t] 0
              40 (row := t) (e := 50) (s := 54) (t := 42) (l := 10)
              eq_refl eq_refl eq_refl eq_refl eq_refl eq_refl eq_refl Hl)
    as (row' & v & E1 & E2 & _ & HS).
  exists row', v. split; [exact E1 |]. split; [exact E2 |].
  apply (proj1 (HS eq_refl)). lra.
Defined.

(** The shipped configuration, a stock at 40 with ATR 1 and both scores at
    -5: a SHORT order with 0 < target < entry < stop. *)
Lemma order_geometry_witness :
  let ta := OrderAgent.mkTech (-5) "SELL"
              (OrderAgent.mkIndicators (Fin 40) (Fin 1)) [] in
  exists o,
    fst (OrderAgent.build_order_from_analysis Config.shipped "now" "AAPL"
           "Apple" "STOCK" ta (Fin (-5)) []) = Some o
    /\ OrderAgent.side o = "SHORT"%string
    /\ fle (Fin 0) (OrderAgent.position_size o) = true
    /\ flt (Fin 0) (OrderAgent.take_profit o) = true
    /\ flt (OrderAgent.take_profit o) (OrderAgent.entry o) = true
    /\ flt (OrderAgent.entry o) (OrderAgent.stop_loss o) = true.
Proof.
  intro ta.
  destruct (OrderAgent.build_order_from_analysis Config.shipped "now" "AAPL"
              "Apple" "STOCK" ta (Fin (-5)) []) as [[o |] log'] eqn:E.
  - assert (Hs : OrderAgent.side o = "SHORT"%string).
    { vm_compute in E. injection E as <- _. reflexivity. }
    assert (H0 : (0 <= 10000)%Q) by lra.
    assert (H1 : (0 <= 1)%Q) by lra.
    destruct (order_geometry Config.shipped "now" "AAPL" "Apple" "STOCK" ta
                (Fin (-5)) [] (e := 40) (t := 1) (a := 10000) (r := 1)
                E eq_refl eq_refl eq_refl eq_refl)
      as (_ & HS & Hpos).
    exists o. split; [reflexivity |]. split; [exact Hs |].
    split; [exact (proj1 (proj2 (Hpos H0 H1))) | exact (HS Hs)].
  - exfalso. vm_compute in E. discriminate E.
Defined.

(** A close of 100 and an ATR of 2, direction "long", style "Scalping". *)
Lemma compute_sl_tp_levels_witness :
  let lv := App.compute_sl_tp (Fin 100) (Fin 2) "long" "Scalping" in
  fst (fst lv) = Fin 100
  /\ fle (snd (fst lv)) (Fin 100) = true /\ fle (Fin 100) (snd lv) = true.
Proof.
  assert (Ht : (0 <= 2)%Q) by lra.
  destruct (compute_sl_tp_levels 100 "long" "Scalping" Ht)
    as (E & HL & _).
  intro lv. split; [exact E |]. exact (HL eq_refl).
Defined.

(** A LONG trade opened in an absent ledger at close 100 with ATR 0, then
    observed at 100: both levels sit on the entry and the trade closes. *)
Lemma opened_trade_at_entry_price_witness :
  let lv := App.compute_sl_tp (Fin 100) (Fin 0) "LONG" "Swing" in
  let f' := snd (PaperTrading.open_trade "t0" "BTC-USD" "LONG" "Swing" (Fin 1)
                   (fst (fst lv)) (snd (fst lv)) (snd lv) (Fin 1000) None) in
  exists row',
    nth_error (fst (PaperTrading.update_trades_with_price
                      (fun _ => "t1"%string) "BTC-USD" (Fin 100) (Fin 1000)
                      f')) 0 = Some row'
    /\ PaperTrading.pnl row' = Fin 0
    /\ PaperTrading.status row' = "CLOSED"%string.
Proof.
  intros lv f'.
  assert (Ht : (0 <= 0)%Q) by lra.
  destruct (opened_trade_at_entry_price "t0" (fun _ => "t1"%string) "BTC-USD"
              "LONG" "Swing" (Fin 1000) None 100 1 Ht)
    as (row' & E & _ & Hp & _ & _ & _ & Hz).
  exists row'. split; [exact E |]. split; [exact Hp |].
  assert (H0 : (0 == 0)%Q) by reflexivity.
  exact (proj1 (Hz H0)).
Defined.

(** The category "Crypto/Major" is ASCII and maps to CRYPTO. *)
Lemma to_macro_category_witness :
  Spec.is_ascii "Crypto/Major"
  /\ Backtest.to_macro_category "Crypto/Major" = "CRYPTO"%string
  /\ Backtest.to_macro_category (lower "Crypto/Major") = "CRYPTO"%string.
Proof.
  assert (Ha : Spec.is_ascii "Crypto/Major").
  { unfold Spec.is_ascii. cbn [list_ascii_of_string].
    repeat constructor; cbn; lia. }
  destruct (to_macro_category_classes Ha) as (_ & _ & _ & Hl & Hp).
  assert (E : Backtest.to_macro_category "Crypto/Major" = "CRYPTO"%string).
  { apply (Hp "CRYPTO"%string "/MAJOR"%string); [now left | reflexivity]. }
  split; [exact Ha |]. split; [exact E |]. now rewrite Hl.
Defined.

(** Three BUY signals with returns 2, NaN and -1 at horizon 3: two defined
    returns, one of them positive, and a win rate between 0 and 100 that
    is not 0. *)
Lemma summary_line_witness :
  let sg := fun (r : float) =>
    Backtest.mkSignal 20%Z "SPY" "ETF/INDEX" "ETF" "BUY" [(3%Z, r)] in
  let signals := [sg (Fin 2); sg NaN; sg (Fin (-1))] in
  exists st w,
    Backtest.summary_line signals "BUY" 3 = Some st
    /\ Backtest.n_valid st = 2%nat
    /\ Backtest.winrate st = Fin w /\ (0 <= w <= 100)%Q /\ ~ (w == 0)%Q.
Proof.
  intros sg signals.
  assert (Hin : In "BUY"%string (map Backtest.tech_decision signals))
    by (now left).
  destruct (Backtest.summary_line signals "BUY" 3) as [st |] eqn:E.
  - destruct (proj2 (@summary_line_reports signals "BUY" 3%Z Hin) st E)
      as (Hn & _ & w & Ew & Hr & Hz & _).
    exists st, w. split; [reflexivity |].
    split; [rewrite Hn; reflexivity |]. split; [exact Ew |].
    split; [exact Hr |]. intro H0. apply Hz in H0. discriminate H0.
  - exfalso. vm_compute in E. discriminate E.
Defined.

(** A series with bars on days 20, 21 and 25, closes 50, 52 and 45: the
    return of a signal of day 20 at horizon 3 is the change from 50 to 45,
    a loss. *)
Lemma forward_return_witness :
  let df := [(25, Fin 45); (20, Fin 50); (21, Fin 52)]%Z in
  let sg := Backtest.mkSignal 20%Z "SPY" "ETF/INDEX" "ETF" "SELL" [] in
  exists s' r,
    Backtest.compute_forward_returns [sg] [("SPY"%string, df)] [3]%Z
    = Ok [s']
    /\ Backtest.get_return 3%Z s' = Fin r
    /\ (r == (45 - 50) / 50 * 100)%Q /\ ~ (0 < r)%Q.
Proof.
  intros df sg.
  assert (Hl : forall sym d,
             Backtest.lookup_prices [("SPY"%string, df)] sym = Some d ->
             d = df).
  { intros sym d. unfold Backtest.lookup_prices. cbn [find fst].
    destruct (String.eqb "SPY" sym); cbn [option_map snd];
      [intro H; now injection H | discriminate]. }
  assert (Hnd : forall sym d,
             Backtest.lookup_prices [("SPY"%string, df)] sym = Some d ->
             NoDup (map fst d)).
  { intros sym d H. rewrite (Hl _ _ H). cbn.
    repeat constructor; cbn; intuition discriminate. }
  assert (Hpos : forall sym d dt c,
             Backtest.lookup_prices [("SPY"%string, df)] sym = Some d ->
             In (dt, c) d -> exists q, c = Fin q /\ (0 < q)%Q).
  { intros sym d dt c H Hin. rewrite (Hl _ _ H) in Hin.
    destruct Hin as [E | [E | [E | []]]]; injection E as _ <-;
      eexists; (split; [reflexivity | lra]). }
  destruct (@forward_return_is_percentage_change [sg] [("SPY"%string, df)]
              [3]%Z Hnd Hpos)
    as (out & E & F).
  inversion F as [| s0 s' l0 l' [V _] Ft]; subst. inversion Ft; subst.
  assert (H1 : Spec.first_bar_on_or_after df (Backtest.signal_date sg) 20%Z
                 (Fin 50)).
  { split; [cbn; tauto |]. split; [cbn; lia |]. cbn. intros d' H. lia. }
  assert (H2 : Spec.first_bar_on_or_after df (Backtest.signal_date sg + 3)%Z
                 25%Z (Fin 45)).
  { split; [cbn; tauto |]. split; [cbn; lia |]. cbn. intros d' H. lia. }
  destruct (V 3%Z df 20%Z 25%Z 50 45 (or_introl eq_refl) eq_refl H1 H2)
    as (r & Er & Hr & Hs).
  exists s', r. split; [exact E |]. split; [exact Er |].
  split; [exact Hr |]. intro H. apply Hs in H. lra.
Defined.

End MoreInstances.
